(** * Infer for VSCode: change-significance classifier and cost-history tracker

    A shallow embedding of [src/javaCodeHandler.ts] (declaration extractor,
    significance classifier, non-constant registry) and of
    [updateInferCostHistory] from the two revisions of [inferController.ts],
    followed by the properties the specification states about them.

    Conventions of the embedding:
    - a JavaScript string is a [string], one [ascii] per code unit (texts are
      taken in the range 0..255);
    - a JavaScript [Map] is an insertion-ordered association list ([JsMap]);
    - cost entries are objects: they live in a [store] and arrays hold
      references to them, so that an entry shared by the current cost list
      and by a history is one object, as in the source;
    - a [TypeError] of the source (property access on [undefined]) is the
      [Throw] outcome of the [result] type. *)

From Stdlib Require Import List String Ascii Bool Arith NArith ZArith Lia.
Import ListNotations.
Local Open Scope string_scope.
Local Open Scope list_scope.

Set Implicit Arguments.

(* ================================================================== *)
(** * Outcomes: normal return or [TypeError] *)

Inductive result (A : Type) : Type :=
| Ok (a : A)
| Throw.
Arguments Ok {A} a.
Arguments Throw {A}.

Definition bind {A B : Type} (r : result A) (f : A -> result B) : result B :=
  match r with
  | Ok a => f a
  | Throw => Throw
  end.

Notation "'do' x <- r ; k" := (bind r (fun x => k))
  (at level 10, x pattern, r at level 100, k at level 200).

(** A loop whose body may throw: the accumulator is threaded left to right. *)
Fixpoint foldM {A B : Type} (f : B -> A -> result B) (l : list A) (b : B) : result B :=
  match l with
  | [] => Ok b
  | a :: l' => do b' <- f b a; foldM f l' b'
  end.

Fixpoint mapM {A B : Type} (f : A -> result B) (l : list A) : result (list B) :=
  match l with
  | [] => Ok []
  | a :: l' => do b <- f a; do bs <- mapM f l'; Ok (b :: bs)
  end.

(* ================================================================== *)
(** * JavaScript strings and arrays *)

Module Js.

(** [Array.prototype.includes] on an array of strings. *)
Definition includes (l : list string) (x : string) : bool :=
  existsb (String.eqb x) l.

(** [Array.prototype.indexOf]: the first index holding [x], if any
    (the source tests the result against [-1]). *)
Fixpoint indexOf (l : list string) (x : string) : option nat :=
  match l with
  | [] => None
  | y :: l' => if String.eqb y x then Some 0
               else match indexOf l' x with
                    | Some i => Some (S i)
                    | None => None
                    end
  end.

(** [l.splice(i, 1)]: removes the element at index [i]. *)
Fixpoint splice1 (i : nat) (l : list string) : list string :=
  match l, i with
  | [], _ => []
  | _ :: l', 0 => l'
  | y :: l', S j => y :: splice1 j l'
  end.

(** [Array.prototype.join]. *)
Definition join (sep : string) (l : list string) : string := String.concat sep l.

Fixpoint rev_string (acc s : string) : string :=
  match s with
  | EmptyString => acc
  | String a s' => rev_string (String a acc) s'
  end.

(** Pieces of [s] between occurrences of [sep]; [skip] counts the characters
    of a separator occurrence still to be dropped and [acc] is the current
    piece, reversed. *)
Fixpoint split_go (sep : string) (skip : nat) (acc : string) (s : string) : list string :=
  match s with
  | EmptyString => [rev_string "" acc]
  | String a s' =>
      match skip with
      | S n => split_go sep n acc s'
      | 0 => if String.prefix sep s
             then rev_string "" acc :: split_go sep (String.length sep - 1) "" s'
             else split_go sep 0 (String a acc) s'
      end
  end.

(** [String.prototype.split] with a string separator.  With the empty
    separator the string falls apart into its code units. *)
Definition split (sep : string) (s : string) : list string :=
  match sep with
  | EmptyString => map (fun a => String a "") (list_ascii_of_string s)
  | _ => split_go sep 0 "" s
  end.

(** White space and line terminators in the range 0..255, as
    [String.prototype.trim] and the class [\s] see them. *)
Definition isSpace (a : ascii) : bool :=
  let n := N_of_ascii a in
  (((9 <=? n) && (n <=? 13)) || (n =? 32) || (n =? 160))%N.

Fixpoint trimStart (s : string) : string :=
  match s with
  | EmptyString => EmptyString
  | String a s' => if isSpace a then trimStart s' else s
  end.

Definition trim (s : string) : string :=
  rev_string "" (trimStart (rev_string "" (trimStart s))).

(** Index of the first occurrence of [pat] in [s]. *)
Fixpoint search (pat s : string) : option nat :=
  if String.prefix pat s then Some 0
  else match s with
       | EmptyString => None
       | String _ s' => match search pat s' with
                        | Some i => Some (S i)
                        | None => None
                        end
       end.

(** [s.match(/(w1|w2|...)/)] used as a condition: some word occurs in [s]. *)
Definition containsAny (words : list string) (s : string) : bool :=
  existsb (fun w => match search w s with Some _ => true | None => false end) words.

(** Expansion of a replacement string for a string pattern: [$$], [$&],
    [$`] and [$'] are substituted, any other text is literal. *)
Fixpoint expand (before matched after repl : string) : string :=
  match repl with
  | EmptyString => EmptyString
  | String a r1 =>
      if Ascii.eqb a "$" then
        match r1 with
        | String b r2 =>
            if Ascii.eqb b "$" then String "$" (expand before matched after r2)
            else if Ascii.eqb b "&" then matched ++ expand before matched after r2
            else if Ascii.eqb b "`" then before ++ expand before matched after r2
            else if Ascii.eqb b "'" then after ++ expand before matched after r2
            else String a (expand before matched after r1)
        | EmptyString => String a EmptyString
        end
      else String a (expand before matched after r1)
  end.

(** [s.replace(pat, repl)] with a string pattern: the first occurrence only. *)
Definition replace (pat repl s : string) : string :=
  match search pat s with
  | None => s
  | Some i =>
      let before := substring 0 i s in
      let after := substring (i + String.length pat) (String.length s - (i + String.length pat)) s in
      before ++ expand before pat after repl ++ after
  end.

End Js.

(* ================================================================== *)
(** * Regular expressions

    A backtracking matcher for the fragment of JavaScript regular
    expressions the source uses: character classes, sequence, ordered
    alternation, greedy and lazy repetition, capture groups, the multiline
    anchor [^] and negative lookbehind.  Alternatives are tried left to
    right and a greedy repetition tries one more iteration first, so the
    first success is the match JavaScript reports. *)

Module Regex.

Inductive regex : Type :=
| Chr (p : ascii -> bool)
| Eps
| Seq (r1 r2 : regex)
| Alt (r1 r2 : regex)
| Star (greedy : bool) (r : regex)
| Group (n : nat) (r : regex)
| Bol
| NotBehind (r : regex).

(** A position in the subject: the text already passed (nearest character
    first) and the text still ahead. *)
Record pos : Type := { before : list ascii; after : list ascii }.

Definition caps : Type := list (nat * string).

Definition orelse {A : Type} (x y : option A) : option A :=
  match x with
  | Some _ => x
  | None => y
  end.

(** The text between two positions of one subject, [p] left of [q]. *)
Definition between (p q : pos) : string :=
  string_of_list_ascii
    (rev (firstn (List.length (before q) - List.length (before p)) (before q))).

Definition isLineTerminator (a : ascii) : bool :=
  let n := N_of_ascii a in ((n =? 10) || (n =? 13))%N.

(** Candidate starts for a lookbehind at [p]: [p] moved back by [k]
    characters, the subject ending where [p] is. *)
Definition rewind (p : pos) (k : nat) : pos :=
  {| before := skipn k (before p); after := rev (firstn k (before p)) |}.

Definition atEnd (p : pos) (c : caps) : option (pos * caps) :=
  match after p with
  | [] => Some (p, c)
  | _ :: _ => None
  end.

(** Repetition of [step], at most [fuel] times; each iteration takes at
    least one character, so the number of characters ahead bounds the
    iterations and serves as fuel. *)
Fixpoint iterate
    (step : pos -> caps -> (pos -> caps -> option (pos * caps)) -> option (pos * caps))
    (greedy : bool) (k : pos -> caps -> option (pos * caps))
    (fuel : nat) (p : pos) (c : caps) {struct fuel} : option (pos * caps) :=
  match fuel with
  | 0 => k p c
  | S fuel' =>
      let more :=
        step p c (fun p' c' =>
          (* an iteration that consumed nothing is not repeated *)
          if Nat.ltb (List.length (after p')) (List.length (after p))
          then iterate step greedy k fuel' p' c' else None) in
      if greedy then orelse more (k p c) else orelse (k p c) more
  end.

Fixpoint run (r : regex) (p : pos) (c : caps)
    (k : pos -> caps -> option (pos * caps)) {struct r} : option (pos * caps) :=
  match r with
  | Chr f =>
      match after p with
      | a :: rest =>
          if f a then k {| before := a :: before p; after := rest |} c else None
      | [] => None
      end
  | Eps => k p c
  | Seq r1 r2 => run r1 p c (fun p' c' => run r2 p' c' k)
  | Alt r1 r2 => orelse (run r1 p c k) (run r2 p c k)
  | Star greedy r1 => iterate (run r1) greedy k (S (List.length (after p))) p c
  | Group n r1 => run r1 p c (fun p' c' => k p' ((n, between p p') :: c'))
  | Bol =>
      match before p with
      | [] => k p c
      | a :: _ => if isLineTerminator a then k p c else None
      end
  | NotBehind r1 =>
      if existsb (fun j => match run r1 (rewind p j) c atEnd with
                           | Some _ => true
                           | None => false
                           end)
                 (seq 0 (S (List.length (before p))))
      then None else k p c
  end.

(** One match: where it starts, its text ([matches[0]]) and its groups. *)
Record rmatch : Type := { index : nat; text : string; groups : caps }.

Definition group (n : nat) (m : rmatch) : option string :=
  match find (fun g => Nat.eqb (fst g) n) (groups m) with
  | Some g => Some (snd g)
  | None => None
  end.

(** The match starting exactly at [p], if there is one. *)
Definition matchAt (r : regex) (p : pos) : option (pos * caps) :=
  run r p [] (fun p' c' => Some (p', c')).

Definition advance (p : pos) : option pos :=
  match after p with
  | a :: rest => Some {| before := a :: before p; after := rest |}
  | [] => None
  end.

(** Successive matches of a regular expression with the [g] flag, each
    search resuming where the previous match ended.  The expressions of
    the source all consume an opening parenthesis or the word [class], so
    an empty match never arises; the scan steps over one like
    [String.prototype.match] does. *)
Fixpoint scan (r : regex) (fuel : nat) (p : pos) : list rmatch :=
  match fuel with
  | 0 => []
  | S fuel' =>
      match matchAt r p with
      | Some (q, c) =>
          let m := {| index := List.length (before p); text := between p q; groups := c |} in
          if Nat.ltb (List.length (after q)) (List.length (after p)) then m :: scan r fuel' q
          else m :: match advance q with
                    | Some q' => scan r fuel' q'
                    | None => []
                    end
      | None =>
          match advance p with
          | Some p' => scan r fuel' p'
          | None => []
          end
      end
  end.

Definition start (s : string) : pos :=
  {| before := []; after := list_ascii_of_string s |}.

(** All matches, as the loop [while ((m = regex.exec(s)) !== null)] and
    [s.match(regex)] enumerate them. *)
Definition matchAll (r : regex) (s : string) : list rmatch :=
  scan r (S (String.length s)) (start s).

(** [s.replace(regex, "")] with the [g] flag: every match is cut out. *)
Fixpoint cut (ms : list rmatch) (i : nat) (s : string) : string :=
  match ms with
  | [] => s
  | m :: ms' =>
      substring 0 (index m - i) s
      ++ cut ms' (index m + String.length (text m))
           (substring (index m - i + String.length (text m))
                      (String.length s) s)
  end.

Definition removeAll (r : regex) (s : string) : string :=
  cut (matchAll r s) 0 s.

(** The matcher went from [p] to [q] over the characters [consumed]. *)
Definition moved (p q : pos) (consumed : list ascii) : Prop :=
  after p = consumed ++ after q /\ before q = rev consumed ++ before p.

(** Every match of the expression takes at least one character. *)
Fixpoint consuming (r : regex) : bool :=
  match r with
  | Chr _ => true
  | Seq r1 r2 => consuming r1 || consuming r2
  | Alt r1 r2 => consuming r1 && consuming r2
  | Group _ r1 => consuming r1
  | Eps | Star _ _ | Bol | NotBehind _ => false
  end.

(** ** Building blocks *)

Fixpoint Lit (s : string) : regex :=
  match s with
  | EmptyString => Eps
  | String a s' => Seq (Chr (Ascii.eqb a)) (Lit s')
  end.

Definition Plus (r : regex) : regex := Seq r (Star true r).
Definition Opt (r : regex) : regex := Alt r Eps.

Fixpoint Alts (rs : list regex) : regex :=
  match rs with
  | [] => Chr (fun _ => false)
  | [r] => r
  | r :: rs' => Alt r (Alts rs')
  end.

Fixpoint Seqs (rs : list regex) : regex :=
  match rs with
  | [] => Eps
  | [r] => r
  | r :: rs' => Seq r (Seqs rs')
  end.

Definition inRange (lo hi : N) (a : ascii) : bool :=
  let n := N_of_ascii a in ((lo <=? n) && (n <=? hi))%N.

Definition isUpper := inRange 65 90.
Definition isLower := inRange 97 122.
Definition isDigit := inRange 48 57.
Definition isChar (c : ascii) (a : ascii) : bool := Ascii.eqb a c.

(** [\w], [\W], [.], [\s] *)
Definition word (a : ascii) : bool := isUpper a || isLower a || isDigit a || isChar "_" a.
Definition nonWord (a : ascii) : bool := negb (word a).
Definition dot (a : ascii) : bool := negb (isLineTerminator a).
Definition space (a : ascii) : bool := Js.isSpace a.

(** [[A-Za-z_$]] and [[A-Za-z0-9_]] *)
Definition identStart (a : ascii) : bool := isUpper a || isLower a || isChar "_" a || isChar "$" a.
Definition identPart (a : ascii) : bool := isUpper a || isLower a || isDigit a || isChar "_" a.

Definition identifier : regex := Seq (Chr identStart) (Star true (Chr identPart)).

End Regex.

(* ================================================================== *)
(** * JavaScript [Map] with string keys *)

Module JsMap.

Definition t (V : Type) : Type := list (string * V).

Definition empty {V : Type} : t V := [].

Fixpoint get {V : Type} (k : string) (m : t V) : option V :=
  match m with
  | [] => None
  | (k', v) :: m' => if String.eqb k' k then Some v else get k m'
  end.

Definition has {V : Type} (k : string) (m : t V) : bool :=
  match get k m with
  | Some _ => true
  | None => false
  end.

(** [m.set(k, v)]: an existing key keeps its place, a new one goes last. *)
Fixpoint set {V : Type} (k : string) (v : V) (m : t V) : t V :=
  match m with
  | [] => [(k, v)]
  | (k', v') :: m' =>
      if String.eqb k' k then (k, v) :: m' else (k', v') :: set k v m'
  end.

End JsMap.

(* ================================================================== *)
(** * javaCodeHandler.ts: patterns *)

Import Regex.

Definition TAB : ascii := ascii_of_nat 9.

Definition modifiers : list string :=
  ["public"; "protected"; "private"; "static"; "final"; "native";
   "synchronized"; "abstract"; "transient"].

(** [(?:public|...|transient|\t| )*] *)
Definition modifierPrefix : regex :=
  Star true (Alts (map Lit modifiers ++ [Chr (isChar TAB); Chr (isChar " ")])).

(** [\([^\)]*\)] *)
Definition parenthesized : regex :=
  Seqs [Chr (isChar "("); Star true (Chr (fun a => negb (isChar ")" a))); Chr (isChar ")")].

(** [[\w\<\>\[\]\?]] *)
Definition typeChar (a : ascii) : bool :=
  word a || isChar "<" a || isChar ">" a || isChar "[" a || isChar "]" a || isChar "?" a.

Definition methodDeclarationRegex : regex :=
  Seqs [ Bol;
         modifierPrefix;
         Opt (Seqs [Chr (isChar "<"); Star true (Chr dot); Chr (isChar ">"); Plus (Chr space)]);
         Plus (Chr typeChar);
         Plus (Chr space);
         Group 1 identifier;
         NotBehind (Alts [ Lit "if"; Lit "switch"; Lit "while"; Lit "for";
                           Seqs [ Alts [Lit "public"; Lit "protected"; Lit "private"; Lit "return"];
                                  Chr (isChar " "); identifier ] ]);
         parenthesized ].

Definition significantCodeChangeRegex : regex :=
  Seq (NotBehind (Seq (Lit "//") (Star true (Chr dot))))
      (Group 1 (Alts [
         Seqs [Lit "while"; Star true (Chr (isChar " ")); parenthesized];
         Seqs [Lit "for"; Star true (Chr (isChar " ")); parenthesized];
         Seqs [ identifier;
                NotBehind (Seq (Plus (Chr nonWord)) (Group 2 (Alt (Lit "if") (Lit "switch"))));
                parenthesized ] ])).

Definition classRegex : regex :=
  Seqs [ Bol;
         modifierPrefix;
         Lit "class";
         Chr space;
         identifier;
         Opt (Seqs [Chr (isChar "<"); Group 1 (Star false (Chr dot)); Chr (isChar ">")]) ].

(** [matches[1]] of a declaration match; the group takes part in every
    match of [methodDeclarationRegex]. *)
Definition group1 (m : rmatch) : string :=
  match group 1 m with
  | Some s => s
  | None => "undefined"
  end.

(* ================================================================== *)
(** * javaCodeHandler.ts: declaration extractor *)

(** One iteration of the loop over [extensions] in
    [getGenericTypeExtensions]. *)
Definition addTypeExtension (typeExtensions : JsMap.t string) (extension : string)
    : JsMap.t string :=
  match Js.split " " (Js.trim extension) with
  | [a; b; c] => if String.eqb b "extends" then JsMap.set a c typeExtensions
                 else typeExtensions
  | _ => typeExtensions
  end.

Definition getGenericTypeExtensions (documentText : string) : JsMap.t string :=
  fold_left
    (fun typeExtensions m =>
       match group 1 m with
       | Some EmptyString | None => typeExtensions
       | Some g => fold_left addTypeExtension (Js.split "," g) typeExtensions
       end)
    (matchAll classRegex documentText) JsMap.empty.

(** The loop [for (let i = 1; parameterType.match(/(public|...)/); i++)]:
    the first part whose text before ["<"] contains no modifier keyword.
    Running past the last part reads [undefined] and throws. *)
Fixpoint skipModifiers (parameterParts : list string) : result string :=
  match parameterParts with
  | [] => Throw
  | part :: rest =>
      let parameterType := hd "" (Js.split "<" part) in
      if Js.containsAny modifiers parameterType then skipModifiers rest
      else Ok parameterType
  end.

(** The loop over [typeExtensions], in insertion order. *)
Definition applyTypeExtensions (typeExtensions : JsMap.t string) (parameterType : string)
    : string :=
  fold_left
    (fun parameterType typeExtension =>
       if String.eqb (hd "" (Js.split "[" parameterType)) (fst typeExtension)
       then Js.replace (fst typeExtension) (snd typeExtension) parameterType
       else parameterType)
    typeExtensions parameterType.

(** Body of the loop over [parameterTypes]. *)
Definition parameterTypeOf (typeExtensions : JsMap.t string) (parameter : string)
    : result string :=
  let parameterParts := Js.split " " (Js.trim parameter) in
  do parameterType <- skipModifiers parameterParts;
  let parameterType := applyTypeExtensions typeExtensions parameterType in
  Ok (Js.replace "..." "[]" parameterType).

Definition getParameterTypesFromMethodDeclaration
    (methodDeclaration : string) (typeExtensions : JsMap.t string)
    : result (list string) :=
  match nth_error (Js.split "(" methodDeclaration) 1 with
  | None => Throw
  | Some afterParen =>
      let parameterTypes := Js.split "," (hd "" (Js.split ")" afterParen)) in
      let parameterTypes :=
        if String.eqb (hd "" parameterTypes) "" then [] else parameterTypes in
      mapM (parameterTypeOf typeExtensions) parameterTypes
  end.

(* ================================================================== *)
(** * javaCodeHandler.ts: significance classifier, pure part

    Lines 77 to 122 of [significantCodeChangeCheck]: from the diff segments
    to the flag [isSignificant] and the map [containingAndCauseMethods]. *)

(** Modelled from the spec: the type [LineDiff] of [types.ts], a segment of
    [Diff.diffLines] with its text and its state.  [added] and [removed]
    are [None] when the object has no own property of that name, and a
    property that is there with the value [undefined] reads [Some false]. *)
Record LineDiff : Type := {
  value : string;
  added : option bool;
  removed : option bool
}.

Definition hasOwnProperty (field : option bool) : bool :=
  match field with
  | Some _ => true
  | None => false
  end.

Definition isChange (part : LineDiff) : bool :=
  hasOwnProperty (added part) || hasOwnProperty (removed part).

Definition causeMap : Type := JsMap.t (list string).

Section Classifier.

Variable typeExtensions : JsMap.t string.
Variable methodWhitelist : list string.
Variable nonConstantMethods : list string.

(** The loop [while ((declarationMatches = regex.exec(text)) !== null)]:
    every declaration found replaces [containingMethod]. *)
Definition lastDeclaration (text : string) (containingMethod : string) : result string :=
  foldM
    (fun _ declarationMatches =>
       do parameterTypes <-
         getParameterTypesFromMethodDeclaration (Regex.text declarationMatches) typeExtensions;
       Ok (group1 declarationMatches ++ "(" ++ Js.join "," parameterTypes ++ ")")%string)
    (matchAll methodDeclarationRegex text) containingMethod.

(** [match.split("(")[0].trim()] *)
Definition methodNameOf (occurrence : string) : string :=
  Js.trim (hd "" (Js.split "(" occurrence)).

(** The condition of line 107. *)
Definition isCause (methodName : string) : bool :=
  negb (Js.includes methodWhitelist methodName)
  && (Js.includes nonConstantMethods methodName
      || Js.includes ["while"; "for"] methodName).

(** Lines 108 to 116. *)
Definition addCause (containingMethod occurrence : string) (causes : causeMap) : causeMap :=
  match JsMap.get containingMethod causes with
  | Some causeMethods =>
      if Js.includes causeMethods occurrence then causes
      else JsMap.set containingMethod (causeMethods ++ [occurrence]) causes
  | None => JsMap.set containingMethod [occurrence] causes
  end.

(** Loop state inside one segment: [containingMethod], the cause map and
    [isSignificant]. *)
Definition scanState : Type := (string * causeMap * bool)%type.

(** Body of [for (const match of matches)]. *)
Definition checkOccurrence (partValue : string) (st : scanState) (occurrence : string)
    : result scanState :=
  let '(containingMethod, causes, isSignificant) := st in
  let diffTextPartValueBeforeMatch := hd "" (Js.split occurrence partValue) in
  do containingMethod <- lastDeclaration diffTextPartValueBeforeMatch containingMethod;
  if isCause (methodNameOf occurrence)
  then Ok (containingMethod, addCause containingMethod occurrence causes, true)
  else Ok (containingMethod, causes, isSignificant).

(** What [.match(significantCodeChangeRegex)] finds in a segment once the
    declaration text is removed. *)
Definition occurrences (part : LineDiff) : list string :=
  map Regex.text
    (matchAll significantCodeChangeRegex (removeAll methodDeclarationRegex (value part))).

(** Body of [for (let diffTextPartIndex in diffText)]; [earlier] holds the
    segments [diffText[0 .. diffTextPartIndex - 1]]. *)
Definition checkPart (earlier : list LineDiff) (part : LineDiff) (acc : causeMap * bool)
    : result (causeMap * bool) :=
  if isChange part then
    match occurrences part with
    | [] => Ok acc
    | matches =>
        do containingMethod <-
          foldM (fun containingMethod prevDiffTextPart =>
                   lastDeclaration (value prevDiffTextPart) containingMethod)
                earlier "";
        do st <- foldM (checkOccurrence (value part)) matches
                   (containingMethod, fst acc, snd acc);
        Ok (snd (fst st), snd st)
    end
  else Ok acc.

Fixpoint checkParts (earlier later : list LineDiff) (acc : causeMap * bool)
    : result (causeMap * bool) :=
  match later with
  | [] => Ok acc
  | part :: later' =>
      do acc' <- checkPart earlier part acc;
      checkParts (earlier ++ [part]) later' acc'
  end.

(** The cause map and the flag after the loop over all segments. *)
Definition classify (diffText : list LineDiff) : result (causeMap * bool) :=
  checkParts [] diffText (JsMap.empty, false).

End Classifier.

(* ================================================================== *)
(** * Shared state

    The cost entries and the process-wide variables that
    [javaCodeHandler.ts] imports from the controller, together with the
    whitelist setting and the number of notifications the event emitter has
    delivered. *)

(** Modelled from the spec: the source location of a cost entry, declared
    in [types.ts], which is not among the sources. *)
Record Location : Type := { file : string; lnum : Z }.

(** Modelled from the spec: a cost facet of a cost entry (polynomial as
    text, degree, asymptotic class), declared in [types.ts]. *)
Record Cost : Type := { polynomial : string; degree : Z; big_o : string }.

(** Modelled from the spec: a trace step of a cost entry, declared in
    [types.ts]; the fields are those the history view reads. *)
Record TraceItem : Type := {
  level : nat;
  filename : string;
  line_number : Z;
  description : string
}.

(** Modelled from the spec: the type [InferCostItem] (CostEntry) of
    [types.ts], with the optional fields [timestamp] and
    [changeCauseMethods] absent when [None]. *)
Record InferCostItem : Type := {
  id : string;
  method_name : string;
  parameterTypes : list string;
  loc : Location;
  alloc_cost : Cost;
  exec_cost : Cost;
  timestamp : option string;
  changeCauseMethods : option (list string);
  trace : list TraceItem
}.

(** Assignment to [item.changeCauseMethods] and to [item.timestamp]. *)
Definition setChangeCauseMethods (causeMethods : option (list string)) (item : InferCostItem)
    : InferCostItem :=
  {| id := id item; method_name := method_name item;
     parameterTypes := parameterTypes item; loc := loc item;
     alloc_cost := alloc_cost item; exec_cost := exec_cost item;
     timestamp := timestamp item; changeCauseMethods := causeMethods;
     trace := trace item |}.

Definition setTimestamp (currentTime : string) (item : InferCostItem) : InferCostItem :=
  {| id := id item; method_name := method_name item;
     parameterTypes := parameterTypes item; loc := loc item;
     alloc_cost := alloc_cost item; exec_cost := exec_cost item;
     timestamp := Some currentTime; changeCauseMethods := changeCauseMethods item;
     trace := trace item |}.

(** References to cost entries, and the store holding the objects. *)
Definition ref : Type := nat.
Definition store : Type := ref -> InferCostItem.

Definition write (r : ref) (f : InferCostItem -> InferCostItem) (objects : store) : store :=
  fun r' => if Nat.eqb r' r then f (objects r) else objects r'.

Definition histories : Type := JsMap.t (list ref).

(** Modelled from the spec: the per-file text snapshots
    [savedDocumentTexts], declared in the revision of [inferController.ts]
    that the handler imports from, which is not among the sources.  The
    other variables are those of [inferController.ts] and of the handler
    itself; arrays of cost entries hold references into [objects]. *)
Record State : Type := {
  fileName : string;                      (* activeTextEditor.document.fileName *)
  savedDocumentTexts : JsMap.t string;
  currentInferCost : list ref;
  inferCosts : JsMap.t (list ref);
  inferCostHistories : histories;
  objects : store;
  nonConstantMethods : list string;
  methodWhitelist : list string;          (* the setting methodWhitelist *)
  fired : nat                             (* significantCodeChange.fire() so far *)
}.

(* ================================================================== *)
(** * javaCodeHandler.ts: registry maintenance *)

Definition withNonConstantMethods (names : list string) (s : State) : State :=
  {| fileName := fileName s; savedDocumentTexts := savedDocumentTexts s;
     currentInferCost := currentInferCost s; inferCosts := inferCosts s;
     inferCostHistories := inferCostHistories s; objects := objects s;
     nonConstantMethods := names; methodWhitelist := methodWhitelist s;
     fired := fired s |}.

Definition resetNonConstantMethods (s : State) : State :=
  withNonConstantMethods [] s.

(** Body of the loop of [resetNonConstantMethodsForFile]. *)
Definition forget (registry : list string) (methodName : string) : list string :=
  match Js.indexOf registry methodName with
  | Some methodIndex => Js.splice1 methodIndex registry
  | None => registry
  end.

Definition resetNonConstantMethodsForFile (s : State) : State :=
  withNonConstantMethods
    (fold_left forget
       (map (fun inferCostItem => method_name (objects s inferCostItem)) (currentInferCost s))
       (nonConstantMethods s))
    s.

(* ================================================================== *)
(** * javaCodeHandler.ts: significantCodeChangeCheck *)

(** The key [`${method_name}(${parameterTypes.join(",")})`]. *)
Definition identityOf (item : InferCostItem) : string :=
  (method_name item ++ "(" ++ Js.join "," (parameterTypes item) ++ ")")%string.

(** Body of the loop of lines 124 to 132.  An empty history array makes
    [inferCostHistoryItem[0]] undefined and the assignment throws. *)
Definition attribute (causes : causeMap) (st : store * histories) (inferCostItem : ref)
    : result (store * histories) :=
  let '(objs, hists) := st in
  let causeMethods := JsMap.get (identityOf (objs inferCostItem)) causes in
  let objs := write inferCostItem (setChangeCauseMethods causeMethods) objs in
  match JsMap.get (id (objs inferCostItem)) hists with
  | Some inferCostHistoryItem =>
      match inferCostHistoryItem with
      | head :: _ =>
          let objs := write head (setChangeCauseMethods causeMethods) objs in
          Ok (objs, JsMap.set (id (objs head)) inferCostHistoryItem hists)
      | [] => Throw
      end
  | None => Ok (objs, hists)
  end.

Section DiffProvider.

(** [Diff.diffLines] of the package [diff], a collaborator outside the
    repository. *)
Variable diffLines : string -> string -> list LineDiff.

(** The classification of lines 77 to 122, on the state's inputs. *)
Definition classification (s : State) (previousText savedText : string)
    : result (causeMap * bool) :=
  classify (getGenericTypeExtensions previousText) (methodWhitelist s)
    (nonConstantMethods s) (diffLines previousText savedText).

Definition significantCodeChangeCheck (s : State) (savedText : string)
    : result (bool * State) :=
  match JsMap.get (fileName s) (savedDocumentTexts s) with
  | None | Some EmptyString => Ok (false, s)
  | Some previousText =>
      do cs <- classification s previousText savedText;
      do st <- foldM (attribute (fst cs)) (currentInferCost s)
                 (objects s, inferCostHistories s);
      Ok (snd cs,
          {| fileName := fileName s; savedDocumentTexts := savedDocumentTexts s;
             currentInferCost := currentInferCost s;
             inferCosts := JsMap.set (fileName s) (currentInferCost s) (inferCosts s);
             inferCostHistories := snd st; objects := fst st;
             nonConstantMethods := nonConstantMethods s;
             methodWhitelist := methodWhitelist s;
             fired := S (fired s) |})
  end.

End DiffProvider.

(* ================================================================== *)
(** * inferController.ts: updateInferCostHistory

    The loop body is the same in both revisions; the earlier one walks the
    current cost list, the later one the cost lists of every file.  The
    test [if (!costHistory) return;] cannot succeed, a stored history being
    an array, and has no counterpart here. *)

Definition recordCost (currentTime : string) (st : store * histories) (inferCostItem : ref)
    : store * histories :=
  let '(objs, hists) := st in
  let item := objs inferCostItem in
  let costHistory :=
    if JsMap.has (id item) hists
    then match JsMap.get (id item) hists with Some h => h | None => [] end
    else [] in
  let unchanged :=
    match costHistory with
    | head :: _ =>
        String.eqb (polynomial (exec_cost (objs head))) (polynomial (exec_cost item))
    | [] => false
    end in
  if unchanged then st
  else (write inferCostItem (setTimestamp currentTime) objs,
        JsMap.set (id item) (inferCostItem :: costHistory) hists).

Definition withHistories (st : store * histories) (s : State) : State :=
  {| fileName := fileName s; savedDocumentTexts := savedDocumentTexts s;
     currentInferCost := currentInferCost s; inferCosts := inferCosts s;
     inferCostHistories := snd st; objects := fst st;
     nonConstantMethods := nonConstantMethods s;
     methodWhitelist := methodWhitelist s; fired := fired s |}.

Module SingleFile.

(** The revision that analyses one file at a time. *)
Definition updateInferCostHistory (currentTime : string) (s : State) : State :=
  withHistories
    (fold_left (recordCost currentTime) (currentInferCost s)
       (objects s, inferCostHistories s))
    s.

End SingleFile.

Module Project.

(** The revision that keeps the cost lists of the whole project. *)
Definition updateInferCostHistory (currentTime : string) (s : State) : State :=
  withHistories
    (fold_left
       (fun st inferCost => fold_left (recordCost currentTime) (snd inferCost) st)
       (inferCosts s) (objects s, inferCostHistories s))
    s.

End Project.

(* ================================================================== *)
(** * Notions used by the properties *)

(** The snapshot [savedDocumentTexts.get(activeTextEditor.document.fileName)]. *)
Definition previousText (s : State) : option string :=
  JsMap.get (fileName s) (savedDocumentTexts s).

(** Method names of the entries of the current cost list. *)
Definition costNames (s : State) : list string :=
  map (fun inferCostItem => method_name (objects s inferCostItem)) (currentInferCost s).

Definition unnamed (names : list string) (name : string) : bool :=
  negb (Js.includes names name).

(** The occurrence text is listed as a cause under some containing method. *)
Definition recorded (occurrence : string) (causes : causeMap) : Prop :=
  exists containingMethod causeMethods,
    JsMap.get containingMethod causes = Some causeMethods /\ In occurrence causeMethods.

(** The occurrence is found in an added or removed segment and passes the
    condition of line 107. *)
Definition flagged (methodWhitelist nonConstantMethods : list string)
    (diffText : list LineDiff) (occurrence : string) : Prop :=
  exists part,
    In part diffText /\ isChange part = true /\ In occurrence (occurrences part)
    /\ isCause methodWhitelist nonConstantMethods (methodNameOf occurrence) = true.

(** The history stored under an id, empty when there is none. *)
Definition historyOf (k : string) (hists : histories) : list ref :=
  match JsMap.get k hists with
  | Some h => h
  | None => []
  end.

(** No stored history is an empty array. *)
Definition historiesNonEmpty (hists : histories) : Prop :=
  forall k h, JsMap.get k hists = Some h -> h <> [].

(** Every history is stored under the id of its head entry. *)
Definition historiesFiled (objs : store) (hists : histories) : Prop :=
  forall k head rest, JsMap.get k hists = Some (head :: rest) -> id (objs head) = k.

(** Entries of a cost list with the same id are the same object. *)
Definition distinctIds (objs : store) (costs : list ref) : Prop :=
  forall r r', In r costs -> In r' costs -> id (objs r) = id (objs r') -> r = r'.

(** What the loop over the segments maintains: the flag is set exactly when
    a seen occurrence passed the condition of line 107, and the cause map
    lists exactly those occurrences. *)
Definition tracks (methodWhitelist nonConstantMethods : list string)
    (seen : string -> Prop) (acc : causeMap * bool) : Prop :=
  (snd acc = true <->
     exists occ, seen occ /\ isCause methodWhitelist nonConstantMethods (methodNameOf occ) = true)
  /\ (forall occ, recorded occ (fst acc) <->
        seen occ /\ isCause methodWhitelist nonConstantMethods (methodNameOf occ) = true).

(** The occurrence is found in an added or removed segment of the list. *)
Definition changedIn (parts : list LineDiff) (occ : string) : Prop :=
  exists part, In part parts /\ isChange part = true /\ In occ (occurrences part).

(** ** The extractor as the specification words it

    For comparison with [getParameterTypesFromMethodDeclaration]: the
    parameter list is split on commas; of each parameter the leading
    modifiers are stripped and the declared type is taken, cut before
    ["<"]; a type that, up to an array suffix, is a key of the type
    extensions is replaced by its bound; a varargs marker becomes ["[]"]. *)

Fixpoint specDeclaredType (parameterParts : list string) : string :=
  match parameterParts with
  | [] => ""
  | part :: rest =>
      if Js.includes modifiers part then specDeclaredType rest else part
  end.

Definition specSubstituteBound (typeExtensions : JsMap.t string) (declared : string)
    : string :=
  let base := hd "" (Js.split "[" declared) in
  match JsMap.get base typeExtensions with
  | Some bound =>
      (bound ++ substring (String.length base) (String.length declared) declared)%string
  | None => declared
  end.

Definition specParameterTypes (parameterList : string) (typeExtensions : JsMap.t string)
    : list string :=
  if String.eqb parameterList "" then []
  else map (fun parameter =>
              Js.replace "..." "[]"
                (specSubstituteBound typeExtensions
                   (hd "" (Js.split "<"
                      (specDeclaredType (Js.split " " (Js.trim parameter)))))))
           (Js.split "," parameterList).

(** [n] spaces, as [ *] of the loop alternatives matches them. *)
Fixpoint spaces (n : nat) : string :=
  match n with
  | 0 => ""
  | S n' => String " " (spaces n')
  end.

(** A name without white space and without an opening parenthesis, as the
    keywords and the identifiers of the occurrence pattern are. *)
Fixpoint plain (name : string) : bool :=
  match name with
  | EmptyString => true
  | String a name' => negb (Js.isSpace a) && negb (Ascii.eqb a "(") && plain name'
  end.

(** The text of an occurrence: a name, spaces (none for a call), and the
    parenthesized rest. *)
Definition header (name : string) (n : nat) (rest : string) : string :=
  (name ++ spaces n ++ String "(" rest)%string.

(** The parameter types of every declaration found in [text] can be
    extracted: no parameter is made of modifier-like parts only. *)
Definition extractable (typeExtensions : JsMap.t string) (text : string) : bool :=
  forallb
    (fun declarationMatches =>
       match getParameterTypesFromMethodDeclaration
               (Regex.text declarationMatches) typeExtensions with
       | Ok _ => true
       | Throw => false
       end)
    (matchAll methodDeclarationRegex text).

(** The texts a segment searches for its containing method: the earlier
    segments and the text before each occurrence. *)
Definition scannedFor (earlier : list LineDiff) (part : LineDiff) : list string :=
  if isChange part then
    match occurrences part with
    | [] => []
    | matches =>
        map value earlier
        ++ map (fun occurrence => hd "" (Js.split occurrence (value part))) matches
    end
  else [].

Fixpoint scanned (earlier later : list LineDiff) : list string :=
  match later with
  | [] => []
  | part :: later' => scannedFor earlier part ++ scanned (earlier ++ [part]) later'
  end.

(** ** Runs of the analysis

    A run installs the cost lists read from the analyser's report, as
    [runInferOnCurrentFile] and [readInferOutputForProject] do, and then
    updates the histories.  The entries of a report are objects of the
    store. *)

Record Run : Type := {
  startedAt : string;
  costList : list ref;                 (* the new currentInferCost *)
  costLists : JsMap.t (list ref)       (* the new inferCosts *)
}.

Definition install (run : Run) (s : State) : State :=
  {| fileName := fileName s; savedDocumentTexts := savedDocumentTexts s;
     currentInferCost := costList run; inferCosts := costLists run;
     inferCostHistories := inferCostHistories s; objects := objects s;
     nonConstantMethods := nonConstantMethods s;
     methodWhitelist := methodWhitelist s; fired := fired s |}.

Definition analyseSingleFile (runs : list Run) (s : State) : State :=
  fold_left (fun s run => SingleFile.updateInferCostHistory (startedAt run) (install run s))
    runs s.

Definition analyseProject (runs : list Run) (s : State) : State :=
  fold_left (fun s run => Project.updateInferCostHistory (startedAt run) (install run s))
    runs s.

(** The entries a run of the project revision walks through. *)
Definition allEntries (run : Run) : list ref := List.concat (map snd (costLists run)).

(** The execution polynomial of an entry. *)
Definition execPolynomial (objs : store) (r : ref) : string :=
  polynomial (exec_cost (objs r)).

(** Ids and execution costs are those of [objs0]. *)
Definition sameCosts (objs0 objs : store) : Prop :=
  forall r, id (objs r) = id (objs0 r) /\ exec_cost (objs r) = exec_cost (objs0 r).

(** The history of [M] is headed by an entry with polynomial [p]. *)
Definition settled (M p : string) (st : store * histories) : Prop :=
  exists head rest,
    historyOf M (snd st) = head :: rest /\ execPolynomial (fst st) head = p.

(** The history of [M] has at most [n] entries, or one more and is headed
    by an entry with polynomial [p]. *)
Definition grownOnce (objs0 : store) (M p : string) (n : nat) (st : store * histories)
    : Prop :=
  sameCosts objs0 (fst st)
  /\ (List.length (historyOf M (snd st)) <= n
      \/ (settled M p st /\ List.length (historyOf M (snd st)) <= S n)).

(** ** Attribution *)

(** The objects are those of [objs0] up to [changeCauseMethods]. *)
Definition sameButCauses (objs0 objs : store) : Prop :=
  forall r, setChangeCauseMethods None (objs r) = setChangeCauseMethods None (objs0 r).

(** Processing entry [r] assigns to object [x]: [x] is the entry itself or
    the head of the history stored under its id. *)
Definition touches (objs0 : store) (hists : histories) (x r : ref) : bool :=
  Nat.eqb x r
  || match JsMap.get (id (objs0 r)) hists with
     | Some (head :: _) => Nat.eqb x head
     | _ => false
     end.

(* ================================================================== *)
(** * Concrete inputs *)

Module Sample.

Definition NL : string := String (ascii_of_nat 10) "".

Definition removedPart (v : string) : LineDiff :=
  {| value := v; added := Some false; removed := Some true |}.
Definition addedPart (v : string) : LineDiff :=
  {| value := v; added := Some true; removed := Some false |}.
Definition commonPart (v : string) : LineDiff :=
  {| value := v; added := None; removed := None |}.

(** Scenarios A and B: one line replaced by another. *)
Definition fooBefore : string := "void foo(int x) { bar(); }".
Definition fooAfter : string := "void foo(int x) { bar(); baz(); }".
Definition fooDiff : list LineDiff := [removedPart fooBefore; addedPart fooAfter].


(** A diff provider for texts of one line: the old line goes, the new one
    comes. *)
Definition oneLine (previous saved : string) : list LineDiff :=
  [removedPart previous; addedPart saved].

Definition costOf (p : string) : Cost :=
  {| polynomial := p; degree := 1; big_o := "O(n)" |}.

Definition entry (i name : string) (types : list string) (p : string)
    (causes : option (list string)) : InferCostItem :=
  {| id := i; method_name := name; parameterTypes := types;
     loc := {| file := "A.java"; lnum := 1 |};
     alloc_cost := costOf "1"; exec_cost := costOf p;
     timestamp := None; changeCauseMethods := causes; trace := [] |}.

(** Object 0 is the entry of [foo(int)] in the current cost list, object 1
    the entry recorded for it by an earlier run, object 2 an entry of a
    later run with another polynomial; both carry a stale attribution. *)
Definition heap : store :=
  fun r => match r with
           | 0 => entry "A.foo(int)" "foo" ["int"] "n" (Some ["old()"])
           | 1 => entry "A.foo(int)" "foo" ["int"] "n" (Some ["old()"])
           | 2 => entry "A.foo(int)" "foo" ["int"] "n*n" None
           | _ => entry "A.other()" "other" [] "1" None
           end.

Definition session (texts : JsMap.t string) (whitelist : list string) : State :=
  {| fileName := "A.java";
     savedDocumentTexts := texts;
     currentInferCost := [0];
     inferCosts := [("A.java", [0])];
     inferCostHistories := [("A.foo(int)", [1])];
     objects := heap;
     nonConstantMethods := ["baz"; "other"];
     methodWhitelist := whitelist;
     fired := 0 |}.

(** The file has just been opened: no snapshot yet. *)
Definition firstLoad : State := session [] [].

(** The file was analysed when it read [fooBefore]. *)
Definition analysed : State := session [("A.java", fooBefore)] [].

(** The same, with [baz] on the whitelist. *)
Definition analysedQuiet : State := session [("A.java", fooBefore)] ["baz"].

End Sample.

From Stdlib Require Import Permutation Sorted.

(* ================================================================== *)
(** * What a match is

    A description of the matches of an expression, against which the
    matcher is checked: [sem r p c q c'] says that [r] can match from
    position [p] to position [q], turning the captures [c] into [c'].  A
    lookbehind is described by the test the matcher performs. *)

(** Zero or more steps of [R], each going strictly to the right. *)
Inductive reps (R : pos -> caps -> pos -> caps -> Prop)
    : pos -> caps -> pos -> caps -> Prop :=
| reps_done (p : pos) (c : caps) : reps R p c p c
| reps_more (p : pos) (c : caps) (m : pos) (cm : caps) (q : pos) (c' : caps) :
    R p c m cm ->
    List.length (after m) < List.length (after p) ->
    reps R m cm q c' ->
    reps R p c q c'.

(** The test of [(?<!r)] at [p]: some text ending at [p] matches [r]. *)
Definition lookbehind (r : regex) (p : pos) (c : caps) : bool :=
  existsb (fun j => match run r (rewind p j) c atEnd with
                    | Some _ => true
                    | None => false
                    end)
          (seq 0 (S (List.length (before p)))).

Fixpoint sem (r : regex) (p : pos) (c : caps) (q : pos) (c' : caps) {struct r} : Prop :=
  match r with
  | Chr f =>
      exists a rest,
        f a = true /\ after p = a :: rest
        /\ q = {| before := a :: before p; after := rest |} /\ c' = c
  | Eps => q = p /\ c' = c
  | Seq r1 r2 => exists m cm, sem r1 p c m cm /\ sem r2 m cm q c'
  | Alt r1 r2 => sem r1 p c q c' \/ sem r2 p c q c'
  | Star _ r1 => reps (sem r1) p c q c'
  | Group n r1 => exists c0, sem r1 p c q c0 /\ c' = (n, between p q) :: c0
  | Bol =>
      q = p /\ c' = c
      /\ match before p with
         | [] => True
         | a :: _ => isLineTerminator a = true
         end
  | NotBehind r1 => q = p /\ c' = c /\ lookbehind r1 p c = false
  end.

(** The expression has no capture group outside a lookbehind. *)
Fixpoint groupFree (r : regex) : bool :=
  match r with
  | Seq r1 r2 | Alt r1 r2 => groupFree r1 && groupFree r2
  | Star _ r1 => groupFree r1
  | Group _ _ => false
  | Chr _ | Eps | Bol | NotBehind _ => true
  end.

(** An identifier of the patterns: [[A-Za-z_$][A-Za-z0-9_]*]. *)
Definition isIdentifier (name : string) : bool :=
  match name with
  | EmptyString => false
  | String a name' => identStart a && forallb identPart (list_ascii_of_string name')
  end.

(** The string ends with the given word. *)
Definition endsWith (s word : string) : Prop := exists front, s = (front ++ word)%string.

(* ================================================================== *)
(** * Notions for the history tracker *)

(** The stored histories are non-empty arrays, each under the id of its
    head entry. *)
Definition wellFiled (st : store * histories) : Prop :=
  historiesNonEmpty (snd st) /\ historiesFiled (fst st) (snd st).

(** The entries that the revision for the whole project walks through. *)
Definition allCosts (s : State) : list ref := List.concat (map snd (inferCosts s)).

(** Entries of a cost list with the same id have the same execution
    polynomial. *)
Definition oneCostPerId (objs : store) (costs : list ref) : Prop :=
  forall r r', In r costs -> In r' costs -> id (objs r) = id (objs r') ->
               execPolynomial objs r = execPolynomial objs r'.

(** Sessions for the history tracker, on the objects of [Sample.heap]. *)
Module Reports.

(** The analysed session with a cost list of two methods, [foo(int)] and
    [other()]. *)
Definition twoMethods : State :=
  install {| startedAt := "t1"; costList := [0; 3]; costLists := [("A", [0; 3])] |}
    Sample.analysed.

(** The same with two entries under the id of [foo(int)], one with the
    polynomial [n] and one with [n*n]. *)
Definition sharedId : State :=
  install {| startedAt := "t1"; costList := [0; 2]; costLists := [("A", [0; 2])] |}
    Sample.analysed.

(** Entries of a project in two files: objects 0 and 1 in [src/A.java],
    at lines 7 and 3, the others in [src/B.java]. *)
Definition inFile (path : string) (line : Z) (item : InferCostItem) : InferCostItem :=
  {| id := id item; method_name := method_name item;
     parameterTypes := parameterTypes item; loc := {| file := path; lnum := line |};
     alloc_cost := alloc_cost item; exec_cost := exec_cost item;
     timestamp := timestamp item; changeCauseMethods := changeCauseMethods item;
     trace := trace item |}.

Definition projectHeap : store :=
  fun r => match r with
           | 0 => inFile "src/A.java" 7 (Sample.heap 0)
           | 1 => inFile "src/A.java" 3 (Sample.heap 3)
           | 2 => inFile "src/B.java" 5 (Sample.heap 2)
           | _ => inFile "src/B.java" 9 (Sample.heap 3)
           end.

(** The session of a project just enabled: no cost list is kept yet and
    the active editor shows [src/B.java]. *)
Definition project : State :=
  {| fileName := "/work/src/B.java"; savedDocumentTexts := [];
     currentInferCost := []; inferCosts := []; inferCostHistories := [];
     objects := projectHeap; nonConstantMethods := []; methodWhitelist := [];
     fired := 0 |}.

End Reports.

(* ================================================================== *)
(** * Notions for the classifier *)

(** The flag says whether the cause map holds a list, and every list of
    the map has an entry and no entry twice. *)
Definition tidy (acc : causeMap * bool) : Prop :=
  (snd acc = true <-> fst acc <> [])
  /\ forall k l, JsMap.get k (fst acc) = Some l -> l <> [] /\ NoDup l.

(* ================================================================== *)
(** * Whitelist commands

    [addMethodToWhitelist] and [removeMethodFromWhitelist], from the
    revision of the handler kept in [constants.ts].  The setting
    [methodWhitelist] is the field of that name of the state; an update of
    the configuration is taken to be in force at the next read. *)

(** [$] with the flag [m], closing an expression: the match ends at the
    end of the subject or in front of a line terminator. *)
Definition atLineEnd (p : pos) (c : caps) : option (pos * caps) :=
  match after p with
  | [] => Some (p, c)
  | a :: _ => if isLineTerminator a then Some (p, c) else None
  end.

(** [s.match(re)] used as a condition, for [re] made of [r] and a closing
    [$]: some position from [p] on starts a match. *)
Fixpoint matchesFrom (r : regex) (fuel : nat) (p : pos) : bool :=
  match run r p [] atLineEnd with
  | Some _ => true
  | None =>
      match fuel with
      | 0 => false
      | S fuel' =>
          match advance p with
          | Some p' => matchesFrom r fuel' p'
          | None => false
          end
      end
  end.

Definition matchesLine (r : regex) (s : string) : bool :=
  matchesFrom r (String.length s) (start s).

(** [/^[A-Za-z_$][A-Za-z0-9_]+$/gm], up to its closing [$]. *)
Definition methodNameRegex : regex :=
  Seqs [Bol; Chr identStart; Plus (Chr identPart)].

Definition withMethodWhitelist (names : list string) (s : State) : State :=
  {| fileName := fileName s; savedDocumentTexts := savedDocumentTexts s;
     currentInferCost := currentInferCost s; inferCosts := inferCosts s;
     inferCostHistories := inferCostHistories s; objects := objects s;
     nonConstantMethods := nonConstantMethods s; methodWhitelist := names;
     fired := fired s |}.

Definition addMethodToWhitelist (methodName : string) (s : State) : State :=
  if negb (matchesLine methodNameRegex methodName) then s
  else if Js.includes (methodWhitelist s) methodName then s
  else withMethodWhitelist (methodWhitelist s ++ [methodName]) s.

Definition removeMethodFromWhitelist (methodName : string) (s : State) : State :=
  withMethodWhitelist
    (filter (fun method => negb (String.eqb method methodName)) (methodWhitelist s))
    s.

(* ================================================================== *)
(** * inferController.ts, later revision: reading the report

    [getSourceFileName], the entries that [readInferOutputForCurrentFile]
    builds from the parsed report, and the loop by which
    [readInferOutputForProject] files the entries of a project under their
    source files.  Reading and parsing the report file are outside: the
    functions start from the parsed items. *)

(** [fileName.split("/").pop()?.split(".")[0]], and the empty string where
    that is missing or empty. *)
Definition getSourceFileName (fileName : string) : string :=
  hd "" (Js.split "." (last (Js.split "/" fileName) "")).

(** [Array.prototype.sort] with a comparator [key(a) - key(b)] on integer
    keys; the sort is stable. *)
Fixpoint insertBy {A : Type} (key : A -> Z) (x : A) (l : list A) : list A :=
  match l with
  | [] => [x]
  | y :: l' => if (key x <=? key y)%Z then x :: l else y :: insertBy key x l'
  end.

Definition sortBy {A : Type} (key : A -> Z) (l : list A) : list A :=
  fold_right (insertBy key) [] l.

(** An item of the parsed [costs-report.json], with the fields the source
    reads: [procedure_id], [procedure_name], [loc] and, of [alloc_cost.hum]
    and [exec_cost.hum], [hum_polynomial], [hum_degree] and [big_o]. *)
Record RawCost : Type := {
  hum_polynomial : string;
  hum_degree : Z;
  hum_big_o : string
}.

Record RawItem : Type := {
  procedure_id : string;
  procedure_name : string;
  raw_loc : Location;
  raw_alloc_cost : RawCost;
  raw_exec_cost : RawCost
}.

(** The object literal of lines 241 to 258: a cost entry with the fields
    it is given there. *)
Record ReportEntry : Type := {
  entry_id : string;
  entry_method_name : string;
  entry_loc : Location;
  entry_alloc_cost : Cost;
  entry_exec_cost : Cost
}.

(** [polynomial.replace(/\./g, '*')] *)
Fixpoint starForDot (polynomial : string) : string :=
  match polynomial with
  | EmptyString => EmptyString
  | String a rest =>
      String (if Ascii.eqb a "." then "*"%char else a) (starForDot rest)
  end.

Definition costOfRaw (hum : RawCost) : Cost :=
  {| polynomial := starForDot (hum_polynomial hum);
     degree := hum_degree hum;
     big_o := hum_big_o hum |}.

Definition entryOfRaw (inferCostRawItem : RawItem) : ReportEntry :=
  {| entry_id := procedure_id inferCostRawItem;
     entry_method_name := procedure_name inferCostRawItem;
     entry_loc := {| file := file (raw_loc inferCostRawItem);
                     lnum := lnum (raw_loc inferCostRawItem) |};
     entry_alloc_cost := costOfRaw (raw_alloc_cost inferCostRawItem);
     entry_exec_cost := costOfRaw (raw_exec_cost inferCostRawItem) |}.

(** The cost list that [readInferOutputForCurrentFile] makes of the parsed
    report: constructors are left out and the entries are sorted by
    line. *)
Definition reportEntries (inferCostRaw : list RawItem) : list ReportEntry :=
  sortBy (fun entry => lnum (entry_loc entry))
    (map entryOfRaw
       (filter (fun inferCostRawItem =>
                  negb (String.eqb (procedure_name inferCostRawItem) "<init>"))
               inferCostRaw)).

(** Variables of the loop of lines 181 to 195. *)
Record Grouping : Type := {
  sourceFilePath : option string;
  sourceFileName : option string;
  fileInferCost : list ref;
  grouped : JsMap.t (list ref)           (* inferCosts *)
}.

(** The entry goes to the array of the current file. *)
Definition sameFile (itemFile : string) (inferCostItem : ref) (g : Grouping) : Grouping :=
  {| sourceFilePath := Some itemFile;
     sourceFileName := Some (getSourceFileName itemFile);
     fileInferCost := fileInferCost g ++ [inferCostItem];
     grouped := grouped g |}.

(** Body of the loop: an entry of another file than the last one files
    the array collected so far under the name of that last file and starts
    a new array; where that name is empty the entry is passed over. *)
Definition groupStep (objs : store) (g : Grouping) (inferCostItem : ref) : Grouping :=
  let itemFile := file (loc (objs inferCostItem)) in
  match sourceFilePath g with
  | Some (String _ _ as path) =>
      if String.eqb path itemFile then sameFile itemFile inferCostItem g
      else
        match sourceFileName g with
        | Some (String _ _ as name) =>
            {| sourceFilePath := Some itemFile;
               sourceFileName := Some (getSourceFileName itemFile);
               fileInferCost := [inferCostItem];
               grouped :=
                 JsMap.set name
                   (sortBy (fun r => lnum (loc (objs r))) (fileInferCost g))
                   (grouped g) |}
        | _ => g
        end
  | _ => sameFile itemFile inferCostItem g
  end.

Definition withInferCost (current : list ref) (costs : JsMap.t (list ref)) (s : State)
    : State :=
  {| fileName := fileName s; savedDocumentTexts := savedDocumentTexts s;
     currentInferCost := current; inferCosts := costs;
     inferCostHistories := inferCostHistories s; objects := objects s;
     nonConstantMethods := nonConstantMethods s;
     methodWhitelist := methodWhitelist s; fired := fired s |}.

(** [readInferOutputForProject] from line 181 on; [inferCost] holds the
    entries of the report, objects of the store, in the order that the
    sort by file of line 180 has given them. *)
Definition readInferOutputForProject (inferCost : list ref) (s : State) : bool * State :=
  let g := fold_left (groupStep (objects s)) inferCost
             {| sourceFilePath := None; sourceFileName := None;
                fileInferCost := []; grouped := inferCosts s |} in
  match JsMap.get (getSourceFileName (fileName s)) (grouped g) with
  | Some tmpInferCost => (true, withInferCost tmpInferCost (grouped g) s)
  | None => (false, withInferCost (currentInferCost s) (grouped g) s)
  end.

(* ================================================================== *)
(** * Texts made of line comments *)

(** Where a character stands in its line: in the white space at its
    start, after a first [/], or behind [//]. *)
Inductive LinePlace : Type := Indent | Slash | Comment.

Definition placeAfter (place : LinePlace) (a : ascii) : option LinePlace :=
  match place with
  | Indent =>
      if isLineTerminator a || isChar " " a || isChar TAB a then Some Indent
      else if isChar "/" a then Some Slash
      else None
  | Slash => if isChar "/" a then Some Comment else None
  | Comment => if isLineTerminator a then Some Indent else Some Comment
  end.

(** Every line of the text is spaces and tabs, followed by nothing or by
    [//] and the rest of the line. *)
Fixpoint lineComments (place : LinePlace) (text : list ascii) : bool :=
  match text with
  | [] => match place with Slash => false | _ => true end
  | a :: rest =>
      match placeAfter place a with
      | Some place' => lineComments place' rest
      | None => false
      end
  end.

Definition commentsOnly (text : string) : bool :=
  lineComments Indent (list_ascii_of_string text).

(** The place reached after the characters of [text]. *)
Fixpoint placeAt (place : LinePlace) (text : list ascii) : option LinePlace :=
  match text with
  | [] => Some place
  | a :: rest =>
      match placeAfter place a with
      | Some place' => placeAt place' rest
      | None => None
      end
  end.

Module Comments.

(** A comment line added inside a method. *)
Definition commentDiff : list LineDiff :=
  [ Sample.commonPart ("void qux() {" ++ Sample.NL)%string;
    Sample.addedPart ("  // baz(); while (busy) {}" ++ Sample.NL)%string;
    Sample.commonPart ("}" ++ Sample.NL)%string ].

End Comments.

(* ================================================================== *)
(** * Notions for the extractor *)

(** The part of a parameter reads like a modifier to the loop of line
    150: a modifier keyword occurs in it in front of any ["<"]. *)
Definition modifierLike (parameterPart : string) : bool :=
  Js.containsAny modifiers (hd "" (Js.split "<" parameterPart)).

(* ================================================================== *)
(** * inferController.ts, the revision for one file: the cost list of a run

    [runInferOnCurrentFile] of the earlier revision, from the parsed report
    on (lines 88 to 125): running the analyser and reading the file are
    outside.  [updateInferCostHistory] of that revision is
    [SingleFile.updateInferCostHistory]. *)

(** The object literal of lines 94 to 110.  The id is made of the path of
    the source file and of [procedure_name]; [parameterTypes] is no field
    of the entries of this revision and is left empty, as are the fields
    that the literal does not set. *)
Definition costItemOfRaw (sourceFilePath : string) (inferCostRawItem : RawItem)
    : InferCostItem :=
  {| id := (sourceFilePath ++ ":" ++ procedure_name inferCostRawItem)%string;
     method_name := procedure_name inferCostRawItem;
     parameterTypes := [];
     loc := {| file := file (raw_loc inferCostRawItem);
               lnum := lnum (raw_loc inferCostRawItem) |};
     alloc_cost := costOfRaw (raw_alloc_cost inferCostRawItem);
     exec_cost := costOfRaw (raw_exec_cost inferCostRawItem);
     timestamp := None; changeCauseMethods := None; trace := [] |}.

(** The objects that a run creates are new: they are stored at the
    addresses from [next] on, which hold no entry in use. *)
Definition allocate (next : ref) (items : list InferCostItem) (objs : store) : store :=
  fun r => if Nat.leb next r then nth (r - next) items (objs r) else objs r.

(** Lines 88 to 125: one entry for each item of the report, the entries
    sorted by line and kept as the current cost list, which is also filed
    under the name of the file ([fileName.split("/").pop()], the empty
    string where that is missing). *)
Definition runInferOnCurrentFile (next : ref) (inferCostRaw : list RawItem) (s : State)
    : State :=
  let sourceFilePath := fileName s in
  let sourceFileName := last (Js.split "/" sourceFilePath) "" in
  let inferCost := map (costItemOfRaw sourceFilePath) inferCostRaw in
  let objs := allocate next inferCost (objects s) in
  let sorted :=
    sortBy (fun r => lnum (loc (objs r))) (seq next (List.length inferCost)) in
  {| fileName := fileName s; savedDocumentTexts := savedDocumentTexts s;
     currentInferCost := sorted;
     inferCosts := JsMap.set sourceFileName sorted (inferCosts s);
     inferCostHistories := inferCostHistories s; objects := objs;
     nonConstantMethods := nonConstantMethods s;
     methodWhitelist := methodWhitelist s; fired := fired s |}.

(** [executeInfer] of that revision, from the parsed report on: the cost
    list is read and the histories are updated.  Decorations and code
    lenses are outside. *)
Definition executeInfer (currentTime : string) (next : ref) (inferCostRaw : list RawItem)
    (s : State) : State :=
  SingleFile.updateInferCostHistory currentTime
    (runInferOnCurrentFile next inferCostRaw s).

(* ================================================================== *)
(** * Further notions and inputs *)

(** A text of white space only, as [trim] removes it. *)
Definition blank (s : string) : bool := forallb Js.isSpace (list_ascii_of_string s).

(** The states differ in the cost list at most: the second one walks one
    entry more, after those of the first. *)
Definition oneMoreEntry (walked : State -> list ref) (s1 s2 : State) (r : ref) : Prop :=
  objects s2 = objects s1
  /\ inferCostHistories s2 = inferCostHistories s1
  /\ walked s2 = (walked s1 ++ [r])%list.

(** The history of the entry's id is empty or headed by an entry with
    another execution polynomial. *)
Definition costChanged (objs : store) (hists : histories) (r : ref) : Prop :=
  historyOf (id (objs r)) hists = []
  \/ exists head rest,
       historyOf (id (objs r)) hists = head :: rest
       /\ execPolynomial objs head <> execPolynomial objs r.

(** The history of the entry's id is headed by an entry with the same
    execution polynomial. *)
Definition costUnchanged (objs : store) (hists : histories) (r : ref) : Prop :=
  exists head rest,
    historyOf (id (objs r)) hists = head :: rest
    /\ execPolynomial objs head = execPolynomial objs r.

(** What the claim says of an entry [r] processed in the state [before],
    which gives the state [after]: with a changed cost the entry is put at
    index 0 of the history of its id and stamped with the current time,
    nothing else being touched; with an unchanged cost nothing changes. *)
Definition costRecorded (currentTime : string) (before after : State) (r : ref) : Prop :=
  (costChanged (objects before) (inferCostHistories before) r ->
   historyOf (id (objects before r)) (inferCostHistories after)
   = r :: historyOf (id (objects before r)) (inferCostHistories before)
   /\ timestamp (objects after r) = Some currentTime
   /\ objects after = write r (setTimestamp currentTime) (objects before)
   /\ forall k, k <> id (objects before r) ->
        historyOf k (inferCostHistories after) = historyOf k (inferCostHistories before))
  /\ (costUnchanged (objects before) (inferCostHistories before) r ->
      inferCostHistories after = inferCostHistories before
      /\ objects after = objects before).

(** A file with two overloads of [foo], analysed again and again with no
    change of the source. *)
Module Overloads.

Definition rawCost (p : string) (d : Z) (o : string) : RawCost :=
  {| hum_polynomial := p; hum_degree := d; hum_big_o := o |}.

(** The parsed [costs-report.json]: [foo(int)] at line 3, linear, and
    [foo(String)] at line 7, quadratic. *)
Definition report : list RawItem :=
  [ {| procedure_id := "A.foo(int):void.5a1e";
       procedure_name := "foo";
       raw_loc := {| file := "A.java"; lnum := 3 |};
       raw_alloc_cost := rawCost "1" 0 "O(1)";
       raw_exec_cost := rawCost "n" 1 "O(n)" |};
    {| procedure_id := "A.foo(java.lang.String):void.77c3";
       procedure_name := "foo";
       raw_loc := {| file := "A.java"; lnum := 7 |};
       raw_alloc_cost := rawCost "1" 0 "O(1)";
       raw_exec_cost := rawCost "n.n" 2 "O(n^2)" |} ].

(** The extension has just been enabled on [/w/A.java]. *)
Definition enabled : State :=
  {| fileName := "/w/A.java"; savedDocumentTexts := [];
     currentInferCost := []; inferCosts := []; inferCostHistories := [];
     objects := Sample.heap; nonConstantMethods := []; methodWhitelist := [];
     fired := 0 |}.

(** The state after [n] runs on the same report, each with two new
    objects. *)
Fixpoint afterRuns (n : nat) : State :=
  match n with
  | 0 => enabled
  | S k => executeInfer "11/1/2026, 10:00:00" (10 + 2 * k) report (afterRuns k)
  end.

End Overloads.

(** Texts on which the extractor throws: scenario A with a parameter
    [finalRound] of type [Semifinal] in place of [int x], and a method
    that starts a thread, a statement that reads like a declaration to
    [methodDeclarationRegex]. *)
Module Unextractable.

Definition fooBefore : string := "void foo(Semifinal finalRound) { bar(); }".
Definition fooAfter : string := "void foo(Semifinal finalRound) { bar(); baz(); }".
Definition fooDiff : list LineDiff := Sample.oneLine fooBefore fooAfter.

(** A call of [baz] is added after the start of the thread. *)
Definition threadBefore : string :=
  ("void foo(int x) {" ++ Sample.NL
   ++ "  new Thread(finalTask).start();" ++ Sample.NL
   ++ "}" ++ Sample.NL)%string.
Definition threadAfter : string :=
  ("void foo(int x) {" ++ Sample.NL
   ++ "  new Thread(finalTask).start();" ++ Sample.NL
   ++ "  baz();" ++ Sample.NL
   ++ "}" ++ Sample.NL)%string.
Definition threadDiff : list LineDiff :=
  [ Sample.commonPart
      ("void foo(int x) {" ++ Sample.NL
       ++ "  new Thread(finalTask).start();" ++ Sample.NL)%string;
    Sample.addedPart ("  baz();" ++ Sample.NL)%string;
    Sample.commonPart ("}" ++ Sample.NL)%string ].

(** A diff provider that knows the two texts of the thread example and
    takes any other texts for one line each. *)
Definition diffLines (previous saved : string) : list LineDiff :=
  if String.eqb previous threadBefore && String.eqb saved threadAfter
  then threadDiff
  else Sample.oneLine previous saved.

(** Object 0 is the entry of [foo(Semifinal)] in the current cost list,
    object 1 the entry recorded for it by an earlier run; both carry the
    attribution [["old()"]] of an earlier check. *)
Definition heap : store :=
  fun r => match r with
           | 0 => Sample.entry "A.foo(Semifinal)" "foo" ["Semifinal"] "n" (Some ["old()"])
           | 1 => Sample.entry "A.foo(Semifinal)" "foo" ["Semifinal"] "n" (Some ["old()"])
           | _ => Sample.entry "A.other()" "other" [] "1" None
           end.

(** The file was analysed when it read [fooBefore]. *)
Definition analysed : State :=
  {| fileName := "A.java";
     savedDocumentTexts := [("A.java", fooBefore)];
     currentInferCost := [0];
     inferCosts := [("A.java", [0])];
     inferCostHistories := [("A.foo(Semifinal)", [1])];
     objects := heap;
     nonConstantMethods := ["baz"; "other"];
     methodWhitelist := [];
     fired := 0 |}.

(** The file of the thread example was analysed when it read
    [threadBefore]; the objects are those of [Sample.heap], with the
    attribution [["old()"]] on the entry of [foo(int)] and on the head of
    its history. *)
Definition threaded : State := Sample.session [("A.java", threadBefore)] [].

End Unextractable.

(* ================================================================== *)
(** * Properties *)

(** ** The matcher *)

Lemma moved_refl (p : pos) : moved p p [].
Proof. split; reflexivity. Qed.

Lemma moved_trans (p q r : pos) (c1 c2 : list ascii) :
  moved p q c1 -> moved q r c2 -> moved p r (c1 ++ c2).
Proof.
  intros [A1 B1] [A2 B2]. split.
  - rewrite A1, A2, app_assoc. reflexivity.
  - rewrite B2, B1, rev_app_distr, app_assoc. reflexivity.
Qed.

Lemma moved_length (p q : pos) (consumed : list ascii) :
  moved p q consumed ->
  List.length (after p) = List.length consumed + List.length (after q).
Proof. intros [A _]. rewrite A, length_app. reflexivity. Qed.

(** A repetition whose step moves right moves right. *)
Lemma iterate_moves
    (step : pos -> caps -> (pos -> caps -> option (pos * caps)) -> option (pos * caps))
    (greedy : bool) (k : pos -> caps -> option (pos * caps)) :
  (forall p c k' res, step p c k' = Some res ->
     exists q c' consumed, k' q c' = Some res /\ moved p q consumed) ->
  forall (fuel : nat) (p : pos) (c : caps) (res : pos * caps),
  iterate step greedy k fuel p c = Some res ->
  exists q c' consumed, k q c' = Some res /\ moved p q consumed.
Proof.
  intros Hstep. induction fuel as [|fuel IH]; intros p c res H; cbn [iterate] in H.
  - exists p, c, []. split; [exact H | apply moved_refl].
  - cbv zeta in H.
    assert (Stop : forall res', k p c = Some res' ->
              exists q c' consumed, k q c' = Some res' /\ moved p q consumed).
    { intros res' E. exists p, c, []. split; [exact E | apply moved_refl]. }
    assert (More : forall res',
              step p c (fun p' c' =>
                if Nat.ltb (List.length (after p')) (List.length (after p))
                then iterate step greedy k fuel p' c' else None) = Some res' ->
              exists q c' consumed, k q c' = Some res' /\ moved p q consumed).
    { intros res' E. apply Hstep in E. destruct E as (q1 & c1 & l1 & E & M1).
      destruct (Nat.ltb _ _); [|discriminate].
      apply IH in E. destruct E as (q2 & c2 & l2 & E & M2).
      exists q2, c2, (l1 ++ l2). split; [exact E | exact (moved_trans M1 M2)]. }
    unfold orelse in H. destruct greedy.
    + destruct (step p c _) as [res1|] eqn:E1.
      * injection H as <-. exact (More res1 eq_refl).
      * apply Stop, H.
    + destruct (k p c) as [res1|] eqn:E1.
      * injection H as <-. exact (Stop res1 eq_refl).
      * apply More, H.
Qed.

(** A successful run hands to its continuation a position further right in
    the same subject, strictly so for a consuming expression. *)
Lemma run_moves (r : regex) :
  forall (p : pos) (c : caps) (k : pos -> caps -> option (pos * caps)) (res : pos * caps),
  run r p c k = Some res ->
  exists q c' consumed,
    k q c' = Some res /\ moved p q consumed
    /\ (consuming r = true -> consumed <> []).
Proof.
  induction r as [f | | r1 IH1 r2 IH2 | r1 IH1 r2 IH2 | greedy r1 IH1 | n r1 IH1 | | r1 IH1];
    intros p c k res H; cbn [run] in H.
  - destruct p as [bef aft]. cbn [after before] in H.
    destruct aft as [|a rest]; [discriminate|].
    destruct (f a); [|discriminate].
    eexists _, c, [a]. split; [exact H|]. split; [split; reflexivity | discriminate].
  - exists p, c, []. split; [exact H|]. split; [apply moved_refl | discriminate].
  - apply IH1 in H. destruct H as (q1 & c1 & l1 & H & M1 & N1).
    apply IH2 in H. destruct H as (q2 & c2 & l2 & H & M2 & N2).
    exists q2, c2, (l1 ++ l2). split; [exact H|].
    split; [exact (moved_trans M1 M2)|].
    cbn [consuming]. intros C. apply orb_true_iff in C. intros E.
    apply app_eq_nil in E. destruct E as [E1 E2].
    destruct C as [C|C]; [exact (N1 C E1) | exact (N2 C E2)].
  - unfold orelse in H. destruct (run r1 p c k) as [res1|] eqn:E1.
    + injection H as <-. apply IH1 in E1. destruct E1 as (q & c' & l & Hk & M & N).
      exists q, c', l. split; [exact Hk|]. split; [exact M|].
      cbn [consuming]. intros C. apply andb_true_iff in C. apply N, C.
    + apply IH2 in H. destruct H as (q & c' & l & Hk & M & N).
      exists q, c', l. split; [exact Hk|]. split; [exact M|].
      cbn [consuming]. intros C. apply andb_true_iff in C. apply N, C.
  - apply iterate_moves in H.
    + destruct H as (q & c' & l & H & M). exists q, c', l.
      split; [exact H|]. split; [exact M | discriminate].
    + intros p0 c0 k' res' E. apply IH1 in E.
      destruct E as (q & c' & l & E & M & _). exists q, c', l. auto.
  - apply IH1 in H. destruct H as (q & c' & l & H & M & N).
    eexists q, _, l. split; [exact H|]. split; [exact M | exact N].
  - exists p, c, []. split; [|split; [apply moved_refl | discriminate]].
    destruct (before p) as [|a bef]; [exact H|].
    destruct (isLineTerminator a); [exact H | discriminate].
  - exists p, c, []. split; [|split; [apply moved_refl | discriminate]].
    destruct (existsb _ _); [discriminate | exact H].
Qed.

(** The matcher does not depend on more of its continuation than the
    results it gives. *)
Lemma iterate_ext
    (step : pos -> caps -> (pos -> caps -> option (pos * caps)) -> option (pos * caps))
    (greedy : bool) (k1 k2 : pos -> caps -> option (pos * caps)) :
  (forall p c k k', (forall q c', k q c' = k' q c') -> step p c k = step p c k') ->
  (forall q c', k1 q c' = k2 q c') ->
  forall fuel p c, iterate step greedy k1 fuel p c = iterate step greedy k2 fuel p c.
Proof.
  intros Hstep Hk. induction fuel as [|fuel IH]; intros p c; cbn [iterate].
  - apply Hk.
  - cbv zeta. rewrite (Hk p c).
    rewrite (Hstep p c _
               (fun p' c' =>
                  if Nat.ltb (List.length (after p')) (List.length (after p))
                  then iterate step greedy k2 fuel p' c' else None)).
    + reflexivity.
    + intros q c'. destruct (Nat.ltb _ _); [apply IH | reflexivity].
Qed.

Lemma run_ext (r : regex) :
  forall p c (k k' : pos -> caps -> option (pos * caps)),
  (forall q c', k q c' = k' q c') -> run r p c k = run r p c k'.
Proof.
  induction r as [f | | r1 IH1 r2 IH2 | r1 IH1 r2 IH2 | greedy r1 IH1 | n r1 IH1 | | r1 IH1];
    intros p c k k' H; cbn [run].
  - destruct (after p) as [|a rest]; [reflexivity|]. destruct (f a); [apply H | reflexivity].
  - apply H.
  - apply IH1. intros q c'. apply IH2, H.
  - rewrite (IH1 p c k k' H), (IH2 p c k k' H). reflexivity.
  - apply iterate_ext; [exact IH1 | exact H].
  - apply IH1. intros q c'. apply H.
  - destruct (before p) as [|a bef]; [apply H|].
    destruct (isLineTerminator a); [apply H | reflexivity].
  - destruct (existsb _ _); [reflexivity | apply H].
Qed.

(** Fuel beyond the number of characters ahead is never used: the
    repetition and the scan give the same result with any larger amount. *)
Lemma iterate_fuel
    (step : pos -> caps -> (pos -> caps -> option (pos * caps)) -> option (pos * caps))
    (greedy : bool) (k : pos -> caps -> option (pos * caps)) :
  (forall p c k k', (forall q c', k q c' = k' q c') -> step p c k = step p c k') ->
  forall fuel fuel' p c,
  List.length (after p) < fuel -> List.length (after p) < fuel' ->
  iterate step greedy k fuel p c = iterate step greedy k fuel' p c.
Proof.
  intros Hstep. induction fuel as [|fuel IH]; intros fuel' p c H H'; [lia|].
  destruct fuel' as [|fuel']; [lia|]. cbn [iterate]. cbv zeta.
  rewrite (Hstep p c _
             (fun p' c' =>
                if Nat.ltb (List.length (after p')) (List.length (after p))
                then iterate step greedy k fuel' p' c' else None)).
  - reflexivity.
  - intros q c'. destruct (Nat.ltb _ _) eqn:L; [|reflexivity].
    apply Nat.ltb_lt in L. apply IH; lia.
Qed.

Lemma star_fuel (greedy : bool) (r : regex) (p : pos) (c : caps)
    (k : pos -> caps -> option (pos * caps)) (fuel : nat) :
  List.length (after p) < fuel ->
  iterate (run r) greedy k fuel p c = run (Star greedy r) p c k.
Proof.
  intros H. cbn [run]. apply iterate_fuel; [apply run_ext | exact H | lia].
Qed.

Lemma scan_fuel (r : regex) :
  forall fuel fuel' p,
  List.length (after p) < fuel -> List.length (after p) < fuel' ->
  scan r fuel p = scan r fuel' p.
Proof.
  induction fuel as [|fuel IH]; intros fuel' p H H'; [lia|].
  destruct fuel' as [|fuel']; [lia|]. cbn [scan].
  destruct (matchAt r p) as [[q c]|] eqn:M.
  - unfold matchAt in M. apply run_moves in M.
    destruct M as (q' & c' & l & E & Mv & _). injection E as -> ->.
    pose proof (moved_length Mv) as Hl.
    destruct (Nat.ltb _ _) eqn:L.
    + apply Nat.ltb_lt in L. f_equal. apply IH; lia.
    + f_equal. unfold advance. destruct (after q) as [|a rest] eqn:A; [reflexivity|].
      apply IH; cbn [after]; simpl in Hl; lia.
  - unfold advance. destruct (after p) as [|a rest] eqn:A; [reflexivity|].
    apply IH; cbn [after]; simpl in H, H'; lia.
Qed.

Lemma length_list_ascii (s : string) :
  List.length (list_ascii_of_string s) = String.length s.
Proof. induction s as [|a s IH]; simpl; [|rewrite IH]; reflexivity. Qed.

Lemma matchAll_fuel (r : regex) (s : string) (fuel : nat) :
  String.length s < fuel -> scan r fuel (start s) = matchAll r s.
Proof.
  intros H. unfold matchAll. apply scan_fuel; cbn [start after];
    rewrite length_list_ascii; lia.
Qed.

(** The text reported for a match is the text the matcher went over. *)
Lemma between_moved (p q : pos) (consumed : list ascii) :
  moved p q consumed -> between p q = string_of_list_ascii consumed.
Proof.
  intros [_ B]. unfold between. rewrite B, length_app, length_rev.
  replace (List.length consumed + List.length (before p) - List.length (before p))
    with (List.length (rev consumed) + 0) by (rewrite length_rev; lia).
  rewrite firstn_app_2. cbn [firstn]. rewrite app_nil_r, rev_involutive. reflexivity.
Qed.

(** A match of a consuming expression ends to the right of its start. *)
Lemma matchAt_consumes (r : regex) (p q : pos) (c : caps) :
  consuming r = true ->
  matchAt r p = Some (q, c) ->
  List.length (after q) < List.length (after p) /\ between p q <> "".
Proof.
  intros C H. unfold matchAt in H. apply run_moves in H.
  destruct H as (q' & c' & l & E & M & N). injection E as -> ->.
  specialize (N C). split.
  - rewrite (moved_length M). destruct l; [congruence | simpl; lia].
  - rewrite (between_moved M). destruct l; [congruence | discriminate].
Qed.

(** The expressions of the source are consuming: their matches are never
    empty, and the scan always resumes where the match ended. *)
Lemma source_patterns_consuming :
  consuming methodDeclarationRegex = true
  /\ consuming significantCodeChangeRegex = true
  /\ consuming classRegex = true.
Proof. repeat split; reflexivity. Qed.

(** ** JavaScript maps and arrays *)

Lemma get_set (V : Type) (k k' : string) (v : V) (m : JsMap.t V) :
  JsMap.get k (JsMap.set k' v m) = if String.eqb k' k then Some v else JsMap.get k m.
Proof.
  induction m as [|[k0 v0] m IH]; simpl.
  - reflexivity.
  - destruct (String.eqb k0 k') eqn:E0; simpl.
    + apply String.eqb_eq in E0. subst k0.
      destruct (String.eqb k' k); reflexivity.
    + rewrite IH. destruct (String.eqb k' k) eqn:E1; [|reflexivity].
      apply String.eqb_eq in E1. subst k'. rewrite E0. reflexivity.
Qed.

Lemma set_same (V : Type) (k : string) (v : V) (m : JsMap.t V) :
  JsMap.get k m = Some v -> JsMap.set k v m = m.
Proof.
  induction m as [|[k0 v0] m IH]; simpl; [discriminate|].
  destruct (String.eqb k0 k) eqn:E0.
  - apply String.eqb_eq in E0. intros [= ->]. subst. reflexivity.
  - intros H. rewrite (IH H). reflexivity.
Qed.

Lemma includes_In (l : list string) (x : string) :
  Js.includes l x = true <-> In x l.
Proof.
  unfold Js.includes. rewrite existsb_exists. split.
  - intros [y [Hy E]]. apply String.eqb_eq in E. subst. exact Hy.
  - intros H. exists x. split; [exact H | apply String.eqb_refl].
Qed.

Lemma includes_not_In (l : list string) (x : string) :
  Js.includes l x = false <-> ~ In x l.
Proof.
  rewrite <- includes_In. destruct (Js.includes l x); split; congruence.
Qed.

(** ** The declaration extractor *)

Lemma append_nil_r (s : string) : (s ++ "")%string = s.
Proof. induction s as [|a s IH]; simpl; [|rewrite IH]; reflexivity. Qed.

Lemma append_assoc (s1 s2 s3 : string) :
  ((s1 ++ s2) ++ s3)%string = (s1 ++ (s2 ++ s3))%string.
Proof. induction s1 as [|a s1 IH]; simpl; [|rewrite IH]; reflexivity. Qed.

Lemma rev_string_acc (s acc : string) :
  Js.rev_string acc s = (Js.rev_string "" s ++ acc)%string.
Proof.
  revert acc. induction s as [|a s IH]; intros acc; simpl.
  - reflexivity.
  - rewrite (IH (String a acc)), (IH (String a "")), append_assoc. reflexivity.
Qed.

Lemma prefix_char (c a : ascii) (s : string) :
  String.prefix (String c "") (String a s) = if ascii_dec c a then true else false.
Proof.
  simpl. destruct (ascii_dec c a); [|reflexivity]. destruct s; reflexivity.
Qed.

Lemma search_char_cons (c a : ascii) (s : string) :
  Js.search (String c "") (String a s) = None ->
  c <> a /\ Js.search (String c "") s = None.
Proof.
  cbn [Js.search]. rewrite prefix_char.
  destruct (ascii_dec c a); [discriminate|].
  destruct (Js.search (String c "") s); [discriminate|]. auto.
Qed.

(** Splitting at a one-character separator: the text before its first
    occurrence is the first piece. *)
Lemma split_go_before (c : ascii) (pre rest acc : string) :
  Js.search (String c "") pre = None ->
  Js.split_go (String c "") 0 acc (pre ++ String c rest)
  = Js.rev_string "" (Js.rev_string acc pre) :: Js.split_go (String c "") 0 "" rest.
Proof.
  revert acc. induction pre as [|a pre IH]; intros acc H.
  - cbn [append Js.split_go]. rewrite prefix_char.
    destruct (ascii_dec c c); [reflexivity | congruence].
  - apply search_char_cons in H. destruct H as [Hne H].
    change (String a pre ++ String c rest)%string with (String a (pre ++ String c rest)).
    cbn [Js.split_go]. rewrite prefix_char.
    destruct (ascii_dec c a); [congruence|]. rewrite IH by exact H. reflexivity.
Qed.

(** The first piece starts with what was accumulated. *)
Lemma split_go_first (c : ascii) (s acc : string) :
  exists piece rest,
    Js.split_go (String c "") 0 acc s = (Js.rev_string "" acc ++ piece)%string :: rest.
Proof.
  revert acc. induction s as [|a s IH]; intros acc.
  - exists "", []. cbn [Js.split_go]. rewrite append_nil_r. reflexivity.
  - cbn [Js.split_go]. rewrite prefix_char. destruct (ascii_dec c a).
    + exists "". eexists. rewrite append_nil_r. reflexivity.
    + destruct (IH (String a acc)) as (piece & rest & E). rewrite E.
      exists (String a piece), rest. f_equal.
      cbn [Js.rev_string]. rewrite (rev_string_acc acc (String a "")), append_assoc.
      reflexivity.
Qed.

(** The name the classifier reads off an occurrence. *)
Lemma rev_string_app (s t : string) :
  Js.rev_string "" (s ++ t) = (Js.rev_string "" t ++ Js.rev_string "" s)%string.
Proof.
  induction s as [|a s IH].
  - simpl. rewrite append_nil_r. reflexivity.
  - cbn [append Js.rev_string].
    rewrite (rev_string_acc (s ++ t)), (rev_string_acc s), IH, append_assoc. reflexivity.
Qed.

Lemma rev_string_involutive (s : string) :
  Js.rev_string "" (Js.rev_string "" s) = s.
Proof.
  induction s as [|a s IH]; [reflexivity|].
  cbn [Js.rev_string]. rewrite (rev_string_acc s (String a "")), rev_string_app, IH.
  reflexivity.
Qed.

Lemma rev_spaces (n : nat) : Js.rev_string "" (spaces n) = spaces n.
Proof.
  induction n as [|n IH]; [reflexivity|].
  cbn [spaces Js.rev_string]. rewrite (rev_string_acc (spaces n) (String " " "")), IH.
  clear IH. induction n as [|n IH]; [reflexivity|].
  cbn [spaces append]. rewrite IH. reflexivity.
Qed.

Lemma plain_app (s t : string) : plain (s ++ t) = plain s && plain t.
Proof.
  induction s as [|a s IH]; [reflexivity|].
  cbn [append plain]. rewrite IH, andb_assoc. reflexivity.
Qed.

Lemma plain_rev (s : string) : plain s = true -> plain (Js.rev_string "" s) = true.
Proof.
  induction s as [|a s IH]; [reflexivity|].
  cbn [plain Js.rev_string]. intros H. apply andb_true_iff in H. destruct H as [Ha Hs].
  rewrite (rev_string_acc s (String a "")), plain_app, (IH Hs).
  cbn [plain]. rewrite Ha. reflexivity.
Qed.

Lemma trimStart_plain (s : string) : plain s = true -> Js.trimStart s = s.
Proof.
  destruct s as [|a s]; [reflexivity|].
  cbn [plain Js.trimStart]. intros H.
  apply andb_true_iff in H. destruct H as [H _].
  apply andb_true_iff in H. destruct H as [H _].
  apply negb_true_iff in H. rewrite H. reflexivity.
Qed.

Lemma trimStart_spaces (n : nat) (s : string) :
  Js.trimStart (spaces n ++ s) = Js.trimStart s.
Proof. induction n as [|n IH]; [reflexivity | exact IH]. Qed.

Lemma trim_plain_spaces (name : string) (n : nat) :
  plain name = true -> Js.trim (name ++ spaces n) = name.
Proof.
  intros H. unfold Js.trim.
  assert (E : Js.rev_string "" (Js.trimStart (name ++ spaces n))
              = (spaces n ++ Js.rev_string "" name)%string
              \/ (name = "" /\ Js.trimStart (name ++ spaces n) = "")).
  { destruct name as [|a name].
    - right. split; [reflexivity|].
      cbn [append]. rewrite <- (append_nil_r (spaces n)), trimStart_spaces. reflexivity.
    - left. cbn [append plain Js.trimStart] in *.
      apply andb_true_iff in H. destruct H as [Ha _].
      apply andb_true_iff in Ha. destruct Ha as [Ha _]. apply negb_true_iff in Ha.
      rewrite Ha.
      change (String a (name ++ spaces n)) with (String a name ++ spaces n)%string.
      rewrite rev_string_app, rev_spaces. reflexivity. }
  destruct E as [-> | [-> ->]]; [|reflexivity].
  rewrite trimStart_spaces, (trimStart_plain _ (plain_rev _ H)).
  apply rev_string_involutive.
Qed.

Lemma search_paren_spaces (n : nat) : Js.search "(" (spaces n) = None.
Proof.
  induction n as [|n IH]; [reflexivity|].
  cbn [spaces Js.search]. rewrite prefix_char, IH.
  destruct (ascii_dec "(" " ") as [e|_]; [discriminate e | reflexivity].
Qed.

Lemma search_paren_plain (name : string) (n : nat) :
  plain name = true -> Js.search "(" (name ++ spaces n) = None.
Proof.
  induction name as [|a name IH]; intros H.
  - apply search_paren_spaces.
  - cbn [plain] in H. apply andb_true_iff in H. destruct H as [Ha Hn].
    apply andb_true_iff in Ha. destruct Ha as [_ Ha]. apply negb_true_iff in Ha.
    cbn [append Js.search]. rewrite prefix_char, (IH Hn).
    destruct (ascii_dec "(" a) as [<-|_]; [discriminate Ha | reflexivity].
Qed.

Lemma methodNameOf_header (name : string) (n : nat) (rest : string) :
  plain name = true -> methodNameOf (header name n rest) = name.
Proof.
  intros H. unfold methodNameOf, header, Js.split.
  rewrite <- append_assoc, split_go_before by (apply search_paren_plain, H).
  cbn [hd]. rewrite rev_string_involutive. apply trim_plain_spaces, H.
Qed.

(** C8. At a parameter whose type name contains a modifier keyword the
    extractor does not take the declared type: [Semifinal] is passed over
    as if it were the modifier [final] and the parameter name [s] is
    returned, where the description gives [Semifinal].  With the modifier
    proper, a bound to substitute, a generic suffix and a varargs marker
    the extractor returns what the description gives. *)
Theorem modifier_inside_type_name :
  getParameterTypesFromMethodDeclaration "void f(Semifinal s)" [] = Ok ["s"]
  /\ specParameterTypes "Semifinal s" [] = ["Semifinal"]
  /\ getParameterTypesFromMethodDeclaration "void f(final Semi s)" [] = Ok ["Semi"]
  /\ getParameterTypesFromMethodDeclaration
       "void put(final A item, List<A> all, A[] row, int... rest)"
       (getGenericTypeExtensions "public class Box<A extends B> {")
     = Ok ["B"; "List"; "B[]"; "int[]"]
  /\ specParameterTypes "final A item, List<A> all, A[] row, int... rest"
       (getGenericTypeExtensions "public class Box<A extends B> {")
     = ["B"; "List"; "B[]"; "int[]"].
Proof.
  repeat split; vm_compute; reflexivity.
Qed.

(** ** Registry maintenance *)

Lemma forget_cons (y : string) (l : list string) (name : string) :
  forget (y :: l) name = if String.eqb y name then l else y :: forget l name.
Proof.
  unfold forget. simpl. destruct (String.eqb y name); [reflexivity|].
  destruct (Js.indexOf l name); reflexivity.
Qed.

Lemma forget_keeps (names : list string) (name : string) (registry : list string) :
  Js.includes names name = true ->
  filter (unnamed names) (forget registry name) = filter (unnamed names) registry.
Proof.
  intros Hn. induction registry as [|y l IH].
  - reflexivity.
  - rewrite forget_cons. destruct (String.eqb y name) eqn:E.
    + apply String.eqb_eq in E. subst y. simpl.
      unfold unnamed at 2. rewrite Hn. reflexivity.
    + simpl. rewrite IH. reflexivity.
Qed.

Lemma forget_incl (registry : list string) (name : string) :
  incl (forget registry name) registry.
Proof.
  induction registry as [|y l IH].
  - unfold forget. simpl. apply incl_refl.
  - rewrite forget_cons. destruct (String.eqb y name).
    + apply incl_tl, incl_refl.
    + intros z [->|Hz]; [left; reflexivity | right; apply IH, Hz].
Qed.

Lemma forget_all_keeps (names done : list string) (registry : list string) :
  incl done names ->
  filter (unnamed names) (fold_left forget done registry)
  = filter (unnamed names) registry.
Proof.
  revert registry. induction done as [|n done IH]; intros registry Hincl.
  - reflexivity.
  - simpl. rewrite IH by (intros z Hz; apply Hincl; right; exact Hz).
    apply forget_keeps. apply includes_In, Hincl. left. reflexivity.
Qed.

Lemma forget_all_incl (done : list string) (registry : list string) :
  incl (fold_left forget done registry) registry.
Proof.
  revert registry. induction done as [|n done IH]; intros registry.
  - apply incl_refl.
  - simpl. eapply incl_tran; [apply IH | apply forget_incl].
Qed.

Lemma forget_count (registry : list string) (name other : string) :
  count_occ string_dec (forget registry name) other
  = if string_dec other name
    then pred (count_occ string_dec registry other)
    else count_occ string_dec registry other.
Proof.
  induction registry as [|y l IH].
  - unfold forget. simpl. destruct (string_dec other name); reflexivity.
  - rewrite forget_cons. destruct (String.eqb y name) eqn:E.
    + apply String.eqb_eq in E. subst y. destruct (string_dec other name) as [->|Hne].
      * rewrite count_occ_cons_eq by reflexivity. reflexivity.
      * rewrite count_occ_cons_neq by congruence. reflexivity.
    + apply String.eqb_neq in E. destruct (string_dec y other) as [->|Hne].
      * rewrite !count_occ_cons_eq by reflexivity. rewrite IH.
        destruct (string_dec other name); [congruence | reflexivity].
      * rewrite !count_occ_cons_neq by exact Hne. exact IH.
Qed.

Lemma forget_all_count (names : list string) (other : string) :
  forall registry,
  count_occ string_dec (fold_left forget names registry) other
  = count_occ string_dec registry other - count_occ string_dec names other.
Proof.
  induction names as [|n names IH]; intros registry.
  - simpl. lia.
  - cbn [fold_left]. rewrite IH, forget_count.
    destruct (string_dec other n) as [->|Hne].
    + rewrite count_occ_cons_eq by reflexivity. lia.
    + rewrite count_occ_cons_neq by congruence. reflexivity.
Qed.

(** C9. [resetNonConstantMethods] leaves the registry empty.
    [resetNonConstantMethodsForFile] only takes names away, one occurrence
    of a name for each entry of the current cost list that carries it, and
    the names that no entry carries are kept as they were: filtering the
    registry down to those names gives the same list before and after. *)
Theorem registry_reset_frame (s : State) :
  nonConstantMethods (resetNonConstantMethods s) = []
  /\ filter (unnamed (costNames s)) (nonConstantMethods (resetNonConstantMethodsForFile s))
     = filter (unnamed (costNames s)) (nonConstantMethods s)
  /\ incl (nonConstantMethods (resetNonConstantMethodsForFile s)) (nonConstantMethods s)
  /\ forall name,
       count_occ string_dec (nonConstantMethods (resetNonConstantMethodsForFile s)) name
       = count_occ string_dec (nonConstantMethods s) name
         - count_occ string_dec (costNames s) name.
Proof.
  split; [reflexivity|]. split; [|split].
  - apply forget_all_keeps, incl_refl.
  - apply forget_all_incl.
  - intros name. apply forget_all_count.
Qed.

(** The registry of the example holds [baz] and [other]; the cost list
    names [foo] only, and both names are still there after the reset for
    the file. *)
Lemma registry_reset_example :
  nonConstantMethods (resetNonConstantMethodsForFile Sample.analysed) = ["baz"; "other"]
  /\ nonConstantMethods
       (resetNonConstantMethodsForFile
          (withNonConstantMethods ["baz"; "foo"; "other"] Sample.analysed))
     = ["baz"; "other"].
Proof. split; reflexivity. Qed.

(** ** The attribution loop returns *)

Lemma attribute_nonEmpty (causes : causeMap) (objs : store) (hists : histories) (r : ref) :
  historiesNonEmpty hists ->
  exists objs' hists',
    attribute causes (objs, hists) r = Ok (objs', hists') /\ historiesNonEmpty hists'.
Proof.
  intros Hne. unfold attribute.
  destruct (JsMap.get _ hists) as [h|] eqn:G.
  - destruct h as [|head rest].
    + exfalso. exact (Hne _ _ G eq_refl).
    + eexists _, _. split; [reflexivity|].
      intros k h. rewrite get_set.
      destruct (String.eqb _ k); [intros [= <-]; discriminate | apply Hne].
  - eexists _, _. split; [reflexivity | exact Hne].
Qed.

Lemma attribute_all_nonEmpty (causes : causeMap) (costs : list ref)
    (objs : store) (hists : histories) :
  historiesNonEmpty hists ->
  exists st, foldM (attribute causes) costs (objs, hists) = Ok st.
Proof.
  revert objs hists. induction costs as [|r costs IH]; intros objs hists Hne.
  - eexists. reflexivity.
  - cbn [foldM]. destruct (attribute_nonEmpty causes objs r Hne) as (objs' & hists' & E & Hne').
    rewrite E. cbn [bind]. apply IH, Hne'.
Qed.

(** A call that finds a snapshot and no empty history array returns the
    flag of its classification. *)
Lemma check_reports (diffLines : string -> string -> list LineDiff) (s : State)
    (previous savedText : string) (causes : causeMap) (b : bool) :
  previousText s = Some previous ->
  previous <> "" ->
  classification diffLines s previous savedText = Ok (causes, b) ->
  historiesNonEmpty (inferCostHistories s) ->
  exists s', significantCodeChangeCheck diffLines s savedText = Ok (b, s')
             /\ fired s' = S (fired s).
Proof.
  intros Hprev Hne Hcls Hhist. unfold significantCodeChangeCheck.
  unfold previousText in Hprev. rewrite Hprev.
  destruct previous as [|a previous]; [congruence|].
  rewrite Hcls. cbn [bind fst snd].
  destruct (attribute_all_nonEmpty causes (currentInferCost s) (objects s) Hhist)
    as [st E].
  rewrite E. cbn [bind]. eexists. split; reflexivity.
Qed.

(** ** The classifier *)

Section ClassifierFacts.

Variable typeExtensions : JsMap.t string.
Variables methodWhitelist nonConstantMethods : list string.

Lemma recorded_set (containingMethod : string) (causeMethods : list string)
    (causes : causeMap) (occ : string) :
  recorded occ (JsMap.set containingMethod causeMethods causes)
  <-> In occ causeMethods
      \/ exists k l, k <> containingMethod /\ JsMap.get k causes = Some l /\ In occ l.
Proof.
  unfold recorded. split.
  - intros (k & l & G & Hin). rewrite get_set in G.
    destruct (String.eqb containingMethod k) eqn:E.
    + injection G as <-. left. exact Hin.
    + right. exists k, l. apply String.eqb_neq in E. auto.
  - intros [Hin | (k & l & Hk & G & Hin)].
    + exists containingMethod, causeMethods. rewrite get_set, String.eqb_refl. auto.
    + exists k, l. rewrite get_set.
      destruct (String.eqb containingMethod k) eqn:E; [|auto].
      apply String.eqb_eq in E. congruence.
Qed.

Lemma recorded_addCause (containingMethod occurrence : string) (causes : causeMap)
    (occ : string) :
  recorded occ (addCause containingMethod occurrence causes)
  <-> occ = occurrence \/ recorded occ causes.
Proof.
  unfold addCause.
  destruct (JsMap.get containingMethod causes) as [causeMethods|] eqn:G.
  - destruct (Js.includes causeMethods occurrence) eqn:I.
    + split; [auto|]. intros [->|H]; [|exact H].
      exists containingMethod, causeMethods. split; [exact G | apply includes_In, I].
    + rewrite recorded_set. split.
      * intros [Hin | (k & l & _ & Gk & Hin)].
        -- apply in_app_or in Hin. destruct Hin as [Hin | [<- | []]]; [right|left; reflexivity].
           exists containingMethod, causeMethods. auto.
        -- right. exists k, l. auto.
      * intros [-> | (k & l & Gk & Hin)].
        -- left. apply in_or_app. right. left. reflexivity.
        -- destruct (String.eqb k containingMethod) eqn:E.
           ++ apply String.eqb_eq in E. subst k. rewrite G in Gk. injection Gk as <-.
              left. apply in_or_app. left. exact Hin.
           ++ apply String.eqb_neq in E. right. exists k, l. auto.
  - rewrite recorded_set. split.
    + intros [[<- | []] | (k & l & _ & Gk & Hin)]; [left; reflexivity|].
      right. exists k, l. auto.
    + intros [-> | (k & l & Gk & Hin)]; [left; left; reflexivity|].
      right. exists k, l. repeat split; auto. intros ->. congruence.
Qed.

Lemma checkOccurrence_tracks (partValue : string) (seen : string -> Prop)
    (containingMethod : string) (acc : causeMap * bool) (occurrence : string)
    (st' : scanState) :
  checkOccurrence typeExtensions methodWhitelist nonConstantMethods partValue
    (containingMethod, fst acc, snd acc) occurrence = Ok st' ->
  tracks methodWhitelist nonConstantMethods seen acc ->
  tracks methodWhitelist nonConstantMethods (fun occ => seen occ \/ occ = occurrence)
    (snd (fst st'), snd st').
Proof.
  unfold checkOccurrence. intros E [Hflag Hrec].
  destruct (lastDeclaration typeExtensions _ containingMethod) as [cm|]; [|discriminate].
  cbn [bind] in E.
  destruct (isCause methodWhitelist nonConstantMethods (methodNameOf occurrence)) eqn:Q;
    injection E as <-; split; cbn [fst snd].
  - split; [|reflexivity]. intros _. exists occurrence. auto.
  - intros occ. rewrite recorded_addCause, Hrec. split.
    + intros [-> | [Hs Hq]]; auto.
    + intros [[Hs | ->] Hq]; auto.
  - rewrite Hflag. split.
    + intros (occ & Hs & Hq). exists occ. auto.
    + intros (occ & [Hs | ->] & Hq); [exists occ; auto | congruence].
  - intros occ. rewrite Hrec. split.
    + intros [Hs Hq]. auto.
    + intros [[Hs | ->] Hq]; [auto | congruence].
Qed.

Lemma checkOccurrences_tracks (partValue : string) (matches : list string) :
  forall (seen : string -> Prop) (containingMethod : string) (acc : causeMap * bool)
         (st' : scanState),
  foldM (checkOccurrence typeExtensions methodWhitelist nonConstantMethods partValue)
    matches (containingMethod, fst acc, snd acc) = Ok st' ->
  tracks methodWhitelist nonConstantMethods seen acc ->
  tracks methodWhitelist nonConstantMethods (fun occ => seen occ \/ In occ matches)
    (snd (fst st'), snd st').
Proof.
  induction matches as [|occurrence matches IH]; intros seen containingMethod acc st' E T.
  - injection E as <-. cbn [fst snd]. destruct acc as [causes flag].
    destruct T as [Hflag Hrec]. split; cbn [fst snd] in *.
    + rewrite Hflag. split; intros (occ & Hs & Hq); exists occ; simpl in *; tauto.
    + intros occ. rewrite Hrec. simpl. tauto.
  - cbn [foldM] in E.
    destruct (checkOccurrence _ _ _ _ _ occurrence) as [[[cm causes] flag]|] eqn:E1;
      [|discriminate].
    cbn [bind] in E.
    pose proof E1 as T1. eapply checkOccurrence_tracks in T1; [|exact T].
    cbn [fst snd] in T1.
    specialize (IH _ cm (causes, flag) st' E T1).
    destruct IH as [Hflag Hrec]. split.
    + rewrite Hflag. split; intros (occ & Hs & Hq); exists occ; simpl; simpl in Hs; intuition.
    + intros occ. rewrite Hrec. simpl. intuition.
Qed.

Lemma checkPart_tracks (earlier : list LineDiff) (part : LineDiff)
    (seen : string -> Prop) (acc acc' : causeMap * bool) :
  checkPart typeExtensions methodWhitelist nonConstantMethods earlier part acc = Ok acc' ->
  tracks methodWhitelist nonConstantMethods seen acc ->
  tracks methodWhitelist nonConstantMethods
    (fun occ => seen occ \/ (isChange part = true /\ In occ (occurrences part))) acc'.
Proof.
  unfold checkPart. intros E T.
  assert (Same : forall acc0, tracks methodWhitelist nonConstantMethods seen acc0 ->
            (isChange part = false \/ occurrences part = []) ->
            tracks methodWhitelist nonConstantMethods
              (fun occ => seen occ \/ (isChange part = true /\ In occ (occurrences part))) acc0).
  { intros acc0 [Hflag Hrec] Hnone. split.
    - rewrite Hflag. split; intros (occ & Hs & Hq); exists occ; split; auto.
      destruct Hs as [Hs | [Hc Hin]]; [exact Hs|].
      destruct Hnone as [Hn | Hn]; [congruence | rewrite Hn in Hin; destruct Hin].
    - intros occ. rewrite Hrec. split; intros [Hs Hq]; split; auto.
      destruct Hs as [Hs | [Hc Hin]]; [exact Hs|].
      destruct Hnone as [Hn | Hn]; [congruence | rewrite Hn in Hin; destruct Hin]. }
  destruct (isChange part) eqn:C.
  - destruct (occurrences part) as [|occurrence matches] eqn:O.
    + injection E as <-. apply Same; auto.
    + destruct (foldM _ earlier "") as [cm|]; [|discriminate]. cbn [bind] in E.
      destruct (foldM _ (occurrence :: matches) _) as [st|] eqn:E1; [|discriminate].
      cbn [bind] in E. injection E as <-.
      eapply checkOccurrences_tracks in E1; [|exact T].
      destruct E1 as [Hflag Hrec]. split.
      * rewrite Hflag. split; intros (occ & Hs & Hq); exists occ; intuition.
      * intros occ. rewrite Hrec. intuition.
  - injection E as <-. apply Same; auto.
Qed.

Lemma checkParts_tracks (later : list LineDiff) :
  forall (earlier : list LineDiff) (seen : string -> Prop) (acc acc' : causeMap * bool),
  checkParts typeExtensions methodWhitelist nonConstantMethods earlier later acc = Ok acc' ->
  tracks methodWhitelist nonConstantMethods seen acc ->
  tracks methodWhitelist nonConstantMethods (fun occ => seen occ \/ changedIn later occ) acc'.
Proof.
  induction later as [|part later IH]; intros earlier seen acc acc' E T.
  - injection E as <-. destruct T as [Hflag Hrec]. split.
    + rewrite Hflag. split; intros (occ & Hs & Hq); exists occ; split; auto.
      destruct Hs as [Hs | (p & [] & _)]. exact Hs.
    + intros occ. rewrite Hrec. split; intros [Hs Hq]; split; auto.
      destruct Hs as [Hs | (p & [] & _)]. exact Hs.
  - cbn [checkParts] in E.
    destruct (checkPart _ _ _ earlier part acc) as [acc1|] eqn:E1; [|discriminate].
    cbn [bind] in E.
    pose proof E1 as T1. eapply checkPart_tracks in T1; [|exact T].
    destruct (IH _ _ _ _ E T1) as [Hflag Hrec].
    assert (Same : forall occ,
              ((seen occ \/ isChange part = true /\ In occ (occurrences part))
               \/ changedIn later occ)
              <-> (seen occ \/ changedIn (part :: later) occ)).
    { intros occ. unfold changedIn. split.
      - intros [[Hs | [Hc Hin]] | (p & Hp & Hc & Hin)]; [left; exact Hs | |].
        + right. exists part. simpl. auto.
        + right. exists p. simpl. auto.
      - intros [Hs | (p & [<- | Hp] & Hc & Hin)]; [auto | auto |].
        right. exists p. auto. }
    split.
    + rewrite Hflag. split; intros (occ & Hs & Hq); exists occ; split; auto; apply Same, Hs.
    + intros occ. rewrite Hrec, Same. reflexivity.
Qed.

(** The flag and the cause map, in terms of the occurrences of the diff. *)
Lemma classify_flagged (diffText : list LineDiff) (causes : causeMap) (b : bool) :
  classify typeExtensions methodWhitelist nonConstantMethods diffText = Ok (causes, b) ->
  (b = true <-> exists occ, flagged methodWhitelist nonConstantMethods diffText occ)
  /\ (forall occ, recorded occ causes
                  <-> flagged methodWhitelist nonConstantMethods diffText occ).
Proof.
  unfold classify. intros E.
  assert (T0 : tracks methodWhitelist nonConstantMethods (fun _ => False)
                 (@JsMap.empty (list string), false)).
  { split; cbn [fst snd].
    - split; [discriminate | intros (occ & [] & _)].
    - intros occ. split; [|intros [[] _]].
      intros (k & l & G & _). discriminate G. }
  eapply checkParts_tracks in E; [|exact T0].
  destruct E as [Hflag Hrec]. cbn [fst snd] in *.
  assert (Same : forall occ,
            ((False \/ changedIn diffText occ)
             /\ isCause methodWhitelist nonConstantMethods (methodNameOf occ) = true)
            <-> flagged methodWhitelist nonConstantMethods diffText occ).
  { intros occ. unfold flagged, changedIn. split.
    - intros [[[] | (p & Hp & Hc & Hin)] Hq]. exists p. auto.
    - intros (p & Hp & Hc & Hin & Hq). split; [right; exists p; auto | exact Hq]. }
  split.
  - rewrite Hflag. split; intros (occ & H); exists occ; apply Same; exact H.
  - intros occ. rewrite Hrec. apply Same.
Qed.

End ClassifierFacts.

(** The whitelist and the registry matter only through the condition of
    line 107 on the names of the occurrences met. *)
Lemma foldM_agree (A B : Type) (f g : B -> A -> result B) (l : list A) :
  (forall b a, In a l -> f b a = g b a) ->
  forall b, foldM f l b = foldM g l b.
Proof.
  induction l as [|a l IH]; intros H b; [reflexivity|].
  cbn [foldM]. rewrite (H b a (or_introl eq_refl)).
  destruct (g b a) as [b'|]; [|reflexivity].
  cbn [bind]. apply IH. intros b0 a0 Hin. apply H. right. exact Hin.
Qed.

Lemma checkPart_agree (typeExtensions : JsMap.t string)
    (wl reg wl' reg' : list string) (earlier : list LineDiff) (part : LineDiff)
    (acc : causeMap * bool) :
  (forall occ, isChange part = true -> In occ (occurrences part) ->
     isCause wl reg (methodNameOf occ) = isCause wl' reg' (methodNameOf occ)) ->
  checkPart typeExtensions wl reg earlier part acc
  = checkPart typeExtensions wl' reg' earlier part acc.
Proof.
  intros H. unfold checkPart. destruct (isChange part); [|reflexivity].
  destruct (occurrences part) as [|occurrence matches] eqn:O; [reflexivity|].
  destruct (foldM _ earlier "") as [cm|]; [|reflexivity]. cbn [bind].
  rewrite (@foldM_agree _ _
             (checkOccurrence typeExtensions wl reg (value part))
             (checkOccurrence typeExtensions wl' reg' (value part))); [reflexivity|].
  intros [[cm0 causes] flag] occ Hin. unfold checkOccurrence.
  rewrite (H occ eq_refl Hin). reflexivity.
Qed.

Lemma checkParts_agree (typeExtensions : JsMap.t string)
    (wl reg wl' reg' : list string) (later : list LineDiff) :
  (forall part occ, In part later -> isChange part = true -> In occ (occurrences part) ->
     isCause wl reg (methodNameOf occ) = isCause wl' reg' (methodNameOf occ)) ->
  forall earlier acc,
  checkParts typeExtensions wl reg earlier later acc
  = checkParts typeExtensions wl' reg' earlier later acc.
Proof.
  induction later as [|part later IH]; intros H earlier acc; [reflexivity|].
  cbn [checkParts].
  rewrite (@checkPart_agree typeExtensions wl reg wl' reg' earlier part acc)
    by (intros occ; apply H; left; reflexivity).
  destruct (checkPart typeExtensions wl' reg' earlier part acc) as [acc'|]; [|reflexivity].
  cbn [bind]. apply IH. intros p occ Hin. apply H. right. exact Hin.
Qed.

Lemma classify_agree (typeExtensions : JsMap.t string)
    (wl reg wl' reg' : list string) (diffText : list LineDiff) :
  (forall part occ, In part diffText -> isChange part = true -> In occ (occurrences part) ->
     isCause wl reg (methodNameOf occ) = isCause wl' reg' (methodNameOf occ)) ->
  classify typeExtensions wl reg diffText = classify typeExtensions wl' reg' diffText.
Proof.
  intros H. unfold classify. apply checkParts_agree, H.
Qed.

(** The classifier returns whenever the declarations it scans have
    extractable parameter types. *)
Section ClassifierReturns.

Variable typeExtensions : JsMap.t string.
Variables methodWhitelist nonConstantMethods : list string.

Lemma lastDeclaration_returns (scannedText containingMethod : string) :
  extractable typeExtensions scannedText = true ->
  exists containingMethod',
    lastDeclaration typeExtensions scannedText containingMethod = Ok containingMethod'.
Proof.
  unfold extractable, lastDeclaration.
  generalize (matchAll methodDeclarationRegex scannedText). intros ms.
  revert containingMethod.
  induction ms as [|m ms IH]; intros cm H.
  - exists cm. reflexivity.
  - cbn [forallb] in H. apply andb_true_iff in H. destruct H as [Hm Hms].
    cbn [foldM].
    destruct (getParameterTypesFromMethodDeclaration (Regex.text m) typeExtensions);
      [|discriminate].
    cbn [bind]. apply IH, Hms.
Qed.

Lemma earlier_returns (earlier : list LineDiff) :
  forallb (extractable typeExtensions) (map value earlier) = true ->
  forall containingMethod,
  exists containingMethod',
    foldM (fun containingMethod prevDiffTextPart =>
             lastDeclaration typeExtensions (value prevDiffTextPart) containingMethod)
          earlier containingMethod
    = Ok containingMethod'.
Proof.
  induction earlier as [|prev earlier IH]; intros H cm.
  - exists cm. reflexivity.
  - cbn [map forallb] in H. apply andb_true_iff in H. destruct H as [Hp He].
    cbn [foldM].
    destruct (lastDeclaration_returns (value prev) cm Hp) as [cm' ->].
    cbn [bind]. apply IH, He.
Qed.

Lemma checkOccurrences_return (partValue : string) (matches : list string) :
  forallb (extractable typeExtensions)
    (map (fun occurrence => hd "" (Js.split occurrence partValue)) matches) = true ->
  forall st,
  exists st',
    foldM (checkOccurrence typeExtensions methodWhitelist nonConstantMethods partValue)
      matches st = Ok st'.
Proof.
  induction matches as [|occurrence matches IH]; intros H st.
  - exists st. reflexivity.
  - cbn [map forallb] in H. apply andb_true_iff in H. destruct H as [Ho Hm].
    cbn [foldM]. destruct st as [[cm causes] flag]. unfold checkOccurrence at 1.
    destruct (lastDeclaration_returns _ cm Ho) as [cm' ->]. cbn [bind].
    destruct (isCause _ _ _); cbn [bind]; apply IH, Hm.
Qed.

Lemma checkPart_returns (earlier : list LineDiff) (part : LineDiff)
    (acc : causeMap * bool) :
  forallb (extractable typeExtensions) (scannedFor earlier part) = true ->
  exists acc',
    checkPart typeExtensions methodWhitelist nonConstantMethods earlier part acc = Ok acc'.
Proof.
  unfold scannedFor, checkPart. destruct (isChange part); [|eexists; reflexivity].
  destruct (occurrences part) as [|occurrence matches]; [eexists; reflexivity|].
  intros H. rewrite forallb_app in H. apply andb_true_iff in H. destruct H as [He Hm].
  destruct (earlier_returns earlier He "") as [cm ->]. cbn [bind].
  destruct (checkOccurrences_return (value part) (occurrence :: matches) Hm
              (cm, fst acc, snd acc)) as [st ->].
  cbn [bind]. eexists. reflexivity.
Qed.

Lemma checkParts_return (later : list LineDiff) :
  forall (earlier : list LineDiff) (acc : causeMap * bool),
  forallb (extractable typeExtensions) (scanned earlier later) = true ->
  exists acc',
    checkParts typeExtensions methodWhitelist nonConstantMethods earlier later acc = Ok acc'.
Proof.
  induction later as [|part later IH]; intros earlier acc H.
  - exists acc. reflexivity.
  - cbn [scanned] in H. rewrite forallb_app in H. apply andb_true_iff in H.
    destruct H as [Hp Hl]. cbn [checkParts].
    destruct (checkPart_returns earlier part acc Hp) as [acc1 ->]. cbn [bind].
    apply IH, Hl.
Qed.

Lemma classify_returns (diffText : list LineDiff) :
  forallb (extractable typeExtensions) (scanned [] diffText) = true ->
  exists causes b,
    classify typeExtensions methodWhitelist nonConstantMethods diffText = Ok (causes, b).
Proof.
  intros H. destruct (checkParts_return diffText [] (JsMap.empty, false) H) as [[causes b] E].
  exists causes, b. exact E.
Qed.

End ClassifierReturns.

(** The condition cannot be dropped: an expression statement that reads
    like a declaration and whose argument contains a modifier keyword makes
    the extractor, and with it the classifier, throw. *)
Remark unextractable_declaration_throws :
  getParameterTypesFromMethodDeclaration "new Thread(finalTask)" [] = Throw
  /\ classify [] [] []
       [Sample.removedPart "x"; Sample.addedPart "new Thread(finalTask).start();"]
     = Throw.
Proof. split; vm_compute; reflexivity. Qed.

(** The occurrences of the segments of the three scenarios. *)
Lemma fooDiff_occurrences (part : LineDiff) (occ : string) :
  In part Sample.fooDiff -> In occ (occurrences part) ->
  methodNameOf occ = "bar" \/ methodNameOf occ = "baz".
Proof.
  intros [<- | [<- | []]] Hocc; vm_compute in Hocc.
  - destruct Hocc as [<- | []]. left. reflexivity.
  - destruct Hocc as [<- | [<- | []]]; [left | right]; reflexivity.
Qed.


(** What a call that returns has computed. *)
Lemma check_returns (diffLines : string -> string -> list LineDiff)
    (s s' : State) (savedText : string) (b : bool) :
  significantCodeChangeCheck diffLines s savedText = Ok (b, s') ->
  (b = false /\ s' = s /\ (previousText s = None \/ previousText s = Some ""))
  \/ (exists previous causes,
        previousText s = Some previous /\ previous <> ""
        /\ classification diffLines s previous savedText = Ok (causes, b)
        /\ savedDocumentTexts s' = savedDocumentTexts s /\ fileName s' = fileName s
        /\ nonConstantMethods s' = nonConstantMethods s
        /\ methodWhitelist s' = methodWhitelist s).
Proof.
  unfold significantCodeChangeCheck, previousText.
  destruct (JsMap.get (fileName s) (savedDocumentTexts s)) as [[|a previous]|] eqn:G.
  - intros [= <- <-]. left. auto.
  - intros E. right.
    destruct (classification diffLines s (String a previous) savedText)
      as [[causes flag]|] eqn:C; [|discriminate].
    cbn [bind fst snd] in E.
    destruct (foldM _ (currentInferCost s) _) as [st|]; [|discriminate].
    cbn [bind] in E. injection E as <- <-.
    exists (String a previous), causes. repeat split; auto. discriminate.
  - intros [= <- <-]. left. auto.
Qed.

(** C6. The flag and the cause map are determined by the snapshot, the
    saved text, the registry and the whitelist: two states that agree on
    these classify alike and their calls return the same flag; and a call
    leaves these inputs as they were, so that calling again classifies
    alike. *)
Theorem classifier_deterministic
    (diffLines : string -> string -> list LineDiff) (s1 s2 : State) (savedText : string) :
  previousText s1 = previousText s2 ->
  nonConstantMethods s1 = nonConstantMethods s2 ->
  methodWhitelist s1 = methodWhitelist s2 ->
  (forall previous,
     classification diffLines s1 previous savedText
     = classification diffLines s2 previous savedText)
  /\ (forall b1 s1' b2 s2',
        significantCodeChangeCheck diffLines s1 savedText = Ok (b1, s1') ->
        significantCodeChangeCheck diffLines s2 savedText = Ok (b2, s2') ->
        b1 = b2)
  /\ (forall b1 s1',
        significantCodeChangeCheck diffLines s1 savedText = Ok (b1, s1') ->
        previousText s1' = previousText s1
        /\ forall previous,
             classification diffLines s1' previous savedText
             = classification diffLines s1 previous savedText).
Proof.
  intros Hprev Hreg Hwl.
  assert (Hcls : forall previous,
            classification diffLines s1 previous savedText
            = classification diffLines s2 previous savedText).
  { intros previous. unfold classification. rewrite Hreg, Hwl. reflexivity. }
  split; [exact Hcls|]. split.
  - intros b1 s1' b2 s2' E1 E2.
    apply check_returns in E1. apply check_returns in E2.
    destruct E1 as [(-> & _ & N1) | (p1 & c1 & P1 & Q1 & C1 & _)];
      destruct E2 as [(-> & _ & N2) | (p2 & c2 & P2 & Q2 & C2 & _)].
    + reflexivity.
    + rewrite Hprev, P2 in N1. destruct N1 as [N1|N1]; congruence.
    + rewrite <- Hprev, P1 in N2. destruct N2 as [N2|N2]; congruence.
    + rewrite Hprev, P2 in P1. injection P1 as <-.
      rewrite Hcls, C2 in C1. congruence.
  - intros b1 s1' E1. apply check_returns in E1.
    destruct E1 as [(_ & -> & _) | (p & c & _ & _ & _ & T & F & R & W)].
    + auto.
    + unfold previousText, classification. rewrite T, F, R, W. auto.
Qed.

Lemma classifier_deterministic_witness :
  classification Sample.oneLine Sample.analysed Sample.fooBefore Sample.fooAfter
  = classification Sample.oneLine (withHistories (Sample.heap, []) Sample.analysed)
      Sample.fooBefore Sample.fooAfter
  /\ classification Sample.oneLine Sample.analysed Sample.fooBefore Sample.fooAfter
     = Ok ([("foo(int)", ["baz()"])], true).
Proof.
  split; [|vm_compute; reflexivity].
  apply (proj1 (@classifier_deterministic Sample.oneLine Sample.analysed
           (withHistories (Sample.heap, []) Sample.analysed) Sample.fooAfter
           eq_refl eq_refl eq_refl) Sample.fooBefore).
Defined.

(** ** The snapshot check and the notification *)

(** C4. Without a snapshot of the active file the check returns [false] at
    once and the state is the one it was called in. *)
Theorem no_snapshot_not_significant
    (diffLines : string -> string -> list LineDiff) (s : State) (savedText : string) :
  previousText s = None ->
  significantCodeChangeCheck diffLines s savedText = Ok (false, s).
Proof.
  unfold previousText, significantCodeChangeCheck. intros ->. reflexivity.
Qed.

Lemma no_snapshot_not_significant_witness :
  previousText Sample.firstLoad = None
  /\ significantCodeChangeCheck Sample.oneLine Sample.firstLoad Sample.fooAfter
     = Ok (false, Sample.firstLoad).
Proof.
  split; [reflexivity|].
  apply (no_snapshot_not_significant Sample.oneLine Sample.firstLoad Sample.fooAfter).
  reflexivity.
Defined.

(** C5, as amended. A call that finds a snapshot, in a state without empty
    history arrays and on texts whose scanned declarations have extractable
    parameter types, returns and fires the notification exactly once,
    whether the flag it returns is [true] or [false]. *)
Theorem notification_fired_once
    (diffLines : string -> string -> list LineDiff) (s : State)
    (previous savedText : string) :
  previousText s = Some previous ->
  previous <> "" ->
  forallb (extractable (getGenericTypeExtensions previous))
    (scanned [] (diffLines previous savedText)) = true ->
  historiesNonEmpty (inferCostHistories s) ->
  exists b s', significantCodeChangeCheck diffLines s savedText = Ok (b, s')
               /\ fired s' = S (fired s).
Proof.
  intros Hprev Hne Hext Hhist.
  destruct (classify_returns _ (methodWhitelist s) (nonConstantMethods s) _ Hext)
    as (causes & b & Hcls).
  exists b. exact (check_reports diffLines s savedText Hprev Hne Hcls Hhist).
Qed.

Lemma notification_fired_once_witness :
  exists b s',
    significantCodeChangeCheck Sample.oneLine Sample.analysed Sample.fooAfter
    = Ok (b, s')
    /\ fired s' = 1.
Proof.
  apply (@notification_fired_once Sample.oneLine Sample.analysed
           Sample.fooBefore Sample.fooAfter).
  - reflexivity.
  - discriminate.
  - vm_compute. reflexivity.
  - intros k h H.
    unfold Sample.analysed, Sample.session, inferCostHistories, JsMap.get in H.
    destruct (String.eqb "A.foo(int)" k); [injection H as <-|]; discriminate.
Defined.

(** C5, the claim as stated fails: on first load the call returns without
    firing, so the number of notifications does not go up by one. *)
Lemma notification_skipped_without_snapshot :
  ~ (exists b s',
       significantCodeChangeCheck Sample.oneLine Sample.firstLoad Sample.fooAfter
       = Ok (b, s')
       /\ fired s' = S (fired Sample.firstLoad)).
Proof.
  intros (b & s' & E & F).
  change (significantCodeChangeCheck Sample.oneLine Sample.firstLoad Sample.fooAfter)
    with (Ok (false, Sample.firstLoad)) in E.
  injection E as _ <-. discriminate F.
Qed.

(** ** The cost-history tracker *)

Lemma historyOf_set (k k' : string) (h : list ref) (hists : histories) :
  historyOf k (JsMap.set k' h hists) = if String.eqb k' k then h else historyOf k hists.
Proof.
  unfold historyOf. rewrite get_set. destruct (String.eqb k' k); reflexivity.
Qed.

Lemma costHistory_historyOf (k : string) (hists : histories) :
  (if JsMap.has k hists
   then match JsMap.get k hists with Some h => h | None => [] end
   else [])
  = historyOf k hists.
Proof.
  unfold JsMap.has, historyOf. destruct (JsMap.get k hists); reflexivity.
Qed.

(** The two ways through the loop body. *)
Lemma recordCost_cases (now : string) (objs : store) (hists : histories) (r : ref) :
  (recordCost now (objs, hists) r = (objs, hists)
   /\ exists head rest,
        historyOf (id (objs r)) hists = head :: rest
        /\ execPolynomial objs head = execPolynomial objs r)
  \/ (recordCost now (objs, hists) r
      = (write r (setTimestamp now) objs,
         JsMap.set (id (objs r)) (r :: historyOf (id (objs r)) hists) hists)
      /\ (historyOf (id (objs r)) hists = []
          \/ exists head rest,
               historyOf (id (objs r)) hists = head :: rest
               /\ execPolynomial objs head <> execPolynomial objs r)).
Proof.
  unfold recordCost. rewrite costHistory_historyOf.
  destruct (historyOf (id (objs r)) hists) as [|head rest] eqn:H.
  - right. split; [reflexivity | left; reflexivity].
  - unfold execPolynomial.
    destruct (String.eqb _ _) eqn:E.
    + left. apply String.eqb_eq in E. split; [reflexivity|]. exists head, rest. auto.
    + right. apply String.eqb_neq in E. split; [reflexivity|].
      right. exists head, rest. auto.
Qed.

Lemma write_timestamp_costs (now : string) (r : ref) (objs0 objs : store) :
  sameCosts objs0 objs -> sameCosts objs0 (write r (setTimestamp now) objs).
Proof.
  intros H x. unfold write. destruct (Nat.eqb x r) eqn:E.
  - apply Nat.eqb_eq in E. subst x. exact (H r).
  - exact (H x).
Qed.

Lemma recordCost_grownOnce (objs0 : store) (M p : string) (n : nat)
    (now : string) (st : store * histories) (r : ref) :
  (id (objs0 r) = M -> execPolynomial objs0 r = p) ->
  grownOnce objs0 M p n st ->
  grownOnce objs0 M p n (recordCost now st r).
Proof.
  destruct st as [objs hists]. intros Hr [Hsame Hlen]. cbn [fst snd] in *.
  assert (Hpoly : forall x, execPolynomial objs x = execPolynomial objs0 x).
  { intros x. unfold execPolynomial. destruct (Hsame x) as [_ ->]. reflexivity. }
  assert (Hid : id (objs r) = id (objs0 r)) by apply Hsame.
  destruct (recordCost_cases now objs hists r) as [[-> _] | [-> Hwhy]].
  - split; assumption.
  - split; cbn [fst snd]; [apply write_timestamp_costs, Hsame|].
    rewrite historyOf_set.
    assert (Hkeep : forall x,
              execPolynomial (write r (setTimestamp now) objs) x = execPolynomial objs x).
    { intros x. unfold execPolynomial, write.
      destruct (Nat.eqb x r) eqn:E; [|reflexivity].
      apply Nat.eqb_eq in E. subst x. reflexivity. }
    destruct (String.eqb (id (objs r)) M) eqn:E.
    + apply String.eqb_eq in E.
      assert (Hp : execPolynomial objs r = p) by (rewrite Hpoly; apply Hr; congruence).
      destruct Hlen as [Hlen | [(head & rest & Hh & Hhp) Hlen]].
      * right. split.
        -- exists r, (historyOf (id (objs r)) hists). cbn [fst snd].
           rewrite historyOf_set, E, String.eqb_refl, Hkeep. auto.
        -- rewrite E. simpl. lia.
      * exfalso. rewrite E in Hwhy. cbn [fst snd] in Hh, Hhp.
        destruct Hwhy as [Hnil | (head' & rest' & Hh' & Hne)]; [congruence|].
        rewrite Hh in Hh'. injection Hh' as <- <-. congruence.
    + destruct Hlen as [Hlen | [(head & rest & Hh & Hhp) Hlen]]; [left; exact Hlen|].
      right. split; [|exact Hlen].
      exists head, rest. cbn [fst snd] in *. rewrite historyOf_set, E, Hkeep. auto.
Qed.

Lemma recordCosts_grownOnce (objs0 : store) (M p : string) (n : nat)
    (now : string) (costs : list ref) :
  forall st,
  (forall r, In r costs -> id (objs0 r) = M -> execPolynomial objs0 r = p) ->
  grownOnce objs0 M p n st ->
  grownOnce objs0 M p n (fold_left (recordCost now) costs st).
Proof.
  induction costs as [|r costs IH]; intros st Hall G.
  - exact G.
  - simpl. apply IH.
    + intros r' Hin. apply Hall. right. exact Hin.
    + apply recordCost_grownOnce; [apply Hall; left; reflexivity | exact G].
Qed.

Lemma recordCostLists_grownOnce (objs0 : store) (M p : string) (n : nat)
    (now : string) (lists : JsMap.t (list ref)) :
  forall st,
  (forall r, In r (List.concat (map snd lists)) -> id (objs0 r) = M -> execPolynomial objs0 r = p) ->
  grownOnce objs0 M p n st ->
  grownOnce objs0 M p n
    (fold_left (fun st inferCost => fold_left (recordCost now) (snd inferCost) st) lists st).
Proof.
  induction lists as [|[f costs] lists IH]; intros st Hall G.
  - exact G.
  - simpl. apply IH.
    + intros r Hin. apply Hall. simpl. apply in_or_app. right. exact Hin.
    + apply recordCosts_grownOnce; [|exact G].
      intros r Hin. apply Hall. simpl. apply in_or_app. left. exact Hin.
Qed.

Lemma analyseSingleFile_grownOnce (objs0 : store) (M p : string) (n : nat)
    (runs : list Run) :
  forall s,
  (forall run r, In run runs -> In r (costList run) ->
                 id (objs0 r) = M -> execPolynomial objs0 r = p) ->
  grownOnce objs0 M p n (objects s, inferCostHistories s) ->
  grownOnce objs0 M p n
    (objects (analyseSingleFile runs s), inferCostHistories (analyseSingleFile runs s)).
Proof.
  induction runs as [|run runs IH]; intros s Hall G.
  - exact G.
  - unfold analyseSingleFile. simpl. apply IH.
    + intros run' r Hin. apply Hall. right. exact Hin.
    + unfold SingleFile.updateInferCostHistory, withHistories. cbn [objects inferCostHistories].
      rewrite <- surjective_pairing.
      apply recordCosts_grownOnce; [|exact G].
      intros r Hin. exact (Hall run r (or_introl eq_refl) Hin).
Qed.

Lemma analyseProject_grownOnce (objs0 : store) (M p : string) (n : nat)
    (runs : list Run) :
  forall s,
  (forall run r, In run runs -> In r (allEntries run) ->
                 id (objs0 r) = M -> execPolynomial objs0 r = p) ->
  grownOnce objs0 M p n (objects s, inferCostHistories s) ->
  grownOnce objs0 M p n
    (objects (analyseProject runs s), inferCostHistories (analyseProject runs s)).
Proof.
  induction runs as [|run runs IH]; intros s Hall G.
  - exact G.
  - unfold analyseProject. simpl. apply IH.
    + intros run' r Hin. apply Hall. right. exact Hin.
    + unfold Project.updateInferCostHistory, withHistories. cbn [objects inferCostHistories].
      rewrite <- surjective_pairing.
      apply recordCostLists_grownOnce; [|exact G].
      intros r Hin. exact (Hall run r (or_introl eq_refl) Hin).
Qed.

Lemma grownOnce_start (s : State) (M p : string) :
  grownOnce (objects s) M p (List.length (historyOf M (inferCostHistories s)))
    (objects s, inferCostHistories s).
Proof.
  split; cbn [fst snd].
  - intros r. auto.
  - left. lia.
Qed.

(** Scenario D: the polynomial [n] twice, then [n*n]; the history of the id
    has length 1, 1 and 2. *)
Lemma scenario_D :
  let run1 := {| startedAt := "t1"; costList := [1]; costLists := [] |} in
  let run2 := {| startedAt := "t2"; costList := [0]; costLists := [] |} in
  let run3 := {| startedAt := "t3"; costList := [2]; costLists := [] |} in
  let s0 := withHistories (Sample.heap, []) Sample.analysed in
  historyOf "A.foo(int)" (inferCostHistories (analyseSingleFile [run1] s0)) = [1]
  /\ historyOf "A.foo(int)" (inferCostHistories (analyseSingleFile [run1; run2] s0)) = [1]
  /\ historyOf "A.foo(int)" (inferCostHistories (analyseSingleFile [run1; run2; run3] s0))
     = [2; 1]
  /\ timestamp (objects (analyseSingleFile [run1; run2; run3] s0) 2) = Some "t3".
Proof.
  repeat split; vm_compute; reflexivity.
Qed.

(** ** Attribution of causes *)

Lemma find_app (A : Type) (f : A -> bool) (l1 l2 : list A) :
  find f (l1 ++ l2) = match find f l1 with
                      | Some x => Some x
                      | None => find f l2
                      end.
Proof.
  induction l1 as [|a l1 IH]; simpl; [reflexivity|].
  destruct (f a); [reflexivity | exact IH].
Qed.

Lemma sameButCauses_id (objs0 objs : store) (r : ref) :
  sameButCauses objs0 objs -> id (objs r) = id (objs0 r).
Proof. intros H. exact (f_equal id (H r)). Qed.

Lemma sameButCauses_identity (objs0 objs : store) (r : ref) :
  sameButCauses objs0 objs -> identityOf (objs r) = identityOf (objs0 r).
Proof. intros H. exact (f_equal identityOf (H r)). Qed.

Lemma sameButCauses_write (objs0 objs : store) (r : ref) (c : option (list string)) :
  sameButCauses objs0 objs ->
  sameButCauses objs0 (write r (setChangeCauseMethods c) objs).
Proof.
  intros H x. unfold write. destruct (Nat.eqb x r) eqn:E; [|exact (H x)].
  apply Nat.eqb_eq in E. subst x. rewrite <- (H r). reflexivity.
Qed.

Lemma causes_write (objs : store) (r x : ref) (c : option (list string)) :
  changeCauseMethods (write r (setChangeCauseMethods c) objs x)
  = if Nat.eqb x r then c else changeCauseMethods (objs x).
Proof. unfold write. destruct (Nat.eqb x r); reflexivity. Qed.

(** One iteration of the attribution loop, in a state whose histories are
    filed under the ids of their heads. *)
Lemma attribute_step (causes : causeMap) (objs0 objs : store) (hists : histories)
    (r : ref) :
  historiesFiled objs0 hists ->
  sameButCauses objs0 objs ->
  JsMap.get (id (objs0 r)) hists <> Some [] ->
  exists objs',
    attribute causes (objs, hists) r = Ok (objs', hists)
    /\ sameButCauses objs0 objs'
    /\ forall x, changeCauseMethods (objs' x)
                 = if touches objs0 hists x r
                   then JsMap.get (identityOf (objs0 r)) causes
                   else changeCauseMethods (objs x).
Proof.
  intros Hfiled Hsame Hne. unfold attribute, touches.
  rewrite (sameButCauses_identity r Hsame).
  set (c := JsMap.get (identityOf (objs0 r)) causes).
  assert (Hsame1 : sameButCauses objs0 (write r (setChangeCauseMethods c) objs))
    by (apply sameButCauses_write, Hsame).
  rewrite (sameButCauses_id r Hsame1).
  destruct (JsMap.get (id (objs0 r)) hists) as [[|head rest]|] eqn:G.
  - congruence.
  - assert (Hsame2 : sameButCauses objs0
              (write head (setChangeCauseMethods c) (write r (setChangeCauseMethods c) objs)))
      by (apply sameButCauses_write, Hsame1).
    rewrite (sameButCauses_id head Hsame2), (Hfiled _ _ _ G), (set_same _ _ G).
    eexists. split; [reflexivity|]. split; [exact Hsame2|].
    intros x. rewrite !causes_write.
    destruct (Nat.eqb x head), (Nat.eqb x r); reflexivity.
  - eexists. split; [reflexivity|]. split; [exact Hsame1|].
    intros x. rewrite causes_write, orb_false_r. reflexivity.
Qed.

(** The whole loop: every object ends with the cause list assigned by the
    last entry that touched it. *)
Lemma attribute_loop (causes : causeMap) (objs0 : store) (hists : histories)
    (costs : list ref) :
  historiesFiled objs0 hists ->
  forall objs,
  sameButCauses objs0 objs ->
  (forall r, In r costs -> JsMap.get (id (objs0 r)) hists <> Some []) ->
  exists objs',
    foldM (attribute causes) costs (objs, hists) = Ok (objs', hists)
    /\ sameButCauses objs0 objs'
    /\ forall x, changeCauseMethods (objs' x)
                 = match find (touches objs0 hists x) (rev costs) with
                   | Some r => JsMap.get (identityOf (objs0 r)) causes
                   | None => changeCauseMethods (objs x)
                   end.
Proof.
  intros Hfiled. induction costs as [|r costs IH]; intros objs Hsame Hne.
  - exists objs. split; [reflexivity|]. split; [exact Hsame|]. reflexivity.
  - destruct (@attribute_step causes _ _ _ r Hfiled Hsame (Hne r (or_introl eq_refl)))
      as (objs1 & E1 & Hsame1 & Hc1).
    destruct (IH objs1 Hsame1 (fun r' Hin => Hne r' (or_intror Hin)))
      as (objs' & E & Hsame' & Hc).
    exists objs'. cbn [foldM]. rewrite E1. cbn [bind]. split; [exact E|].
    split; [exact Hsame'|].
    intros x. rewrite Hc. cbn [rev]. rewrite find_app.
    destruct (find (touches objs0 hists x) (rev costs)); [reflexivity|].
    cbn [find]. rewrite Hc1. destruct (touches objs0 hists x r); reflexivity.
Qed.

(** With distinct ids, an object is touched by one entry only. *)
Lemma touches_unique (objs0 : store) (hists : histories) (costs : list ref)
    (x r r' : ref) :
  historiesFiled objs0 hists ->
  distinctIds objs0 costs ->
  In r costs -> In r' costs ->
  touches objs0 hists x r = true ->
  touches objs0 hists x r' = true ->
  r = r'.
Proof.
  intros Hfiled Hdist Hr Hr' T T'.
  assert (Hid : forall q, touches objs0 hists x q = true -> id (objs0 x) = id (objs0 q)).
  { intros q Tq. unfold touches in Tq. apply orb_true_iff in Tq.
    destruct Tq as [Tq | Tq].
    - apply Nat.eqb_eq in Tq. subst. reflexivity.
    - destruct (JsMap.get (id (objs0 q)) hists) as [[|head rest]|] eqn:G;
        try discriminate.
      apply Nat.eqb_eq in Tq. subst x. exact (Hfiled _ _ _ G). }
  apply Hdist; auto. rewrite <- (Hid r T), <- (Hid r' T'). reflexivity.
Qed.

(** The stale attribution of the example is gone after a call that finds
    nothing significant: entry 0 and the head 1 of its history carried
    [["old()"]] and carry nothing afterwards. *)
Lemma stale_attribution_cleared :
  changeCauseMethods (Sample.heap 0) = Some ["old()"]
  /\ changeCauseMethods (Sample.heap 1) = Some ["old()"]
  /\ match significantCodeChangeCheck Sample.oneLine Sample.analysedQuiet Sample.fooAfter with
     | Ok (b, s') =>
         b = false
         /\ changeCauseMethods (objects s' 0) = None
         /\ changeCauseMethods (objects s' 1) = None
         /\ fired s' = 1
     | Throw => False
     end.
Proof.
  vm_compute. repeat split; reflexivity.
Qed.

(* ================================================================== *)
(** * Further properties *)

(** ** The matcher finds matches only *)

Lemma iterate_sound
    (step : pos -> caps -> (pos -> caps -> option (pos * caps)) -> option (pos * caps))
    (R : pos -> caps -> pos -> caps -> Prop)
    (greedy : bool) (k : pos -> caps -> option (pos * caps)) :
  (forall p c k' res, step p c k' = Some res ->
     exists q c', R p c q c' /\ k' q c' = Some res) ->
  forall (fuel : nat) (p : pos) (c : caps) (res : pos * caps),
  iterate step greedy k fuel p c = Some res ->
  exists q c', reps R p c q c' /\ k q c' = Some res.
Proof.
  intros Hstep. induction fuel as [|fuel IH]; intros p c res H; cbn [iterate] in H.
  - exists p, c. split; [constructor | exact H].
  - cbv zeta in H.
    assert (Stop : forall res', k p c = Some res' ->
              exists q c', reps R p c q c' /\ k q c' = Some res').
    { intros res' E. exists p, c. split; [constructor | exact E]. }
    assert (More : forall res',
              step p c (fun p' c' =>
                if Nat.ltb (List.length (after p')) (List.length (after p))
                then iterate step greedy k fuel p' c' else None) = Some res' ->
              exists q c', reps R p c q c' /\ k q c' = Some res').
    { intros res' E. apply Hstep in E. destruct E as (m & cm & HR & E).
      destruct (Nat.ltb _ _) eqn:L; [|discriminate]. apply Nat.ltb_lt in L.
      apply IH in E. destruct E as (q & c' & Hreps & E).
      exists q, c'. split; [exact (@reps_more R p c m cm q c' HR L Hreps) | exact E]. }
    unfold orelse in H. destruct greedy.
    + destruct (step p c _) as [res1|] eqn:E1.
      * injection H as <-. exact (More res1 eq_refl).
      * apply Stop, H.
    + destruct (k p c) as [res1|] eqn:E1.
      * injection H as <-. exact (Stop res1 eq_refl).
      * apply More, H.
Qed.

(** Whatever the matcher hands to its continuation is a match. *)
Lemma run_sound (r : regex) :
  forall (p : pos) (c : caps) (k : pos -> caps -> option (pos * caps)) (res : pos * caps),
  run r p c k = Some res ->
  exists q c', sem r p c q c' /\ k q c' = Some res.
Proof.
  induction r as [f | | r1 IH1 r2 IH2 | r1 IH1 r2 IH2 | greedy r1 IH1 | n r1 IH1 | | r1 IH1];
    intros p c k res H; cbn [run] in H; cbn [sem].
  - destruct (after p) as [|a rest] eqn:A; [discriminate|].
    destruct (f a) eqn:F; [|discriminate].
    eexists _, c. split; [|exact H]. exists a, rest. auto.
  - exists p, c. auto.
  - apply IH1 in H. destruct H as (m & cm & S1 & H).
    apply IH2 in H. destruct H as (q & c' & S2 & H).
    exists q, c'. split; [exists m, cm; auto | exact H].
  - unfold orelse in H. destruct (run r1 p c k) as [res1|] eqn:E1.
    + injection H as <-. apply IH1 in E1. destruct E1 as (q & c' & S1 & E1).
      exists q, c'. auto.
    + apply IH2 in H. destruct H as (q & c' & S2 & H). exists q, c'. auto.
  - exact (@iterate_sound (run r1) (sem r1) greedy k IH1 _ p c res H).
  - apply IH1 in H. destruct H as (q & c0 & S1 & H).
    eexists q, _. split; [exists c0; split; [exact S1 | reflexivity] | exact H].
  - exists p, c. split; [|destruct (before p) as [|a bef]; [exact H|];
                          destruct (isLineTerminator a); [exact H | discriminate]].
    split; [reflexivity|]. split; [reflexivity|].
    destruct (before p) as [|a bef]; [exact I|].
    destruct (isLineTerminator a); [reflexivity | discriminate].
  - exists p, c. unfold lookbehind.
    destruct (existsb _ _); [discriminate|]. auto.
Qed.

Lemma matchAt_sound (r : regex) (p q : pos) (c : caps) :
  matchAt r p = Some (q, c) -> sem r p [] q c.
Proof.
  intros H. apply run_sound in H. destruct H as (q' & c' & S & E).
  injection E as -> ->. exact S.
Qed.

Lemma moved_subject (p q : pos) (l : list ascii) :
  moved p q l ->
  (rev (before q) ++ after q)%list = (rev (before p) ++ after p)%list.
Proof.
  intros [A B]. rewrite A, B, rev_app_distr, rev_involutive, <- app_assoc. reflexivity.
Qed.

Lemma advance_subject (p p' : pos) :
  advance p = Some p' ->
  (rev (before p') ++ after p')%list = (rev (before p) ++ after p)%list.
Proof.
  unfold advance. destruct (after p) as [|a rest] eqn:A; [discriminate|].
  intros E. injection E as <-. cbn. rewrite <- app_assoc. reflexivity.
Qed.

Lemma matchAt_subject (r : regex) (p q : pos) (c : caps) :
  matchAt r p = Some (q, c) ->
  (rev (before q) ++ after q)%list = (rev (before p) ++ after p)%list.
Proof.
  intros H. unfold matchAt in H. apply run_moves in H.
  destruct H as (q' & c' & l & E & M & _). injection E as -> ->.
  exact (moved_subject M).
Qed.

(** Every match the scan reports is the match at some position of the
    subject. *)
Lemma scan_matches (r : regex) :
  forall (fuel : nat) (p : pos) (m : rmatch),
  In m (scan r fuel p) ->
  exists p' q c,
    matchAt r p' = Some (q, c)
    /\ m = {| index := List.length (before p'); text := between p' q; groups := c |}
    /\ (rev (before p') ++ after p')%list = (rev (before p) ++ after p)%list.
Proof.
  induction fuel as [|fuel IH]; intros p m H; cbn [scan] in H; [contradiction|].
  destruct (matchAt r p) as [[q c]|] eqn:E.
  - cbv zeta in H.
    assert (Later : forall p1,
              (rev (before p1) ++ after p1)%list = (rev (before q) ++ after q)%list ->
              In m (scan r fuel p1) ->
              exists p' q' c',
                matchAt r p' = Some (q', c')
                /\ m = {| index := List.length (before p'); text := between p' q';
                          groups := c' |}
                /\ (rev (before p') ++ after p')%list = (rev (before p) ++ after p)%list).
    { intros p1 S1 H1. apply IH in H1. destruct H1 as (p' & q' & c' & M & Em & S').
      exists p', q', c'. repeat split; auto.
      rewrite S', S1. eapply matchAt_subject; exact E. }
    destruct (Nat.ltb _ _).
    + destruct H as [<-|H]; [exists p, q, c; auto|]. exact (Later q eq_refl H).
    + destruct H as [<-|H]; [exists p, q, c; auto|].
      destruct (advance q) as [q1|] eqn:A; [|contradiction].
      exact (Later q1 (@advance_subject q q1 A) H).
  - destruct (advance p) as [p1|] eqn:A; [|contradiction].
    apply IH in H. destruct H as (p' & q' & c' & M & Em & S').
    exists p', q', c'. repeat split; auto. rewrite S'. exact (@advance_subject p p1 A).
Qed.

Lemma matchAll_matches (r : regex) (s : string) (m : rmatch) :
  In m (matchAll r s) ->
  exists p q c,
    matchAt r p = Some (q, c)
    /\ m = {| index := List.length (before p); text := between p q; groups := c |}
    /\ (rev (before p) ++ after p)%list = list_ascii_of_string s.
Proof.
  intros H. apply scan_matches in H. exact H.
Qed.

(** ** The shape of what the building blocks match *)

Lemma sem_chr (f : ascii -> bool) (p : pos) (c : caps) (q : pos) (c' : caps) :
  sem (Chr f) p c q c' -> exists a, f a = true /\ moved p q [a] /\ c' = c.
Proof.
  cbn [sem]. intros (a & rest & F & A & -> & ->). exists a.
  repeat split; auto.
Qed.

Lemma sem_lit (s : string) :
  forall (p : pos) (c : caps) (q : pos) (c' : caps),
  sem (Lit s) p c q c' -> moved p q (list_ascii_of_string s) /\ c' = c.
Proof.
  induction s as [|a s IH]; intros p c q c' H; cbn [Lit sem] in H.
  - destruct H as [-> ->]. split; [apply moved_refl | reflexivity].
  - destruct H as (m & cm & H1 & H2).
    apply sem_chr in H1. destruct H1 as (x & F & M & ->).
    apply Ascii.eqb_eq in F. subst x. apply IH in H2. destruct H2 as [M2 ->].
    split; [exact (moved_trans M M2) | reflexivity].
Qed.

Lemma reps_chr (f : ascii -> bool) (p : pos) (c : caps) (q : pos) (c' : caps) :
  reps (sem (Chr f)) p c q c' ->
  exists l, moved p q l /\ forallb f l = true /\ c' = c.
Proof.
  induction 1 as [p c | p c m cm q c' H1 _ _ IH].
  - exists []. repeat split.
  - apply sem_chr in H1. destruct H1 as (a & F & M & ->).
    destruct IH as (l & M2 & Fl & ->). exists (a :: l).
    split; [exact (moved_trans M M2)|]. cbn [forallb]. rewrite F, Fl. auto.
Qed.

Lemma sem_plus_chr (f : ascii -> bool) (p : pos) (c : caps) (q : pos) (c' : caps) :
  sem (Plus (Chr f)) p c q c' ->
  exists a l, moved p q (a :: l) /\ f a = true /\ forallb f l = true /\ c' = c.
Proof.
  unfold Plus. intros (m & cm & H1 & H2).
  apply sem_chr in H1. destruct H1 as (a & F & M & ->).
  apply reps_chr in H2. destruct H2 as (l & M2 & Fl & ->).
  exists a, l. split; [exact (moved_trans M M2) | auto].
Qed.

Lemma sem_identifier (p : pos) (c : caps) (q : pos) (c' : caps) :
  sem identifier p c q c' ->
  exists name,
    moved p q (list_ascii_of_string name) /\ isIdentifier name = true /\ c' = c.
Proof.
  unfold identifier. intros (m & cm & H1 & H2).
  apply sem_chr in H1. destruct H1 as (a & F & M & ->).
  apply reps_chr in H2. destruct H2 as (l & M2 & Fl & ->).
  exists (String a (string_of_list_ascii l)).
  cbn [list_ascii_of_string isIdentifier].
  rewrite list_ascii_of_string_of_list_ascii, F, Fl.
  split; [exact (moved_trans M M2) | auto].
Qed.

Lemma sem_parenthesized (p : pos) (c : caps) (q : pos) (c' : caps) :
  sem parenthesized p c q c' ->
  exists inner,
    moved p q ("("%char :: inner ++ [")"%char])
    /\ forallb (fun a => negb (isChar ")" a)) inner = true /\ c' = c.
Proof.
  unfold parenthesized. cbn [Seqs]. intros (m1 & c1 & H1 & m2 & c2 & H2 & H3).
  apply sem_chr in H1. destruct H1 as (a & F & M & ->).
  apply reps_chr in H2. destruct H2 as (l & M2 & Fl & ->).
  apply sem_chr in H3. destruct H3 as (b & G & M3 & ->).
  apply Ascii.eqb_eq in F, G. subst a b.
  exists l. split; [exact (moved_trans M (moved_trans M2 M3)) | auto].
Qed.

(** ** Characters and strings *)

Lemma chars_app (s t : string) :
  list_ascii_of_string (s ++ t) = (list_ascii_of_string s ++ list_ascii_of_string t)%list.
Proof. induction s as [|a s IH]; cbn; [|rewrite IH]; reflexivity. Qed.

Lemma string_of_chars_app (l1 l2 : list ascii) :
  string_of_list_ascii (l1 ++ l2)
  = (string_of_list_ascii l1 ++ string_of_list_ascii l2)%string.
Proof. induction l1 as [|a l1 IH]; cbn; [|rewrite IH]; reflexivity. Qed.

Lemma chars_spaces (n : nat) : list_ascii_of_string (spaces n) = repeat " "%char n.
Proof. induction n as [|n IH]; cbn; [|rewrite IH]; reflexivity. Qed.

Lemma all_spaces (l : list ascii) :
  forallb (isChar " ") l = true -> l = repeat " "%char (List.length l).
Proof.
  induction l as [|a l IH]; [reflexivity|]. cbn [forallb]. intros H.
  apply andb_true_iff in H. destruct H as [A H]. apply Ascii.eqb_eq in A. subst a.
  cbn. rewrite <- IH by exact H. reflexivity.
Qed.

Lemma chars_header (name : string) (n : nat) (inner : list ascii) :
  list_ascii_of_string (header name n (string_of_list_ascii inner ++ ")"))
  = (list_ascii_of_string name ++ repeat " "%char n
     ++ "("%char :: inner ++ [")"%char])%list.
Proof.
  unfold header. rewrite !chars_app, chars_spaces. cbn [list_ascii_of_string].
  rewrite chars_app, list_ascii_of_string_of_list_ascii. reflexivity.
Qed.

Lemma identStart_plain (a : ascii) :
  identStart a = true -> negb (Js.isSpace a) && negb (Ascii.eqb a "(") = true.
Proof.
  destruct a as [[] [] [] [] [] [] [] []]; vm_compute; intros H;
    first [reflexivity | discriminate].
Qed.

Lemma identPart_plain (a : ascii) :
  identPart a = true -> negb (Js.isSpace a) && negb (Ascii.eqb a "(") = true.
Proof.
  destruct a as [[] [] [] [] [] [] [] []]; vm_compute; intros H;
    first [reflexivity | discriminate].
Qed.

Lemma isIdentifier_plain (name : string) : isIdentifier name = true -> plain name = true.
Proof.
  destruct name as [|a name]; [discriminate|]. cbn [isIdentifier plain]. intros H.
  apply andb_true_iff in H. destruct H as [A H].
  rewrite (identStart_plain a A). cbn [andb].
  induction name as [|b name IH]; [reflexivity|].
  cbn [list_ascii_of_string forallb] in H. apply andb_true_iff in H. destruct H as [B H].
  cbn [plain]. rewrite (identPart_plain b B). exact (IH H).
Qed.

Lemma same_length_prefix (A : Type) (x y l1 l2 : list A) :
  (x ++ y)%list = (l1 ++ l2)%list -> List.length x = List.length l1 ->
  x = l1 /\ y = l2.
Proof.
  revert l1. induction x as [|a x IH]; intros [|b l1] E L; try discriminate.
  - auto.
  - cbn in E, L. injection E as -> E. injection L as L.
    destruct (IH l1 E L) as [-> ->]. auto.
Qed.

(** ** Occurrences *)

(** A match of [significantCodeChangeRegex] is not behind [//] and reads
    as a keyword or an identifier followed by a parenthesized text. *)
Lemma sem_occurrence (p : pos) (c : caps) (q : pos) (c' : caps) :
  sem significantCodeChangeRegex p c q c' ->
  lookbehind (Seq (Lit "//") (Star true (Chr dot))) p c = false
  /\ exists name n inner pm,
       moved p pm (list_ascii_of_string name)
       /\ moved p q
            (list_ascii_of_string (header name n (string_of_list_ascii inner ++ ")")))
       /\ forallb (fun a => negb (isChar ")" a)) inner = true
       /\ (name = "while" \/ name = "for"
           \/ (n = 0 /\ isIdentifier name = true
               /\ lookbehind
                    (Seq (Plus (Chr nonWord)) (Group 2 (Alt (Lit "if") (Lit "switch"))))
                    pm c = false)).
Proof.
  unfold significantCodeChangeRegex. cbn [sem Alts Seqs].
  intros (m & cm & (-> & -> & LB) & c0 & H & ->). split; [exact LB|].
  assert (Loop : forall word,
            (exists m1 c1, sem (Lit word) p c m1 c1
               /\ exists m2 c2, reps (sem (Chr (isChar " "))) m1 c1 m2 c2
                    /\ sem parenthesized m2 c2 q c0) ->
            exists n inner pm,
              moved p pm (list_ascii_of_string word)
              /\ moved p q
                   (list_ascii_of_string (header word n (string_of_list_ascii inner ++ ")")))
              /\ forallb (fun a => negb (isChar ")" a)) inner = true).
  { intros word (m1 & c1 & H1 & m2 & c2 & H2 & H3).
    apply sem_lit in H1. destruct H1 as [M1 ->].
    apply reps_chr in H2. destruct H2 as (l & M2 & Fl & ->).
    apply sem_parenthesized in H3. destruct H3 as (inner & M3 & Fi & ->).
    exists (List.length l), inner, m1. split; [exact M1|]. split; [|exact Fi].
    rewrite chars_header, <- (all_spaces l Fl).
    exact (moved_trans M1 (moved_trans M2 M3)). }
  destruct H as [H | [H | H]].
  - apply Loop in H. destruct H as (n & inner & pm & M1 & M & Fi).
    exists "while", n, inner, pm. repeat (split; [assumption|]). auto.
  - apply Loop in H. destruct H as (n & inner & pm & M1 & M & Fi).
    exists "for", n, inner, pm. repeat (split; [assumption|]). auto.
  - destruct H as (m1 & c1 & H1 & m2 & c2 & (-> & -> & LB2) & H3).
    apply sem_identifier in H1. destruct H1 as (name & M1 & I & ->).
    apply sem_parenthesized in H3. destruct H3 as (inner & M3 & Fi & ->).
    exists name, 0, inner, m1. split; [exact M1|]. split.
    { rewrite chars_header. exact (moved_trans M1 M3). }
    split; [exact Fi|]. right. right. auto.
Qed.

(** X1.  Every occurrence the classifier examines is the keyword [while]
    or [for], possibly followed by spaces, or an identifier, followed at
    once by a parenthesized text without a closing parenthesis inside; the
    name tested against the whitelist and the registry is exactly that
    keyword or identifier. *)
Theorem occurrence_name_before_parenthesis (part : LineDiff) (occurrence : string) :
  In occurrence (occurrences part) ->
  exists name n inner,
    occurrence = header name n (inner ++ ")")
    /\ forallb (fun a => negb (isChar ")" a)) (list_ascii_of_string inner) = true
    /\ methodNameOf occurrence = name
    /\ (name = "while" \/ name = "for" \/ (n = 0 /\ isIdentifier name = true)).
Proof.
  unfold occurrences. intros H. apply in_map_iff in H. destruct H as (m & <- & H).
  apply matchAll_matches in H. destruct H as (p & q & c & M & -> & _).
  apply matchAt_sound, sem_occurrence in M.
  destruct M as (_ & name & n & inner & pm & _ & M & Fi & Hname).
  cbn [text]. rewrite (between_moved M), string_of_list_ascii_of_string.
  exists name, n, (string_of_list_ascii inner).
  rewrite list_ascii_of_string_of_list_ascii.
  split; [reflexivity|]. split; [exact Fi|]. split.
  - apply methodNameOf_header.
    destruct Hname as [-> | [-> | (_ & I & _)]];
      [reflexivity | reflexivity | exact (isIdentifier_plain name I)].
  - destruct Hname as [-> | [-> | (N & I & _)]]; auto.
Qed.

Lemma occurrence_name_before_parenthesis_witness :
  exists name n inner,
    "baz()" = header name n (inner ++ ")")
    /\ forallb (fun a => negb (isChar ")" a)) (list_ascii_of_string inner) = true
    /\ methodNameOf "baz()" = name
    /\ (name = "while" \/ name = "for" \/ (n = 0 /\ isIdentifier name = true)).
Proof.
  apply (occurrence_name_before_parenthesis (Sample.addedPart Sample.fooAfter)).
  vm_compute. right. left. reflexivity.
Defined.

(** ** Lookbehinds that succeed *)

(** A greedy repetition of one character class, asked to reach the end of
    the subject, does so when every character ahead is in the class. *)
Lemma iterate_chr_all (f : ascii -> bool) :
  forall (l bef : list ascii) (c : caps) (fuel : nat),
  forallb f l = true -> List.length l <= fuel ->
  iterate (run (Chr f)) true atEnd fuel {| before := bef; after := l |} c
  = Some ({| before := (rev l ++ bef)%list; after := [] |}, c).
Proof.
  induction l as [|a l IH]; intros bef c fuel F L.
  - destruct fuel; reflexivity.
  - destruct fuel as [|fuel]; [cbn in L; lia|].
    cbn [forallb] in F. apply andb_true_iff in F. destruct F as [Fa F].
    cbn [iterate run after before]. rewrite Fa. cbn [after List.length].
    replace (Nat.ltb (List.length l) (S (List.length l))) with true
      by (symmetry; apply Nat.ltb_lt; lia).
    rewrite IH by (cbn in L; auto; lia). cbn [orelse rev].
    rewrite <- app_assoc. reflexivity.
Qed.

Lemma rewind_suffix (p : pos) (back rest : list ascii) :
  before p = (rev back ++ rest)%list ->
  rewind p (List.length back) = {| before := rest; after := back |}.
Proof.
  intros E. unfold rewind. rewrite E.
  replace (List.length back) with (List.length (rev back) + 0)
    by (rewrite length_rev; lia).
  rewrite firstn_app_2, skipn_app, skipn_all2 by lia.
  replace (List.length (rev back) + 0 - List.length (rev back)) with 0 by lia.
  cbn [firstn skipn]. rewrite app_nil_r, rev_involutive. reflexivity.
Qed.

Lemma lookbehind_found (r : regex) (p : pos) (c : caps) (back rest : list ascii) :
  before p = (rev back ++ rest)%list ->
  run r {| before := rest; after := back |} c atEnd <> None ->
  lookbehind r p c = true.
Proof.
  intros E H. unfold lookbehind. apply existsb_exists.
  exists (List.length back). split.
  - apply in_seq. rewrite E, length_app, length_rev. lia.
  - rewrite (rewind_suffix p back rest E).
    destruct (run r _ c atEnd); [reflexivity | congruence].
Qed.

(** The position of a match, from the text in front of it. *)
Lemma position_after (p : pos) (front rest : string) :
  (rev (before p) ++ after p)%list = list_ascii_of_string (front ++ rest) ->
  List.length (before p) = String.length front ->
  before p = rev (list_ascii_of_string front).
Proof.
  intros S L. rewrite chars_app in S. apply same_length_prefix in S.
  - destruct S as [S _]. rewrite <- S, rev_involutive. reflexivity.
  - rewrite length_rev, length_list_ascii. exact L.
Qed.

(** X2.  A call or loop header written behind [//] on its line is never
    reported: no occurrence starts after a [//] that is followed by
    characters of the same line only. *)
Theorem occurrence_not_behind_line_comment
    (documentText front comment rest : string) (m : rmatch) :
  In m (matchAll significantCodeChangeRegex documentText) ->
  documentText = (front ++ "//" ++ comment ++ rest)%string ->
  forallb dot (list_ascii_of_string comment) = true ->
  index m <> String.length (front ++ "//" ++ comment).
Proof.
  intros H -> D E. apply matchAll_matches in H. destruct H as (p & q & c & M & -> & S).
  cbn [index] in E. apply matchAt_sound, sem_occurrence in M. destruct M as [LB _].
  replace (front ++ "//" ++ comment ++ rest)%string
    with ((front ++ "//" ++ comment) ++ rest)%string in S
    by (rewrite !append_assoc; reflexivity).
  apply position_after in S; [|exact E].
  rewrite chars_app, rev_app_distr in S.
  rewrite (@lookbehind_found _ p [] (list_ascii_of_string ("//" ++ comment))
             (rev (list_ascii_of_string front)) S) in LB; [discriminate|].
  cbn [append list_ascii_of_string run Lit after before].
  rewrite (iterate_chr_all dot) by (auto; cbn; lia). discriminate.
Qed.

Lemma occurrence_not_behind_line_comment_witness :
  ~ In 8 (map index (matchAll significantCodeChangeRegex "a(); // b()")).
Proof.
  intros H. apply in_map_iff in H. destruct H as (m & E & H).
  apply (@occurrence_not_behind_line_comment "a(); // b()" "a(); " " " "b()" m H);
    [reflexivity | reflexivity | exact E].
Defined.

Lemma conditional_behind (pm : pos) (c : caps) (w : ascii) (front : list ascii)
    (keyword : string) :
  nonWord w = true ->
  keyword = "if" \/ keyword = "switch" ->
  before pm = (rev (w :: list_ascii_of_string keyword) ++ front)%list ->
  lookbehind (Seq (Plus (Chr nonWord)) (Group 2 (Alt (Lit "if") (Lit "switch")))) pm c
  = true.
Proof.
  intros NW K E. eapply lookbehind_found; [exact E|].
  destruct K as [-> | ->]; cbn; rewrite NW; cbn; discriminate.
Qed.

(** X3.  An [if] or a [switch] written after a character that is not a
    word character is never taken for a call: no occurrence that starts
    right after such a character has the name [if] or [switch]. *)
Theorem conditional_not_reported
    (documentText front rest : string) (w : ascii) (m : rmatch) :
  In m (matchAll significantCodeChangeRegex documentText) ->
  documentText = (front ++ String w rest)%string ->
  nonWord w = true ->
  index m = S (String.length front) ->
  methodNameOf (text m) <> "if" /\ methodNameOf (text m) <> "switch".
Proof.
  intros H -> NW E. apply matchAll_matches in H. destruct H as (p & q & c & M & -> & S).
  cbn [index text] in *. apply matchAt_sound, sem_occurrence in M.
  destruct M as (_ & name & n & inner & pm & M1 & M & _ & Hname).
  rewrite (between_moved M), string_of_list_ascii_of_string.
  replace (front ++ String w rest)%string
    with ((front ++ String w "") ++ rest)%string in S
    by (rewrite append_assoc; reflexivity).
  apply position_after in S.
  2:{ rewrite E. clear. induction front as [|a front IH]; cbn; [|rewrite <- IH]; reflexivity. }
  rewrite chars_app, rev_app_distr in S. cbn [list_ascii_of_string rev app] in S.
  destruct Hname as [-> | [-> | (_ & I & LB)]].
  - rewrite methodNameOf_header by reflexivity. split; discriminate.
  - rewrite methodNameOf_header by reflexivity. split; discriminate.
  - rewrite methodNameOf_header by exact (isIdentifier_plain name I).
    assert (K : forall keyword, keyword = "if" \/ keyword = "switch" -> name <> keyword).
    { intros keyword K ->.
      rewrite (@conditional_behind pm [] w (rev (list_ascii_of_string front)) keyword NW K)
        in LB; [discriminate|].
      destruct M1 as [_ B]. rewrite B, S. cbn [rev]. rewrite <- app_assoc. reflexivity. }
    split; apply K; auto.
Qed.

Lemma conditional_not_reported_witness :
  methodNameOf "b()" <> "if" /\ methodNameOf "b()" <> "switch".
Proof.
  apply (@conditional_not_reported "a(); b()" "a();" "b()" " "
           {| index := 5; text := "b()"; groups := [(1, "b()")] |}).
  - vm_compute. right. left. reflexivity.
  - reflexivity.
  - reflexivity.
  - reflexivity.
Defined.

Lemma run_identifier_all (name : string) (bef : list ascii) (c : caps) :
  isIdentifier name = true ->
  run identifier {| before := bef; after := list_ascii_of_string name |} c atEnd
  = Some ({| before := (rev (list_ascii_of_string name) ++ bef)%list; after := [] |}, c).
Proof.
  destruct name as [|a name]; [discriminate|]. cbn [isIdentifier]. intros I.
  apply andb_true_iff in I. destruct I as [A I].
  unfold identifier. cbn [run list_ascii_of_string after before]. rewrite A.
  rewrite (iterate_chr_all identPart) by (auto; cbn; lia).
  cbn [rev]. rewrite <- app_assoc. reflexivity.
Qed.

(** ** Declarations *)

Lemma reps_moved (R : pos -> caps -> pos -> caps -> Prop) :
  (forall p c q c', R p c q c' -> exists l, moved p q l) ->
  forall p c q c', reps R p c q c' -> exists l, moved p q l.
Proof.
  intros HR p c q c' H. induction H as [p c | p c m cm q c' H1 _ _ IH].
  - exists []. apply moved_refl.
  - apply HR in H1. destruct H1 as (l1 & M1). destruct IH as (l2 & M2).
    exists (l1 ++ l2)%list. exact (moved_trans M1 M2).
Qed.

Lemma sem_moved (r : regex) :
  forall p c q c', sem r p c q c' -> exists l, moved p q l.
Proof.
  induction r as [f | | r1 IH1 r2 IH2 | r1 IH1 r2 IH2 | greedy r1 IH1 | n r1 IH1 | | r1 IH1];
    intros p c q c' H.
  - apply sem_chr in H. destruct H as (a & _ & M & _). exists [a]. exact M.
  - destruct H as [-> _]. exists []. apply moved_refl.
  - destruct H as (m & cm & H1 & H2).
    apply IH1 in H1. destruct H1 as (l1 & M1).
    apply IH2 in H2. destruct H2 as (l2 & M2).
    exists (l1 ++ l2)%list. exact (moved_trans M1 M2).
  - destruct H as [H | H]; [exact (IH1 _ _ _ _ H) | exact (IH2 _ _ _ _ H)].
  - exact (reps_moved IH1 H).
  - destruct H as (c0 & H & _). exact (IH1 _ _ _ _ H).
  - destruct H as [-> _]. exists []. apply moved_refl.
  - destruct H as [-> _]. exists []. apply moved_refl.
Qed.

Lemma reps_captures (R : pos -> caps -> pos -> caps -> Prop) :
  (forall p c q c', R p c q c' -> c' = c) ->
  forall p c q c', reps R p c q c' -> c' = c.
Proof.
  intros HR p c q c' H. induction H as [p c | p c m cm q c' H1 _ _ IH].
  - reflexivity.
  - apply HR in H1. congruence.
Qed.

(** Without a group, a match leaves the captures as they were. *)
Lemma sem_groupFree (r : regex) :
  groupFree r = true ->
  forall p c q c', sem r p c q c' -> c' = c.
Proof.
  induction r as [f | | r1 IH1 r2 IH2 | r1 IH1 r2 IH2 | greedy r1 IH1 | n r1 IH1 | | r1 IH1];
    cbn [groupFree]; intros G p c q c' H.
  - apply sem_chr in H. destruct H as (a & _ & _ & E). exact E.
  - destruct H as [_ E]. exact E.
  - apply andb_true_iff in G. destruct G as [G1 G2].
    destruct H as (m & cm & H1 & H2).
    apply (IH1 G1) in H1. apply (IH2 G2) in H2. congruence.
  - apply andb_true_iff in G. destruct G as [G1 G2].
    destruct H as [H | H]; [exact (IH1 G1 _ _ _ _ H) | exact (IH2 G2 _ _ _ _ H)].
  - exact (reps_captures (IH1 G) H).
  - discriminate.
  - destruct H as (_ & E & _). exact E.
  - destruct H as (_ & E & _). exact E.
Qed.

(** A match of [methodDeclarationRegex]: a text in front, the name that
    group 1 captures, and the parenthesized parameter list. *)
Lemma sem_declaration (p : pos) (c : caps) (q : pos) (c' : caps) :
  sem methodDeclarationRegex p c q c' ->
  exists pre name inner qn,
    moved p qn (pre ++ list_ascii_of_string name)
    /\ moved qn q ("("%char :: inner ++ [")"%char])
    /\ isIdentifier name = true
    /\ forallb (fun a => negb (isChar ")" a)) inner = true
    /\ c' = (1, name) :: c
    /\ lookbehind
         (Alts [ Lit "if"; Lit "switch"; Lit "while"; Lit "for";
                 Seqs [ Alts [Lit "public"; Lit "protected"; Lit "private"; Lit "return"];
                        Chr (isChar " "); identifier ] ])
         qn c' = false.
Proof.
  unfold methodDeclarationRegex. cbn [Seqs]. intros H.
  destruct H as (p1 & c1 & (-> & -> & _) & H).
  destruct H as (p2 & c2 & HM & H).
  pose proof (@sem_groupFree modifierPrefix eq_refl p c p2 c2 HM) as ->.
  apply sem_moved in HM. destruct HM as (l2 & M2).
  destruct H as (p3 & c3 & HG & H).
  assert (c3 = c) as -> by (eapply sem_groupFree; [|exact HG]; reflexivity).
  apply sem_moved in HG. destruct HG as (l3 & M3).
  destruct H as (p4 & c4 & HT & H).
  apply sem_plus_chr in HT. destruct HT as (t & ts & M4 & _ & _ & ->).
  destruct H as (p5 & c5 & HS & H).
  apply sem_plus_chr in HS. destruct HS as (s & ss & M5 & _ & _ & ->).
  destruct H as (p6 & c6 & (c0 & HN & ->) & H).
  apply sem_identifier in HN. destruct HN as (name & M6 & I & ->).
  destruct H as (p7 & c7 & (-> & -> & LB) & H).
  apply sem_parenthesized in H. destruct H as (inner & M7 & Fi & ->).
  rewrite (between_moved M6), string_of_list_ascii_of_string in LB |- *.
  exists (l2 ++ l3 ++ (t :: ts) ++ s :: ss)%list, name, inner, p6.
  split.
  { pose proof (moved_trans M2 (moved_trans M3 (moved_trans M4 (moved_trans M5 M6)))) as M.
    rewrite <- !app_assoc. exact M. }
  auto.
Qed.

(** X4.  The name of a declaration is the identifier in front of its
    parameter list; it never ends with [if], [switch], [while] or [for],
    and the text in front of it never ends with an access modifier or
    [return] and one space, so a statement [return f(x)] and a constructor
    after its access modifier are not declarations. *)
Theorem declaration_name_not_keyword (documentText : string) (m : rmatch) :
  In m (matchAll methodDeclarationRegex documentText) ->
  exists pre name inner,
    text m = (pre ++ name ++ "(" ++ inner ++ ")")%string
    /\ group1 m = name
    /\ isIdentifier name = true
    /\ forallb (fun a => negb (isChar ")" a)) (list_ascii_of_string inner) = true
    /\ (forall keyword, In keyword ["if"; "switch"; "while"; "for"] ->
        ~ endsWith name keyword)
    /\ (forall keyword, In keyword ["public"; "protected"; "private"; "return"] ->
        ~ endsWith pre (keyword ++ " ")).
Proof.
  intros H. apply matchAll_matches in H. destruct H as (p & q & c & M & -> & _).
  apply matchAt_sound, sem_declaration in M.
  destruct M as (pre & name & inner & qn & M1 & M2 & I & Fi & -> & LB).
  exists (string_of_list_ascii pre), name, (string_of_list_ascii inner).
  cbn [text]. rewrite (between_moved (moved_trans M1 M2)).
  rewrite list_ascii_of_string_of_list_ascii.
  split.
  { rewrite !string_of_chars_app, string_of_list_ascii_of_string. cbn [string_of_list_ascii].
    rewrite string_of_chars_app, append_assoc. reflexivity. }
  split; [reflexivity|]. split; [exact I|]. split; [exact Fi|].
  destruct M1 as [_ B]. split.
  - intros keyword Hin [front ->].
    rewrite (@lookbehind_found _ qn [(1, (front ++ keyword)%string)]
               (list_ascii_of_string keyword)
               (rev (list_ascii_of_string front) ++ rev pre ++ before p)%list) in LB;
      [discriminate | |].
    + rewrite B, chars_app, !rev_app_distr, <- !app_assoc. reflexivity.
    + destruct Hin as [<- | [<- | [<- | [<- | []]]]]; cbn; discriminate.
  - intros keyword Hin [front E].
    apply (f_equal list_ascii_of_string) in E.
    rewrite list_ascii_of_string_of_list_ascii, !chars_app in E. subst pre.
    rewrite (@lookbehind_found _ qn [(1, name)]
               (list_ascii_of_string keyword ++ " "%char :: list_ascii_of_string name)
               (rev (list_ascii_of_string front) ++ before p)%list) in LB;
      [discriminate | |].
    + rewrite B. cbn [list_ascii_of_string]. rewrite !rev_app_distr, <- !app_assoc.
      cbn [rev app]. rewrite <- !app_assoc. reflexivity.
    + destruct Hin as [<- | [<- | [<- | [<- | []]]]]; cbn -[identifier];
        rewrite (run_identifier_all name _ _ I); discriminate.
Qed.

Lemma declaration_name_not_keyword_witness :
  exists pre name inner,
    "void foo(int x)" = (pre ++ name ++ "(" ++ inner ++ ")")%string
    /\ group1 {| index := 0; text := "void foo(int x)"; groups := [(1, "foo")] |} = name
    /\ isIdentifier name = true
    /\ forallb (fun a => negb (isChar ")" a)) (list_ascii_of_string inner) = true
    /\ (forall keyword, In keyword ["if"; "switch"; "while"; "for"] ->
        ~ endsWith name keyword)
    /\ (forall keyword, In keyword ["public"; "protected"; "private"; "return"] ->
        ~ endsWith pre (keyword ++ " ")).
Proof.
  apply (@declaration_name_not_keyword Sample.fooBefore
           {| index := 0; text := "void foo(int x)"; groups := [(1, "foo")] |}).
  vm_compute. left. reflexivity.
Defined.

(** ** The history tracker over a whole cost list *)

Lemma sameCosts_refl (objs : store) : sameCosts objs objs.
Proof. intros r. auto. Qed.

Lemma sameCosts_trans (objs0 objs1 objs2 : store) :
  sameCosts objs0 objs1 -> sameCosts objs1 objs2 -> sameCosts objs0 objs2.
Proof.
  intros H1 H2 r. destruct (H1 r) as [A B], (H2 r) as [C D]. split; congruence.
Qed.

Lemma sameCosts_polynomial (objs0 objs : store) (r : ref) :
  sameCosts objs0 objs -> execPolynomial objs r = execPolynomial objs0 r.
Proof. intros H. unfold execPolynomial. destruct (H r) as [_ ->]. reflexivity. Qed.

Lemma historyOf_get (k : string) (hists : histories) (h : list ref) :
  JsMap.get k hists = Some h -> historyOf k hists = h.
Proof. unfold historyOf. intros ->. reflexivity. Qed.

(** One pass through the loop body: the costs and ids stay, a history gets
    at most the entry itself in front, and the entry's history is not empty
    afterwards. *)
Lemma recordCost_step (now : string) (objs : store) (hists : histories) (r : ref) :
  sameCosts objs (fst (recordCost now (objs, hists) r))
  /\ (forall k, exists added,
        historyOf k (snd (recordCost now (objs, hists) r)) = (added ++ historyOf k hists)%list
        /\ (added = [] \/ (added = [r] /\ k = id (objs r))))
  /\ historyOf (id (objs r)) (snd (recordCost now (objs, hists) r)) <> []
  /\ (wellFiled (objs, hists) -> wellFiled (recordCost now (objs, hists) r)).
Proof.
  destruct (recordCost_cases now objs hists r)
    as [[-> (head & rest & Hh & _)] | [-> _]]; cbn [fst snd].
  - split; [apply sameCosts_refl|]. split; [|split; [|auto]].
    + intros k. exists []. auto.
    + rewrite Hh. discriminate.
  - split; [apply write_timestamp_costs, sameCosts_refl|]. split; [|split].
    + intros k. rewrite historyOf_set. destruct (String.eqb _ k) eqn:E.
      * apply String.eqb_eq in E. subst k. exists [r]. auto.
      * exists []. auto.
    + rewrite historyOf_set, String.eqb_refl. discriminate.
    + intros [Hne Hfiled]. split; cbn [fst snd] in *.
      * intros k h. rewrite get_set. destruct (String.eqb _ k).
        -- intros [= <-]. discriminate.
        -- apply Hne.
      * assert (Hid : forall x, id (write r (setTimestamp now) objs x) = id (objs x)).
        { intros x. apply (write_timestamp_costs now r (sameCosts_refl objs)). }
        intros k head rest. rewrite get_set, Hid. destruct (String.eqb _ k) eqn:E.
        -- intros [= <- _]. apply String.eqb_eq, E.
        -- apply Hfiled.
Qed.

(** The loop over a cost list. *)
Lemma recordCosts_steps (now : string) (costs : list ref) :
  forall st,
  sameCosts (fst st) (fst (fold_left (recordCost now) costs st))
  /\ (forall k, exists added,
        historyOf k (snd (fold_left (recordCost now) costs st))
        = (added ++ historyOf k (snd st))%list
        /\ incl added costs
        /\ (forall r, In r added -> id (fst st r) = k))
  /\ (forall r, In r costs ->
        historyOf (id (fst st r)) (snd (fold_left (recordCost now) costs st)) <> [])
  /\ (wellFiled st -> wellFiled (fold_left (recordCost now) costs st)).
Proof.
  induction costs as [|r costs IH]; intros [objs hists]; cbn [fold_left fst snd].
  - split; [apply sameCosts_refl|]. split; [|split; [intros r []|auto]].
    intros k. exists []. split; [reflexivity|]. split; [apply incl_refl | intros r []].
  - destruct (recordCost_step now objs hists r) as (S1 & A1 & N1 & W1).
    destruct (recordCost now (objs, hists) r) as [objs1 hists1] eqn:E1.
    cbn [fst snd] in *.
    destruct (IH (objs1, hists1)) as (S2 & A2 & N2 & W2). cbn [fst snd] in *.
    split; [exact (sameCosts_trans S1 S2)|]. split; [|split].
    + intros k. destruct (A1 k) as (a1 & H1 & C1). destruct (A2 k) as (a2 & H2 & I2 & K2).
      exists (a2 ++ a1)%list. rewrite H2, H1, app_assoc. split; [reflexivity|]. split.
      * apply incl_app; [apply incl_tl, I2|].
        destruct C1 as [-> | [-> _]]; [intros x [] | intros x [<- | []]; left; reflexivity].
      * intros x Hx. apply in_app_or in Hx. destruct Hx as [Hx | Hx].
        -- rewrite <- (K2 x Hx). symmetry. apply S1.
        -- destruct C1 as [-> | [-> ->]]; [destruct Hx|].
           destruct Hx as [<- | []]. reflexivity.
    + intros x [<- | Hx].
      * destruct (A2 (id (objs r))) as (a2 & H2 & _). rewrite H2.
        intros C. apply app_eq_nil in C. destruct C as [_ C]. exact (N1 C).
      * replace (id (objs x)) with (id (objs1 x)) by apply S1. exact (N2 x Hx).
    + intros W. exact (W2 (W1 W)).
Qed.

Lemma recordCostLists_concat (now : string) (lists : JsMap.t (list ref)) :
  forall st,
  fold_left (fun st inferCost => fold_left (recordCost now) (snd inferCost) st) lists st
  = fold_left (recordCost now) (List.concat (map snd lists)) st.
Proof.
  induction lists as [|[f costs] lists IH]; intros st; [reflexivity|].
  cbn [fold_left map List.concat snd]. rewrite fold_left_app. apply IH.
Qed.

Lemma recordCost_settled (now : string) (M p : string) (objs : store) (hists : histories)
    (x : ref) :
  (id (objs x) = M -> execPolynomial objs x = p) ->
  settled M p (objs, hists) ->
  settled M p (recordCost now (objs, hists) x).
Proof.
  intros Hx (head & rest & Hh & Hp). cbn [fst snd] in *.
  destruct (recordCost_cases now objs hists x) as [[-> _] | [-> Hwhy]].
  - exists head, rest. auto.
  - assert (Hpoly : forall y, execPolynomial (write x (setTimestamp now) objs) y
                              = execPolynomial objs y).
    { intros y. apply sameCosts_polynomial, write_timestamp_costs, sameCosts_refl. }
    destruct (String.eqb (id (objs x)) M) eqn:E.
    + apply String.eqb_eq in E. exfalso. rewrite E, Hh in Hwhy.
      destruct Hwhy as [C | (head' & rest' & [= <- <-] & C)]; [discriminate|].
      apply C. rewrite Hp. symmetry. exact (Hx E).
    + exists head, rest. cbn [fst snd]. rewrite historyOf_set, E, Hpoly. auto.
Qed.

Lemma recordCosts_keep_settled (now : string) (M p : string) (costs : list ref) :
  forall st : store * histories,
  (forall x, In x costs -> id (fst st x) = M -> execPolynomial (fst st) x = p) ->
  settled M p st ->
  settled M p (fold_left (recordCost now) costs st).
Proof.
  induction costs as [|x costs IH]; intros [objs hists] Hall Hs; [exact Hs|].
  cbn [fold_left fst] in *.
  destruct (recordCost_step now objs hists x) as (S1 & _).
  pose proof (@recordCost_settled now M p objs hists x (Hall x (or_introl eq_refl)) Hs) as Hs1.
  destruct (recordCost now (objs, hists) x) as [objs1 hists1]. cbn [fst] in S1.
  apply IH; [|exact Hs1]. cbn [fst]. intros y Hy Hid.
  rewrite (sameCosts_polynomial y S1). apply Hall; [right; exact Hy|].
  rewrite <- Hid. symmetry. apply S1.
Qed.

(** After the loop, the history of every entry of the list is headed by
    an entry with the polynomial of that entry. *)
Lemma recordCosts_settled (now : string) (costs : list ref) :
  forall st : store * histories,
  oneCostPerId (fst st) costs ->
  forall r, In r costs ->
    settled (id (fst st r)) (execPolynomial (fst st) r)
      (fold_left (recordCost now) costs st).
Proof.
  induction costs as [|x costs IH]; intros [objs hists] Hone r Hr; [destruct Hr|].
  cbn [fold_left fst] in *.
  destruct (recordCost_step now objs hists x) as (S1 & _).
  destruct Hr as [<- | Hr].
  - assert (Hs1 : settled (id (objs x)) (execPolynomial objs x)
                    (recordCost now (objs, hists) x)).
    { destruct (recordCost_cases now objs hists x)
        as [[-> (head & rest & Hh & Hp)] | [-> _]].
      - exists head, rest. auto.
      - exists x, (historyOf (id (objs x)) hists). cbn [fst snd].
        rewrite historyOf_set, String.eqb_refl. split; [reflexivity|].
        apply sameCosts_polynomial, write_timestamp_costs, sameCosts_refl. }
    destruct (recordCost now (objs, hists) x) as [objs1 hists1]. cbn [fst] in S1.
    apply recordCosts_keep_settled; [|exact Hs1]. cbn [fst]. intros y Hy Hid.
    rewrite (sameCosts_polynomial y S1).
    apply Hone; [right; exact Hy | left; reflexivity|].
    rewrite <- Hid. symmetry. apply S1.
  - destruct (recordCost now (objs, hists) x) as [objs1 hists1]. cbn [fst] in S1.
    replace (id (objs r)) with (id (objs1 r)) by apply S1.
    rewrite <- (sameCosts_polynomial r S1).
    apply (IH (objs1, hists1)); [|exact Hr]. cbn [fst].
    intros a b Ha Hb Hid. rewrite !(sameCosts_polynomial _ S1).
    apply Hone; [right; exact Ha | right; exact Hb|].
    destruct (S1 a) as [<- _], (S1 b) as [<- _]. exact Hid.
Qed.

(** Where every entry meets the head of its history, the loop changes
    nothing. *)
Lemma recordCosts_unchanged (now : string) (costs : list ref) (st : store * histories) :
  (forall r, In r costs ->
     settled (id (fst st r)) (execPolynomial (fst st) r) st) ->
  fold_left (recordCost now) costs st = st.
Proof.
  induction costs as [|x costs IH]; intros Hall; [reflexivity|].
  cbn [fold_left]. destruct st as [objs hists]. cbn [fst] in *.
  destruct (recordCost_cases now objs hists x) as [[-> _] | [_ Hwhy]].
  - apply IH. intros r Hr. apply Hall. right. exact Hr.
  - exfalso. destruct (Hall x (or_introl eq_refl)) as (head & rest & Hh & Hp).
    cbn [fst snd] in *. rewrite Hh in Hwhy.
    destruct Hwhy as [C | (head' & rest' & [= <- <-] & C)]; [discriminate | exact (C Hp)].
Qed.

(** A history that is no longer after the loop: every entry filed under
    its id met a head with its own polynomial. *)
Lemma recordCosts_quiet (now : string) (M : string) (costs : list ref) :
  forall st : store * histories,
  List.length (historyOf M (snd (fold_left (recordCost now) costs st)))
  <= List.length (historyOf M (snd st)) ->
  forall r, In r costs -> id (fst st r) = M ->
    settled M (execPolynomial (fst st) r) st.
Proof.
  induction costs as [|x costs IH]; intros [objs hists] Hlen r Hr Hid; [destruct Hr|].
  cbn [fold_left fst snd] in *.
  destruct (recordCost_step now objs hists x) as (S1 & A1 & _).
  pose proof (recordCost_cases now objs hists x) as Hcases.
  destruct (recordCost now (objs, hists) x) as [objs1 hists1]. cbn [fst snd] in *.
  destruct (recordCosts_steps now costs (objs1, hists1)) as (_ & A2 & _). cbn [snd] in A2.
  destruct (A1 M) as (a1 & H1 & C1). destruct (A2 M) as (a2 & H2 & _).
  rewrite H2, H1, !length_app in Hlen.
  assert (a1 = []) as -> by (destruct a1; [reflexivity | cbn in Hlen; lia]).
  assert (a2 = []) as -> by (destruct a2; [reflexivity | cbn in Hlen; lia]).
  cbn [app] in H1, H2.
  destruct Hr as [<- | Hr].
  - destruct Hcases as [[_ (head & rest & Hh & Hp)] | [E _]].
    + exists head, rest. rewrite <- Hid. auto.
    + exfalso. injection E as _ E2. subst hists1.
      rewrite <- Hid, historyOf_set, String.eqb_refl in H1.
      apply (f_equal (@List.length ref)) in H1. cbn in H1. lia.
  - destruct (IH (objs1, hists1)) with (r := r) as (head & rest & Hh & Hp).
    + cbn [snd]. rewrite H2. lia.
    + exact Hr.
    + cbn [fst]. rewrite <- Hid. apply S1.
    + cbn [fst snd] in *. exists head, rest. cbn [fst snd]. rewrite <- H1. split; [exact Hh|].
      rewrite <- (sameCosts_polynomial head S1), <- (sameCosts_polynomial r S1). exact Hp.
Qed.

Lemma singleFile_update_state (now : string) (s : State) :
  (objects (SingleFile.updateInferCostHistory now s),
   inferCostHistories (SingleFile.updateInferCostHistory now s))
  = fold_left (recordCost now) (currentInferCost s) (objects s, inferCostHistories s).
Proof.
  unfold SingleFile.updateInferCostHistory, withHistories. cbn [objects inferCostHistories].
  symmetry. apply surjective_pairing.
Qed.

Lemma project_update_state (now : string) (s : State) :
  (objects (Project.updateInferCostHistory now s),
   inferCostHistories (Project.updateInferCostHistory now s))
  = fold_left (recordCost now) (allCosts s) (objects s, inferCostHistories s).
Proof.
  unfold Project.updateInferCostHistory, withHistories, allCosts.
  cbn [objects inferCostHistories]. rewrite recordCostLists_concat.
  symmetry. apply surjective_pairing.
Qed.

(** X5.  Histories that are non-empty and filed under the ids of their
    head entries stay so over any number of runs, in both revisions of the
    history update; a save handled after such runs, when it finds a
    snapshot and its classification returns, therefore returns as well: the
    assignment to the head of a history never meets an empty history. *)
Theorem histories_stay_filed (runs : list Run) (s : State) :
  wellFiled (objects s, inferCostHistories s) ->
  wellFiled (objects (analyseSingleFile runs s),
             inferCostHistories (analyseSingleFile runs s))
  /\ wellFiled (objects (analyseProject runs s),
                inferCostHistories (analyseProject runs s))
  /\ forall (diffLines : string -> string -> list LineDiff)
            (previous savedText : string) (causes : causeMap) (b : bool),
       previousText (analyseSingleFile runs s) = Some previous ->
       previous <> "" ->
       classification diffLines (analyseSingleFile runs s) previous savedText
       = Ok (causes, b) ->
       exists s', significantCodeChangeCheck diffLines (analyseSingleFile runs s) savedText
                  = Ok (b, s').
Proof.
  intros W.
  assert (W1 : wellFiled (objects (analyseSingleFile runs s),
                          inferCostHistories (analyseSingleFile runs s))).
  { revert s W. induction runs as [|run runs IH]; intros s W; [exact W|].
    unfold analyseSingleFile. cbn [fold_left]. apply IH.
    rewrite singleFile_update_state. apply recordCosts_steps. exact W. }
  split; [exact W1|]. split.
  - clear W1. revert s W. induction runs as [|run runs IH]; intros s W; [exact W|].
    unfold analyseProject. cbn [fold_left]. apply IH.
    rewrite project_update_state. apply recordCosts_steps. exact W.
  - intros diffLines previous savedText causes b Hprev Hne Hcls.
    destruct (@check_reports diffLines (analyseSingleFile runs s) previous savedText
                causes b Hprev Hne Hcls (proj1 W1)) as (s' & E & _).
    exists s'. exact E.
Qed.

Lemma histories_stay_filed_witness :
  wellFiled (Sample.heap, [("A.foo(int)", [1])])
  /\ wellFiled
       (objects (analyseSingleFile
                   [{| startedAt := "t1"; costList := [0; 3]; costLists := [] |}]
                   Sample.analysed),
        inferCostHistories (analyseSingleFile
                   [{| startedAt := "t1"; costList := [0; 3]; costLists := [] |}]
                   Sample.analysed)).
Proof.
  assert (W : wellFiled (objects Sample.analysed, inferCostHistories Sample.analysed)).
  { split; cbn.
    - intros k h. cbn -[String.eqb]. destruct (String.eqb "A.foo(int)" k); [|discriminate].
      intros [= E]. subst h. discriminate.
    - intros k head rest. cbn -[String.eqb].
      destruct (String.eqb "A.foo(int)" k) eqn:E; [|discriminate].
      intros [= E1 _]. subst head. apply String.eqb_eq, E. }
  split; [exact W|].
  exact (proj1 (histories_stay_filed
                  [{| startedAt := "t1"; costList := [0; 3]; costLists := [] |}]
                  Sample.analysed W)).
Defined.

(** X6.  After the history update every entry of the cost list finds at
    the head of the history of its id an entry with its own execution
    polynomial, provided the entries that share an id agree on the
    polynomial; this holds in the revision that walks the current cost
    list and in the one that walks the cost lists of all files. *)
Theorem history_head_shows_current_cost (now : string) (s : State) (r : ref) :
  (oneCostPerId (objects s) (currentInferCost s) ->
   In r (currentInferCost s) ->
   settled (id (objects s r)) (execPolynomial (objects s) r)
     (objects (SingleFile.updateInferCostHistory now s),
      inferCostHistories (SingleFile.updateInferCostHistory now s)))
  /\ (oneCostPerId (objects s) (allCosts s) ->
      In r (allCosts s) ->
      settled (id (objects s r)) (execPolynomial (objects s) r)
        (objects (Project.updateInferCostHistory now s),
         inferCostHistories (Project.updateInferCostHistory now s))).
Proof.
  split; intros Hone Hr.
  - rewrite singleFile_update_state.
    exact (@recordCosts_settled now (currentInferCost s)
             (objects s, inferCostHistories s) Hone r Hr).
  - rewrite project_update_state.
    exact (@recordCosts_settled now (allCosts s)
             (objects s, inferCostHistories s) Hone r Hr).
Qed.

(** X7.  Updating the histories a second time for the same cost lists
    changes nothing, whatever the time of the second update, provided the
    entries that share an id agree on the polynomial. *)
Theorem update_twice_is_update_once (now later : string) (s : State) :
  (oneCostPerId (objects s) (currentInferCost s) ->
   SingleFile.updateInferCostHistory later (SingleFile.updateInferCostHistory now s)
   = SingleFile.updateInferCostHistory now s)
  /\ (oneCostPerId (objects s) (allCosts s) ->
      Project.updateInferCostHistory later (Project.updateInferCostHistory now s)
      = Project.updateInferCostHistory now s).
Proof.
  assert (Again : forall costs (st : store * histories),
            oneCostPerId (fst st) costs ->
            fold_left (recordCost later) costs (fold_left (recordCost now) costs st)
            = fold_left (recordCost now) costs st).
  { intros costs st Hone. apply recordCosts_unchanged. intros r Hr.
    destruct (recordCosts_steps now costs st) as (S1 & _).
    replace (id (fst (fold_left (recordCost now) costs st) r)) with (id (fst st r))
      by (symmetry; apply S1).
    rewrite (sameCosts_polynomial r S1).
    exact (@recordCosts_settled now costs st Hone r Hr). }
  split; intros Hone.
  - unfold SingleFile.updateInferCostHistory.
    set (st1 := fold_left (recordCost now) (currentInferCost s)
                  (objects s, inferCostHistories s)).
    change (currentInferCost (withHistories st1 s)) with (currentInferCost s).
    change (objects (withHistories st1 s), inferCostHistories (withHistories st1 s))
      with (fst st1, snd st1).
    rewrite <- surjective_pairing. subst st1.
    rewrite (Again (currentInferCost s) (objects s, inferCostHistories s) Hone).
    reflexivity.
  - unfold Project.updateInferCostHistory. rewrite !recordCostLists_concat.
    set (st1 := fold_left (recordCost now) (List.concat (map snd (inferCosts s)))
                  (objects s, inferCostHistories s)).
    change (inferCosts (withHistories st1 s)) with (inferCosts s).
    change (objects (withHistories st1 s), inferCostHistories (withHistories st1 s))
      with (fst st1, snd st1).
    rewrite <- surjective_pairing. subst st1.
    rewrite (Again (List.concat (map snd (inferCosts s)))
               (objects s, inferCostHistories s) Hone).
    reflexivity.
Qed.

Lemma twoMethods_oneCostPerId : oneCostPerId Sample.heap [0; 3].
Proof.
  intros r r' [<- | [<- | []]] [<- | [<- | []]] H; try reflexivity; discriminate H.
Qed.

Lemma history_head_shows_current_cost_witness :
  settled "A.foo(int)" "n"
    (objects (SingleFile.updateInferCostHistory "t2" Reports.twoMethods),
     inferCostHistories (SingleFile.updateInferCostHistory "t2" Reports.twoMethods))
  /\ settled "A.other()" "1"
       (objects (Project.updateInferCostHistory "t2" Reports.twoMethods),
        inferCostHistories (Project.updateInferCostHistory "t2" Reports.twoMethods)).
Proof.
  split.
  - apply (proj1 (history_head_shows_current_cost "t2" Reports.twoMethods 0)).
    + exact twoMethods_oneCostPerId.
    + left. reflexivity.
  - apply (proj2 (history_head_shows_current_cost "t2" Reports.twoMethods 3)).
    + exact twoMethods_oneCostPerId.
    + right. left. reflexivity.
Defined.

Lemma update_twice_is_update_once_witness :
  SingleFile.updateInferCostHistory "t3"
    (SingleFile.updateInferCostHistory "t2" Reports.twoMethods)
  = SingleFile.updateInferCostHistory "t2" Reports.twoMethods
  /\ Project.updateInferCostHistory "t3"
       (Project.updateInferCostHistory "t2" Reports.twoMethods)
     = Project.updateInferCostHistory "t2" Reports.twoMethods.
Proof.
  split.
  - exact (proj1 (update_twice_is_update_once "t2" "t3" Reports.twoMethods)
             twoMethods_oneCostPerId).
  - exact (proj2 (update_twice_is_update_once "t2" "t3" Reports.twoMethods)
             twoMethods_oneCostPerId).
Defined.

(** X8.  No run takes an entry out of a history or moves one: the history
    stored under an id before any number of runs is the tail of the history
    stored under it afterwards, in both revisions. *)
Theorem history_only_grows (runs : list Run) (s : State) (k : string) :
  (exists added,
     historyOf k (inferCostHistories (analyseSingleFile runs s))
     = (added ++ historyOf k (inferCostHistories s))%list)
  /\ (exists added,
        historyOf k (inferCostHistories (analyseProject runs s))
        = (added ++ historyOf k (inferCostHistories s))%list).
Proof.
  split.
  - revert s. induction runs as [|run runs IH]; intros s; [exists []; reflexivity|].
    unfold analyseSingleFile. cbn [fold_left].
    destruct (IH (SingleFile.updateInferCostHistory (startedAt run) (install run s)))
      as (a2 & H2).
    unfold analyseSingleFile in H2. rewrite H2.
    change (inferCostHistories
              (SingleFile.updateInferCostHistory (startedAt run) (install run s)))
      with (snd (objects (SingleFile.updateInferCostHistory (startedAt run) (install run s)),
                 inferCostHistories
                   (SingleFile.updateInferCostHistory (startedAt run) (install run s)))).
    rewrite singleFile_update_state.
    destruct (recordCosts_steps (startedAt run) (currentInferCost (install run s))
                (objects (install run s), inferCostHistories (install run s)))
      as (_ & A & _).
    destruct (A k) as (a1 & H1 & _). rewrite H1. exists (a2 ++ a1)%list.
    rewrite app_assoc. reflexivity.
  - revert s. induction runs as [|run runs IH]; intros s; [exists []; reflexivity|].
    unfold analyseProject. cbn [fold_left].
    destruct (IH (Project.updateInferCostHistory (startedAt run) (install run s)))
      as (a2 & H2).
    unfold analyseProject in H2. rewrite H2.
    change (inferCostHistories
              (Project.updateInferCostHistory (startedAt run) (install run s)))
      with (snd (objects (Project.updateInferCostHistory (startedAt run) (install run s)),
                 inferCostHistories
                   (Project.updateInferCostHistory (startedAt run) (install run s)))).
    rewrite project_update_state.
    destruct (recordCosts_steps (startedAt run) (allCosts (install run s))
                (objects (install run s), inferCostHistories (install run s)))
      as (_ & A & _).
    destruct (A k) as (a1 & H1 & _). rewrite H1. exists (a2 ++ a1)%list.
    rewrite app_assoc. reflexivity.
Qed.

(** X9.  Two entries of a cost list that are filed under the same id with
    different execution polynomials make the history of that id longer at
    every update, although no cost has changed since the last one. *)
Theorem shared_id_grows_history (now : string) (s : State) (r1 r2 : ref) :
  id (objects s r1) = id (objects s r2) ->
  execPolynomial (objects s) r1 <> execPolynomial (objects s) r2 ->
  (In r1 (currentInferCost s) -> In r2 (currentInferCost s) ->
   List.length (historyOf (id (objects s r1)) (inferCostHistories s))
   < List.length (historyOf (id (objects s r1))
                    (inferCostHistories (SingleFile.updateInferCostHistory now s))))
  /\ (In r1 (allCosts s) -> In r2 (allCosts s) ->
      List.length (historyOf (id (objects s r1)) (inferCostHistories s))
      < List.length (historyOf (id (objects s r1))
                       (inferCostHistories (Project.updateInferCostHistory now s)))).
Proof.
  intros Hid Hne.
  assert (Grows : forall costs,
            In r1 costs -> In r2 costs ->
            List.length (historyOf (id (objects s r1)) (inferCostHistories s))
            < List.length
                (historyOf (id (objects s r1))
                   (snd (fold_left (recordCost now) costs
                           (objects s, inferCostHistories s))))).
  { intros costs H1 H2. apply Nat.nle_gt. intros Hle.
    pose proof (@recordCosts_quiet now (id (objects s r1)) costs
                  (objects s, inferCostHistories s) Hle) as Q. cbn [fst] in Q.
    destruct (Q r1 H1 eq_refl) as (head & rest & Hh & Hp).
    destruct (Q r2 H2 (eq_sym Hid)) as (head' & rest' & Hh' & Hp').
    rewrite Hh in Hh'. injection Hh' as <- _. congruence. }
  split; intros H1 H2.
  - specialize (Grows (currentInferCost s) H1 H2).
    rewrite <- singleFile_update_state in Grows. exact Grows.
  - specialize (Grows (allCosts s) H1 H2).
    rewrite <- project_update_state in Grows. exact Grows.
Qed.

Lemma shared_id_grows_history_witness :
  List.length (historyOf "A.foo(int)" (inferCostHistories Reports.sharedId))
  < List.length (historyOf "A.foo(int)"
                   (inferCostHistories
                      (SingleFile.updateInferCostHistory "t2" Reports.sharedId))).
Proof.
  apply (proj1 (@shared_id_grows_history "t2" Reports.sharedId 0 2 eq_refl
                  ltac:(discriminate))).
  - left. reflexivity.
  - right. left. reflexivity.
Defined.

(** ** What the loop over the segments keeps *)

Section ClassifierInvariant.

Variable typeExtensions : JsMap.t string.
Variables methodWhitelist nonConstantMethods : list string.

(** A property of the cause map and the flag that recording a cause
    keeps. *)
Variable kept : causeMap * bool -> Prop.
Hypothesis kept_addCause :
  forall containingMethod occurrence causes flag,
  kept (causes, flag) -> kept (addCause containingMethod occurrence causes, true).

Lemma checkOccurrences_kept (partValue : string) (matches : list string) :
  forall (containingMethod : string) (causes : causeMap) (flag : bool) (st' : scanState),
  foldM (checkOccurrence typeExtensions methodWhitelist nonConstantMethods partValue)
    matches (containingMethod, causes, flag) = Ok st' ->
  kept (causes, flag) ->
  kept (snd (fst st'), snd st').
Proof.
  induction matches as [|occurrence matches IH]; intros containingMethod causes flag st' E K.
  - injection E as <-. exact K.
  - cbn [foldM] in E. unfold checkOccurrence at 1 in E.
    destruct (lastDeclaration typeExtensions _ containingMethod) as [cm|]; [|discriminate].
    cbn [bind] in E.
    destruct (isCause methodWhitelist nonConstantMethods (methodNameOf occurrence)).
    + apply (IH _ _ _ _ E). exact (kept_addCause cm occurrence K).
    + apply (IH _ _ _ _ E). exact K.
Qed.

Lemma checkPart_kept (earlier : list LineDiff) (part : LineDiff)
    (acc acc' : causeMap * bool) :
  checkPart typeExtensions methodWhitelist nonConstantMethods earlier part acc = Ok acc' ->
  kept acc -> kept acc'.
Proof.
  unfold checkPart. intros E K. destruct (isChange part); [|injection E as <-; exact K].
  destruct (occurrences part) as [|occurrence matches]; [injection E as <-; exact K|].
  destruct (foldM _ earlier "") as [cm|]; [|discriminate]. cbn [bind] in E.
  destruct (foldM _ (occurrence :: matches) _) as [st|] eqn:E1; [|discriminate].
  cbn [bind] in E. injection E as <-.
  eapply checkOccurrences_kept; [exact E1|]. destruct acc. exact K.
Qed.

Lemma checkParts_kept (later : list LineDiff) :
  forall (earlier : list LineDiff) (acc acc' : causeMap * bool),
  checkParts typeExtensions methodWhitelist nonConstantMethods earlier later acc = Ok acc' ->
  kept acc -> kept acc'.
Proof.
  induction later as [|part later IH]; intros earlier acc acc' E K.
  - injection E as <-. exact K.
  - cbn [checkParts] in E.
    destruct (checkPart _ _ _ earlier part acc) as [acc1|] eqn:E1; [|discriminate].
    cbn [bind] in E. eapply IH; [exact E|]. eapply checkPart_kept; eauto.
Qed.

End ClassifierInvariant.

Lemma get_nonempty (V : Type) (m : JsMap.t V) :
  m <> [] -> exists k v, JsMap.get k m = Some v.
Proof.
  destruct m as [|[k v] m]; [congruence|]. intros _. exists k, v.
  cbn [JsMap.get]. rewrite String.eqb_refl. reflexivity.
Qed.

Lemma set_nonempty (V : Type) (k : string) (v : V) (m : JsMap.t V) : JsMap.set k v m <> [].
Proof.
  destruct m as [|[k' v'] m]; cbn [JsMap.set]; [discriminate|].
  destruct (String.eqb k' k); discriminate.
Qed.

Lemma tidy_addCause (containingMethod occurrence : string) (causes : causeMap)
    (flag : bool) :
  tidy (causes, flag) -> tidy (addCause containingMethod occurrence causes, true).
Proof.
  intros [Hflag Hlists]. cbn [fst snd] in *. unfold addCause.
  destruct (JsMap.get containingMethod causes) as [causeMethods|] eqn:G.
  - destruct (Js.includes causeMethods occurrence) eqn:I.
    + split; cbn [fst snd]; [|exact Hlists]. split; [|reflexivity].
      intros _ ->. discriminate.
    + split; cbn [fst snd].
      * split; [intros _; apply set_nonempty | reflexivity].
      * intros k l. rewrite get_set. destruct (String.eqb containingMethod k); [|apply Hlists].
        intros [= <-]. split; [destruct causeMethods; discriminate|].
        destruct (Hlists _ _ G) as [_ N]. apply includes_not_In in I.
        apply NoDup_app; [exact N | repeat constructor; auto |].
        intros x Hx [<- | []]. exact (I Hx).
  - split; cbn [fst snd].
    + split; [intros _; apply set_nonempty | reflexivity].
    + intros k l. rewrite get_set. destruct (String.eqb containingMethod k); [|apply Hlists].
      intros [= <-]. split; [discriminate | repeat constructor; auto].
Qed.

(** X10.  A classification that returns hands back a cause map in which
    every list has at least one occurrence and none twice, and the flag
    [isSignificant] is set exactly when the map is not empty. *)
Theorem cause_lists_nonempty_distinct
    (typeExtensions : JsMap.t string) (methodWhitelist nonConstantMethods : list string)
    (diffText : list LineDiff) (causes : causeMap) (isSignificant : bool) :
  classify typeExtensions methodWhitelist nonConstantMethods diffText
  = Ok (causes, isSignificant) ->
  (isSignificant = true <-> causes <> [])
  /\ forall containingMethod causeMethods,
       JsMap.get containingMethod causes = Some causeMethods ->
       causeMethods <> [] /\ NoDup causeMethods.
Proof.
  unfold classify. intros E.
  apply (@checkParts_kept typeExtensions methodWhitelist nonConstantMethods tidy
           tidy_addCause diffText [] (JsMap.empty, false) (causes, isSignificant) E).
  split; cbn [fst snd].
  - split; [discriminate | intros C; exfalso; apply C; reflexivity].
  - intros k l. discriminate.
Qed.

Lemma cause_lists_nonempty_distinct_witness :
  (true = true <-> [("foo(int)", ["baz()"])] <> [])
  /\ forall containingMethod causeMethods,
       JsMap.get containingMethod [("foo(int)", ["baz()"])] = Some causeMethods ->
       causeMethods <> [] /\ NoDup causeMethods.
Proof.
  apply (@cause_lists_nonempty_distinct [] [] ["baz"] Sample.fooDiff).
  vm_compute. reflexivity.
Defined.

(** ** The whitelist commands *)

Lemma iterate_chr_to_end (f : ascii -> bool) (k : pos -> caps -> option (pos * caps)) :
  forall (l bef : list ascii) (c : caps) (fuel : nat) (res : pos * caps),
  forallb f l = true -> List.length l <= fuel ->
  k {| before := (rev l ++ bef)%list; after := [] |} c = Some res ->
  iterate (run (Chr f)) true k fuel {| before := bef; after := l |} c = Some res.
Proof.
  induction l as [|a l IH]; intros bef c fuel res F L K.
  - destruct fuel; cbn [iterate run after orelse]; exact K.
  - destruct fuel as [|fuel]; [cbn in L; lia|].
    cbn [forallb] in F. apply andb_true_iff in F. destruct F as [Fa F].
    cbn [iterate run after before]. rewrite Fa. cbn [after List.length].
    replace (Nat.ltb (List.length l) (S (List.length l))) with true
      by (symmetry; apply Nat.ltb_lt; lia).
    match goal with
    | |- orelse ?X _ = _ => assert (HX : X = Some res)
    end.
    { apply IH; [exact F | cbn in L; lia|].
      cbn [rev] in K. rewrite <- app_assoc in K. exact K. }
    rewrite HX. reflexivity.
Qed.

Lemma matchesFrom_here (r : regex) (fuel : nat) (p : pos) :
  run r p [] atLineEnd <> None -> matchesFrom r fuel p = true.
Proof.
  intros H. destruct fuel; cbn [matchesFrom]; destruct (run r p [] atLineEnd);
    congruence.
Qed.

Lemma matchesFrom_found (r : regex) :
  forall (fuel : nat) (p : pos),
  matchesFrom r fuel p = true ->
  exists p',
    (rev (before p') ++ after p')%list = (rev (before p) ++ after p)%list
    /\ run r p' [] atLineEnd <> None.
Proof.
  induction fuel as [|fuel IH]; intros p H; cbn [matchesFrom] in H.
  - destruct (run r p [] atLineEnd) eqn:E; [|discriminate].
    exists p. split; [reflexivity | congruence].
  - destruct (run r p [] atLineEnd) eqn:E.
    + exists p. split; [reflexivity | congruence].
    + destruct (advance p) as [p1|] eqn:A; [|discriminate].
      apply IH in H. destruct H as (p' & S & R). exists p'. split; [|exact R].
      rewrite S. exact (@advance_subject p p1 A).
Qed.

Lemma dot_not_terminator (l : list ascii) (a : ascii) :
  forallb dot l = true -> In a l -> isLineTerminator a = false.
Proof.
  intros F H. rewrite forallb_forall in F. specialize (F a H).
  unfold dot in F. destruct (isLineTerminator a); [discriminate | reflexivity].
Qed.

(** X11.  A name of one line passes the test of [addMethodToWhitelist]
    exactly when it is a letter, [_] or [$] followed by at least one
    letter, digit or [_]: a name of one character is refused, and so is a
    name with [$] after its first character. *)
Theorem valid_method_name (methodName : string) :
  forallb dot (list_ascii_of_string methodName) = true ->
  (matchesLine methodNameRegex methodName = true <->
   exists a rest,
     methodName = String a rest /\ identStart a = true /\ rest <> ""
     /\ forallb identPart (list_ascii_of_string rest) = true).
Proof.
  intros D. split.
  - intros H. apply matchesFrom_found in H. destruct H as (p & S & R).
    cbn [start before after rev app] in S.
    destruct (run methodNameRegex p [] atLineEnd) as [res|] eqn:E; [|congruence].
    apply run_sound in E. destruct E as (q & c' & Hsem & Hend).
    unfold methodNameRegex in Hsem. cbn [Seqs] in Hsem.
    destruct Hsem as (p1 & c1 & (-> & -> & BOL) & p2 & c2 & HC & HP).
    apply sem_chr in HC. destruct HC as (a & Fa & M1 & ->).
    apply sem_plus_chr in HP. destruct HP as (b & l & M2 & Fb & Fl & ->).
    pose proof (moved_trans M1 M2) as [A _]. cbn [app] in A.
    assert (B : before p = []).
    { destruct (before p) as [|x bef]; [reflexivity|]. exfalso.
      rewrite (dot_not_terminator _ x D) in BOL; [discriminate|].
      rewrite <- S. apply in_or_app. left. apply in_rev. rewrite rev_involutive.
      left. reflexivity. }
    rewrite B in S. cbn [rev app] in S.
    assert (Q : after q = []).
    { destruct (after q) as [|y rest] eqn:Aq; [reflexivity|]. exfalso.
      unfold atLineEnd in Hend. rewrite Aq in Hend.
      rewrite (dot_not_terminator _ y D) in Hend; [discriminate|].
      rewrite <- S, A. right. right. apply in_or_app. right. left. reflexivity. }
    rewrite Q, app_nil_r in A. rewrite A in S.
    exists a, (String b (string_of_list_ascii l)).
    split; [|split; [exact Fa | split; [discriminate|]]].
    + rewrite <- (string_of_list_ascii_of_string methodName), <- S. reflexivity.
    + cbn [list_ascii_of_string forallb].
      rewrite list_ascii_of_string_of_list_ascii, Fb, Fl. reflexivity.
  - intros (a & rest & -> & Fa & Hne & Fr).
    destruct rest as [|b rest]; [congruence|].
    cbn [list_ascii_of_string forallb] in Fr. apply andb_true_iff in Fr.
    destruct Fr as [Fb Fr].
    apply matchesFrom_here. unfold methodNameRegex, Plus.
    cbn [Seqs run start list_ascii_of_string before after]. rewrite Fa.
    cbn [run after before]. rewrite Fb. cbn [after].
    erewrite (iterate_chr_to_end identPart); [discriminate | exact Fr | cbn; lia |].
    reflexivity.
Qed.

Lemma valid_method_name_witness :
  matchesLine methodNameRegex "baz" = true <->
  exists a rest,
    "baz" = String a rest /\ identStart a = true /\ rest <> ""
    /\ forallb identPart (list_ascii_of_string rest) = true.
Proof.
  apply (valid_method_name "baz"). reflexivity.
Defined.

(** X12.  A method whose name is a single character cannot be put on the
    whitelist: [addMethodToWhitelist] refuses the name and leaves the
    state as it is. *)
Theorem one_character_name_not_whitelisted (a : ascii) (s : State) :
  addMethodToWhitelist (String a "") s = s.
Proof.
  unfold addMethodToWhitelist, matchesLine, methodNameRegex, Plus.
  cbn [String.length matchesFrom Seqs run start list_ascii_of_string before after advance].
  destruct (identStart a); cbn [run after]; destruct (isLineTerminator a); reflexivity.
Qed.

(** X13.  After [addMethodToWhitelist] with a name that passes its test,
    the name is on the whitelist, once if the list had no name twice, the
    names that were on it are still there, and the condition of line 134
    no longer holds for the name: its calls are not significant, whatever
    the registry holds. *)
Theorem added_name_is_whitelisted
    (methodName : string) (s : State) (registry : list string) :
  matchesLine methodNameRegex methodName = true ->
  In methodName (methodWhitelist (addMethodToWhitelist methodName s))
  /\ incl (methodWhitelist s) (methodWhitelist (addMethodToWhitelist methodName s))
  /\ (NoDup (methodWhitelist s) ->
      NoDup (methodWhitelist (addMethodToWhitelist methodName s)))
  /\ isCause (methodWhitelist (addMethodToWhitelist methodName s)) registry methodName
     = false.
Proof.
  intros V. unfold addMethodToWhitelist. rewrite V. cbn [negb].
  destruct (Js.includes (methodWhitelist s) methodName) eqn:I.
  - split; [apply includes_In, I|]. split; [apply incl_refl|]. split; [auto|].
    unfold isCause. rewrite I. reflexivity.
  - cbn [methodWhitelist withMethodWhitelist].
    assert (Hin : In methodName (methodWhitelist s ++ [methodName])).
    { apply in_or_app. right. left. reflexivity. }
    split; [exact Hin|]. split; [apply incl_appl, incl_refl|]. split.
    + intros N. apply NoDup_app; [exact N | repeat constructor; auto |].
      apply includes_not_In in I. intros x Hx [<- | []]. exact (I Hx).
    + unfold isCause. apply includes_In in Hin. rewrite Hin. reflexivity.
Qed.

Lemma added_name_is_whitelisted_witness :
  In "baz" (methodWhitelist (addMethodToWhitelist "baz" Sample.analysed))
  /\ incl (methodWhitelist Sample.analysed)
          (methodWhitelist (addMethodToWhitelist "baz" Sample.analysed))
  /\ (NoDup (methodWhitelist Sample.analysed) ->
      NoDup (methodWhitelist (addMethodToWhitelist "baz" Sample.analysed)))
  /\ isCause (methodWhitelist (addMethodToWhitelist "baz" Sample.analysed))
       ["baz"; "other"] "baz"
     = false.
Proof.
  apply (@added_name_is_whitelisted "baz" Sample.analysed ["baz"; "other"]).
  reflexivity.
Defined.

Lemma filter_without (name : string) (l : list string) :
  ~ In name l -> filter (fun method => negb (String.eqb method name)) l = l.
Proof.
  induction l as [|x l IH]; intros H; [reflexivity|]. cbn [filter].
  destruct (String.eqb x name) eqn:E.
  - apply String.eqb_eq in E. exfalso. apply H. left. exact E.
  - cbn [negb]. rewrite IH; [reflexivity|]. intros C. apply H. right. exact C.
Qed.

(** X14.  [removeMethodFromWhitelist] takes every occurrence of the name
    off the whitelist and keeps the other names in their order; after
    [addMethodToWhitelist] of the same name it gives the whitelist that it
    gives without the addition, and for a name that was not on the list
    the state is the one before the addition. *)
Theorem remove_undoes_add (methodName : string) (s : State) :
  ~ In methodName (methodWhitelist (removeMethodFromWhitelist methodName s))
  /\ (forall other, other <> methodName ->
        count_occ string_dec (methodWhitelist (removeMethodFromWhitelist methodName s)) other
        = count_occ string_dec (methodWhitelist s) other)
  /\ removeMethodFromWhitelist methodName (addMethodToWhitelist methodName s)
     = removeMethodFromWhitelist methodName s
  /\ (~ In methodName (methodWhitelist s) ->
      removeMethodFromWhitelist methodName (addMethodToWhitelist methodName s) = s).
Proof.
  assert (Again : removeMethodFromWhitelist methodName (addMethodToWhitelist methodName s)
                  = removeMethodFromWhitelist methodName s).
  { unfold addMethodToWhitelist.
    destruct (negb (matchesLine methodNameRegex methodName)); [reflexivity|].
    destruct (Js.includes (methodWhitelist s) methodName); [reflexivity|].
    unfold removeMethodFromWhitelist, withMethodWhitelist. cbn.
    rewrite filter_app. cbn [filter]. rewrite String.eqb_refl. cbn [negb].
    rewrite app_nil_r. reflexivity. }
  split; [|split; [|split]].
  - cbn [removeMethodFromWhitelist methodWhitelist withMethodWhitelist].
    intros H. apply filter_In in H. destruct H as [_ H].
    rewrite String.eqb_refl in H. discriminate.
  - intros other Hne. cbn [removeMethodFromWhitelist methodWhitelist withMethodWhitelist].
    induction (methodWhitelist s) as [|x l IH]; [reflexivity|]. cbn [filter].
    destruct (String.eqb x methodName) eqn:E; cbn [negb].
    + apply String.eqb_eq in E. subst x.
      rewrite count_occ_cons_neq by congruence. exact IH.
    + destruct (string_dec x other) as [->|Hx].
      * rewrite !count_occ_cons_eq by reflexivity. rewrite IH. reflexivity.
      * rewrite !count_occ_cons_neq by exact Hx. exact IH.
  - exact Again.
  - intros H. rewrite Again. unfold removeMethodFromWhitelist.
    rewrite (@filter_without methodName (methodWhitelist s) H). destruct s. reflexivity.
Qed.

Lemma remove_undoes_add_witness :
  removeMethodFromWhitelist "baz" (addMethodToWhitelist "baz" Sample.analysed)
  = Sample.analysed.
Proof.
  apply (proj2 (proj2 (proj2 (remove_undoes_add "baz" Sample.analysed)))).
  intros [].
Defined.

(** ** Reading the report *)

Lemma search_char_app (c : ascii) (s t : string) :
  Js.search (String c "") s = None -> Js.search (String c "") t = None ->
  Js.search (String c "") (s ++ t) = None.
Proof.
  induction s as [|a s IH]; intros Hs Ht; [exact Ht|].
  apply search_char_cons in Hs. destruct Hs as [Hne Hs].
  cbn [append Js.search]. rewrite prefix_char.
  destruct (ascii_dec c a) as [->|_]; [congruence|].
  rewrite (IH Hs Ht). reflexivity.
Qed.

(** Without the separator in it, a text is one piece. *)
Lemma split_go_none (c : ascii) (t : string) :
  forall acc,
  Js.search (String c "") t = None ->
  Js.split_go (String c "") 0 acc t = [Js.rev_string "" (Js.rev_string acc t)].
Proof.
  induction t as [|a t IH]; intros acc H; [reflexivity|].
  apply search_char_cons in H. destruct H as [Hne H].
  cbn [Js.split_go]. rewrite prefix_char.
  destruct (ascii_dec c a) as [->|_]; [congruence|].
  rewrite (IH (String a acc) H). reflexivity.
Qed.

(** The text after the last separator is the last piece. *)
Lemma split_go_last (c : ascii) (tail : string) :
  Js.search (String c "") tail = None ->
  forall s acc,
  last (Js.split_go (String c "") 0 acc (s ++ String c tail)) "" = tail.
Proof.
  intros H. induction s as [|a s IH]; intros acc.
  - cbn [append Js.split_go]. rewrite prefix_char.
    destruct (ascii_dec c c) as [_|n]; [|congruence].
    cbn [String.length Nat.sub]. rewrite (@split_go_none c tail "" H).
    cbn [last Js.rev_string]. apply rev_string_involutive.
  - cbn [append Js.split_go]. rewrite prefix_char.
    destruct (ascii_dec c a) as [_|_].
    + cbn [String.length Nat.sub].
      destruct (split_go_first c (s ++ String c tail) "") as (piece & rest & E).
      specialize (IH ""). rewrite E in IH |- *. exact IH.
    + apply IH.
Qed.

(** X15.  The name under which the cost list of a file is kept is the
    text between the last [/] of its path and the first [.] after it:
    files of the same base name in different directories, or with
    different extensions, are kept under one name. *)
Theorem source_file_name_is_base (directory base extension : string) :
  Js.search "/" base = None ->
  Js.search "." base = None ->
  Js.search "/" extension = None ->
  getSourceFileName (directory ++ "/" ++ base ++ "." ++ extension) = base.
Proof.
  intros B1 B2 E. unfold getSourceFileName, Js.split.
  change ("/" ++ base ++ "." ++ extension)%string
    with (String "/" (base ++ String "." extension)).
  rewrite split_go_last.
  - rewrite split_go_before by exact B2. cbn [hd]. apply rev_string_involutive.
  - apply search_char_app; [exact B1|].
    cbn [Js.search]. rewrite prefix_char.
    destruct (ascii_dec "/" "."); [discriminate|]. rewrite E. reflexivity.
Qed.

Lemma source_file_name_is_base_witness :
  getSourceFileName "/home/a/src/Foo.java" = "Foo"
  /\ getSourceFileName "/home/a/test/Foo.class.bak" = "Foo".
Proof.
  split.
  - apply (@source_file_name_is_base "/home/a/src" "Foo" "java"); reflexivity.
  - apply (@source_file_name_is_base "/home/a/test" "Foo" "class.bak"); reflexivity.
Defined.

Lemma insertBy_In (A : Type) (key : A -> Z) (x y : A) (l : list A) :
  In y (insertBy key x l) <-> y = x \/ In y l.
Proof.
  induction l as [|z l IH]; cbn [insertBy].
  - split; [intros [<- | []]; auto | intros [-> | []]; left; reflexivity].
  - destruct (key x <=? key z)%Z; cbn [In]; [intuition congruence|].
    rewrite IH. intuition congruence.
Qed.

Lemma sortBy_In (A : Type) (key : A -> Z) (y : A) (l : list A) :
  In y (sortBy key l) <-> In y l.
Proof.
  induction l as [|x l IH]; [reflexivity|].
  cbn [sortBy fold_right]. fold (sortBy key l). rewrite insertBy_In, IH.
  cbn [In]. intuition congruence.
Qed.

Lemma insertBy_Permutation (A : Type) (key : A -> Z) (x : A) (l : list A) :
  Permutation (insertBy key x l) (x :: l).
Proof.
  induction l as [|z l IH]; cbn [insertBy]; [reflexivity|].
  destruct (key x <=? key z)%Z; [reflexivity|].
  rewrite IH. apply perm_swap.
Qed.

Lemma sortBy_Permutation (A : Type) (key : A -> Z) (l : list A) :
  Permutation (sortBy key l) l.
Proof.
  induction l as [|x l IH]; [reflexivity|].
  cbn [sortBy fold_right]. fold (sortBy key l).
  rewrite insertBy_Permutation. constructor. exact IH.
Qed.

Lemma insertBy_Sorted (A : Type) (key : A -> Z) (x : A) (l : list A) :
  Sorted (fun a b => (key a <= key b)%Z) l ->
  Sorted (fun a b => (key a <= key b)%Z) (insertBy key x l).
Proof.
  induction l as [|z l IH]; intros S; cbn [insertBy]; [repeat constructor|].
  destruct (key x <=? key z)%Z eqn:E.
  - constructor; [exact S|]. constructor. apply Z.leb_le, E.
  - apply Z.leb_gt in E. inversion S as [|? ? S' Hd]; subst.
    constructor; [exact (IH S')|].
    destruct l as [|w l]; cbn [insertBy].
    + constructor. lia.
    + destruct (key x <=? key w)%Z; constructor; [lia|].
      inversion Hd; subst. assumption.
Qed.

Lemma sortBy_Sorted (A : Type) (key : A -> Z) (l : list A) :
  Sorted (fun a b => (key a <= key b)%Z) (sortBy key l).
Proof.
  induction l as [|x l IH]; [constructor|].
  cbn [sortBy fold_right]. fold (sortBy key l). apply insertBy_Sorted, IH.
Qed.

Lemma starForDot_no_dot (polynomial : string) :
  ~ In "."%char (list_ascii_of_string (starForDot polynomial)).
Proof.
  induction polynomial as [|a rest IH]; cbn [starForDot list_ascii_of_string In]; [auto|].
  intros [E | H]; [|exact (IH H)].
  destruct (Ascii.eqb a ".") eqn:D; [discriminate E|].
  apply Ascii.eqb_neq in D. congruence.
Qed.

(** X16.  The cost list made of a parsed report holds one entry for every
    item of the report that is not a constructor ([<init>]) and no other,
    in ascending order of line, and no polynomial of an entry contains a
    dot. *)
Theorem report_entries_filtered_sorted (inferCostRaw : list RawItem) :
  Permutation (reportEntries inferCostRaw)
    (map entryOfRaw
       (filter (fun item => negb (String.eqb (procedure_name item) "<init>"))
               inferCostRaw))
  /\ Sorted (fun a b => (lnum (entry_loc a) <= lnum (entry_loc b))%Z)
       (reportEntries inferCostRaw)
  /\ forall entry, In entry (reportEntries inferCostRaw) ->
       entry_method_name entry <> "<init>"
       /\ ~ In "."%char (list_ascii_of_string (polynomial (entry_exec_cost entry)))
       /\ ~ In "."%char (list_ascii_of_string (polynomial (entry_alloc_cost entry))).
Proof.
  unfold reportEntries. split; [apply sortBy_Permutation|].
  split; [apply (sortBy_Sorted (fun entry => lnum (entry_loc entry)))|].
  intros entry H. apply sortBy_In, in_map_iff in H. destruct H as (item & <- & H).
  apply filter_In in H. destruct H as [_ H]. cbn [entryOfRaw entry_method_name
    entry_exec_cost entry_alloc_cost costOfRaw polynomial].
  split; [|split; apply starForDot_no_dot].
  intros E. rewrite E in H. discriminate.
Qed.

(** ** The loop that files the entries of a project *)

(** Entries of the file the loop is at change no filed cost list. *)
Lemma group_same_file (objs : store) (path : string) (l : list ref) :
  (forall r, In r l -> file (loc (objs r)) = path) ->
  forall g,
  sourceFilePath g = None \/ sourceFilePath g = Some path ->
  grouped (fold_left (groupStep objs) l g) = grouped g.
Proof.
  intros Hall. induction l as [|x l IH]; intros g Hg; [reflexivity|].
  cbn [fold_left].
  assert (E : groupStep objs g x = sameFile path x g).
  { unfold groupStep. rewrite (Hall x (or_introl eq_refl)).
    destruct Hg as [-> | ->]; [reflexivity|].
    destruct path as [|a path]; [reflexivity|]. rewrite String.eqb_refl. reflexivity. }
  rewrite E, IH; [reflexivity | intros r Hr; apply Hall; right; exact Hr|].
  right. reflexivity.
Qed.

(** X17.  A report whose entries all lie in one file files nothing: the
    loop of [readInferOutputForProject] leaves the cost lists as they
    were, and the function returns [false] when no list was kept for the
    file of the active editor. *)
Theorem one_file_report_not_filed (inferCost : list ref) (s : State) (path : string) :
  (forall r, In r inferCost -> file (loc (objects s r)) = path) ->
  inferCosts (snd (readInferOutputForProject inferCost s)) = inferCosts s
  /\ (JsMap.get (getSourceFileName (fileName s)) (inferCosts s) = None ->
      readInferOutputForProject inferCost s
      = (false, withInferCost (currentInferCost s) (inferCosts s) s)).
Proof.
  intros Hall. unfold readInferOutputForProject.
  rewrite (@group_same_file (objects s) path inferCost Hall) by (left; reflexivity).
  cbn [grouped]. split.
  - destruct (JsMap.get _ (inferCosts s)); reflexivity.
  - intros ->. reflexivity.
Qed.

Lemma one_file_report_not_filed_witness :
  readInferOutputForProject [0; 3]
    (withInferCost [] [] Sample.analysed)
  = (false, withInferCost [] [] Sample.analysed).
Proof.
  assert (H : forall r, In r [0; 3] ->
                file (loc (objects (withInferCost [] [] Sample.analysed) r)) = "A.java")
    by (intros r [<- | [<- | []]]; reflexivity).
  apply (proj2 (@one_file_report_not_filed [0; 3]
                  (withInferCost [] [] Sample.analysed) "A.java" H)).
  reflexivity.
Defined.

(** What the loop keeps while it walks the entries in front of the last
    file: a filed list was there before or holds walked entries only, the
    array being collected holds walked entries, and the path is that of a
    walked entry. *)
Lemma group_earlier_step (objs : store) (costs0 : JsMap.t (list ref)) (seen : list ref)
    (g : Grouping) (x : ref) :
  In x seen ->
  (forall key stored, JsMap.get key (grouped g) = Some stored ->
     JsMap.get key costs0 = Some stored \/ incl stored seen)
  /\ incl (fileInferCost g) seen
  /\ (forall p, sourceFilePath g = Some p ->
        exists r, In r seen /\ file (loc (objs r)) = p) ->
  (forall key stored, JsMap.get key (grouped (groupStep objs g x)) = Some stored ->
     JsMap.get key costs0 = Some stored \/ incl stored seen)
  /\ incl (fileInferCost (groupStep objs g x)) seen
  /\ (forall p, sourceFilePath (groupStep objs g x) = Some p ->
        exists r, In r seen /\ file (loc (objs r)) = p).
Proof.
  intros Hx (Hc & Hf & Hp).
  assert (Same : (forall key stored,
                    JsMap.get key (grouped (sameFile (file (loc (objs x))) x g))
                    = Some stored ->
                    JsMap.get key costs0 = Some stored \/ incl stored seen)
                 /\ incl (fileInferCost (sameFile (file (loc (objs x))) x g)) seen
                 /\ (forall p,
                       sourceFilePath (sameFile (file (loc (objs x))) x g) = Some p ->
                       exists r, In r seen /\ file (loc (objs r)) = p)).
  { cbn [sameFile grouped fileInferCost sourceFilePath]. split; [exact Hc|]. split.
    - apply incl_app; [exact Hf|]. intros y [<- | []]. exact Hx.
    - intros p [= <-]. exists x. auto. }
  unfold groupStep.
  destruct (sourceFilePath g) as [[|a path]|] eqn:P; [exact Same | | exact Same].
  destruct (String.eqb (String a path) (file (loc (objs x)))); [exact Same|].
  assert (Keep : (forall key stored, JsMap.get key (grouped g) = Some stored ->
                    JsMap.get key costs0 = Some stored \/ incl stored seen)
                 /\ incl (fileInferCost g) seen
                 /\ (forall p, sourceFilePath g = Some p ->
                       exists r, In r seen /\ file (loc (objs r)) = p)).
  { split; [exact Hc|]. split; [exact Hf|]. rewrite P. exact Hp. }
  destruct (sourceFileName g) as [[|b name]|]; [exact Keep | | exact Keep].
  cbn [grouped fileInferCost sourceFilePath]. split; [|split].
  - intros key stored. rewrite get_set. destruct (String.eqb _ key); [|apply Hc].
    intros [= <-]. right. intros y Hy. apply sortBy_In in Hy. exact (Hf y Hy).
  - intros y [<- | []]. exact Hx.
  - intros p [= <-]. exists x. auto.
Qed.

Lemma group_earlier (objs : store) (costs0 : JsMap.t (list ref)) (seen : list ref) :
  forall (l : list ref) (g : Grouping),
  incl l seen ->
  (forall key stored, JsMap.get key (grouped g) = Some stored ->
     JsMap.get key costs0 = Some stored \/ incl stored seen)
  /\ incl (fileInferCost g) seen
  /\ (forall p, sourceFilePath g = Some p ->
        exists r, In r seen /\ file (loc (objs r)) = p) ->
  (forall key stored,
     JsMap.get key (grouped (fold_left (groupStep objs) l g)) = Some stored ->
     JsMap.get key costs0 = Some stored \/ incl stored seen)
  /\ incl (fileInferCost (fold_left (groupStep objs) l g)) seen
  /\ (forall p, sourceFilePath (fold_left (groupStep objs) l g) = Some p ->
        exists r, In r seen /\ file (loc (objs r)) = p).
Proof.
  induction l as [|x l IH]; intros g Hl H; [exact H|].
  cbn [fold_left]. apply IH; [intros y Hy; apply Hl; right; exact Hy|].
  apply group_earlier_step; [apply Hl; left; reflexivity | exact H].
Qed.

(** Once the loop is at the last file, no cost list is filed any more;
    the list filed on arriving there holds earlier entries. *)
Lemma group_last_file_step (objs : store) (costs0 : JsMap.t (list ref))
    (earlier : list ref) (path : string) (g : Grouping) (x : ref) :
  file (loc (objs x)) = path ->
  (forall key stored, JsMap.get key (grouped g) = Some stored ->
     JsMap.get key costs0 = Some stored \/ incl stored earlier)
  /\ (sourceFilePath g = Some path
      \/ (incl (fileInferCost g) earlier /\ sourceFilePath g <> Some path)) ->
  (forall key stored, JsMap.get key (grouped (groupStep objs g x)) = Some stored ->
     JsMap.get key costs0 = Some stored \/ incl stored earlier)
  /\ (sourceFilePath (groupStep objs g x) = Some path
      \/ (incl (fileInferCost (groupStep objs g x)) earlier
          /\ sourceFilePath (groupStep objs g x) <> Some path)).
Proof.
  intros Hx (Hc & Hg). unfold groupStep. rewrite Hx.
  destruct (sourceFilePath g) as [[|a p]|] eqn:P;
    [split; [exact Hc | left; reflexivity] | | split; [exact Hc | left; reflexivity]].
  destruct (String.eqb (String a p) path) eqn:E;
    [split; [exact Hc | left; reflexivity]|].
  assert (Hf : incl (fileInferCost g) earlier).
  { destruct Hg as [Hg | [Hg _]]; [|exact Hg].
    injection Hg as Hg. rewrite Hg, String.eqb_refl in E. discriminate. }
  destruct (sourceFileName g) as [[|b name]|].
  - split; [exact Hc|]. rewrite P. right. split; [exact Hf|].
    intros [= C]. rewrite C, String.eqb_refl in E. discriminate.
  - cbn [grouped sourceFilePath]. split; [|left; reflexivity].
    intros key stored. rewrite get_set. destruct (String.eqb _ key); [|apply Hc].
    intros [= <-]. right. intros y Hy. apply sortBy_In in Hy. exact (Hf y Hy).
  - split; [exact Hc|]. rewrite P. right. split; [exact Hf|].
    intros [= C]. rewrite C, String.eqb_refl in E. discriminate.
Qed.

Lemma group_last_file (objs : store) (costs0 : JsMap.t (list ref)) (earlier : list ref)
    (path : string) :
  forall (l : list ref) (g : Grouping),
  (forall r, In r l -> file (loc (objs r)) = path) ->
  (forall key stored, JsMap.get key (grouped g) = Some stored ->
     JsMap.get key costs0 = Some stored \/ incl stored earlier)
  /\ (sourceFilePath g = Some path
      \/ (incl (fileInferCost g) earlier /\ sourceFilePath g <> Some path)) ->
  forall key stored,
  JsMap.get key (grouped (fold_left (groupStep objs) l g)) = Some stored ->
  JsMap.get key costs0 = Some stored \/ incl stored earlier.
Proof.
  induction l as [|x l IH]; intros g Hall H; [exact (proj1 H)|].
  cbn [fold_left]. apply IH; [intros r Hr; apply Hall; right; exact Hr|].
  apply group_last_file_step; [apply Hall; left; reflexivity | exact H].
Qed.

(** X18.  The entries of the file that comes last in the report are never
    filed: where the report ends with entries of one file that no earlier
    entry lies in, every cost list that [readInferOutputForProject] leaves
    under a name was kept under that name before, or holds entries from in
    front of that file only. *)
Theorem last_file_of_report_not_filed
    (earlier lastFile : list ref) (s : State) (path key : string) (stored : list ref) :
  (forall r, In r lastFile -> file (loc (objects s r)) = path) ->
  (forall r, In r earlier -> file (loc (objects s r)) <> path) ->
  JsMap.get key (inferCosts (snd (readInferOutputForProject (earlier ++ lastFile) s)))
  = Some stored ->
  JsMap.get key (inferCosts s) = Some stored \/ incl stored earlier.
Proof.
  intros Hlast Hearlier H.
  assert (G : JsMap.get key
                (grouped (fold_left (groupStep (objects s)) (earlier ++ lastFile)
                            {| sourceFilePath := None; sourceFileName := None;
                               fileInferCost := []; grouped := inferCosts s |}))
              = Some stored).
  { unfold readInferOutputForProject in H.
    destruct (JsMap.get (getSourceFileName (fileName s)) _); exact H. }
  clear H. rewrite fold_left_app in G.
  destruct (@group_earlier (objects s) (inferCosts s) earlier earlier
              {| sourceFilePath := None; sourceFileName := None;
                 fileInferCost := []; grouped := inferCosts s |} (incl_refl _))
    as (Hc & Hf & Hp).
  { cbn [grouped fileInferCost sourceFilePath]. split; [auto|].
    split; [intros y []|discriminate]. }
  eapply (@group_last_file (objects s) (inferCosts s) earlier path lastFile);
    [exact Hlast | | exact G].
  split; [exact Hc|]. right. split; [exact Hf|].
  intros C. destruct (Hp path C) as (r & Hr & E). exact (Hearlier r Hr E).
Qed.

Lemma last_file_of_report_not_filed_witness :
  JsMap.get "A" (inferCosts Reports.project) = Some [1; 0] \/ incl [1; 0] [0; 1].
Proof.
  apply (@last_file_of_report_not_filed [0; 1] [2; 3] Reports.project "src/B.java" "A"
           [1; 0]).
  - intros r [<- | [<- | []]]; reflexivity.
  - intros r [<- | [<- | []]]; discriminate.
  - reflexivity.
Defined.

(** ** The declaration extractor on whole parameter lists *)

Lemma split_go_through (c : ascii) (x y : string) :
  forall acc,
  Js.search (String c "") x = None ->
  Js.split_go (String c "") 0 acc (x ++ y)
  = Js.split_go (String c "") 0 (Js.rev_string acc x) y.
Proof.
  induction x as [|a x IH]; intros acc H; [reflexivity|].
  apply search_char_cons in H. destruct H as [Hne H].
  destruct y as [|b y].
  - rewrite append_nil_r. cbn [Js.split_go Js.rev_string]. rewrite prefix_char.
    destruct (ascii_dec c a) as [->|_]; [congruence|].
    specialize (IH (String a acc) H). rewrite append_nil_r in IH. exact IH.
  - cbn [append Js.split_go Js.rev_string]. rewrite prefix_char.
    destruct (ascii_dec c a) as [->|_]; [congruence|].
    exact (IH (String a acc) H).
Qed.

(** The text between the first parentheses of a declaration. *)
Lemma parameter_list_found (pre parameterList post : string) :
  Js.search "(" pre = None ->
  Js.search "(" parameterList = None ->
  Js.search ")" parameterList = None ->
  exists afterParen,
    nth_error (Js.split "(" (pre ++ "(" ++ parameterList ++ ")" ++ post)) 1
    = Some afterParen
    /\ hd "" (Js.split ")" afterParen) = parameterList.
Proof.
  intros Hpre H1 H2. unfold Js.split.
  change ("(" ++ parameterList ++ ")" ++ post)%string
    with (String "(" (parameterList ++ String ")" post)).
  rewrite split_go_before by exact Hpre. cbn [nth_error].
  replace (parameterList ++ String ")" post)%string
    with ((parameterList ++ ")") ++ post)%string
    by (rewrite append_assoc; reflexivity).
  rewrite split_go_through.
  2:{ apply search_char_app; [exact H1 | reflexivity]. }
  destruct (split_go_first "(" post (Js.rev_string "" (parameterList ++ ")")))
    as (piece & rest & E).
  rewrite E, rev_string_involutive. eexists. split; [reflexivity|].
  rewrite append_assoc. cbn [append].
  rewrite split_go_before by exact H2. cbn [hd]. apply rev_string_involutive.
Qed.

(** X19.  The extractor works on the text between the first parentheses
    of the declaration, cut at every comma: it yields one type for each
    piece, also where a comma stands inside the type arguments of a
    parameter, as in [Map<K, V> m], which yields two. *)
Theorem parameter_types_per_comma
    (pre parameterList post : string) (typeExtensions : JsMap.t string) :
  Js.search "(" pre = None ->
  Js.search "(" parameterList = None ->
  Js.search ")" parameterList = None ->
  hd "" (Js.split "," parameterList) <> "" ->
  getParameterTypesFromMethodDeclaration (pre ++ "(" ++ parameterList ++ ")" ++ post)
    typeExtensions
  = mapM (parameterTypeOf typeExtensions) (Js.split "," parameterList)
  /\ forall parameterTypes,
       getParameterTypesFromMethodDeclaration (pre ++ "(" ++ parameterList ++ ")" ++ post)
         typeExtensions = Ok parameterTypes ->
       List.length parameterTypes = List.length (Js.split "," parameterList).
Proof.
  intros Hpre H1 H2 Hne.
  assert (E : getParameterTypesFromMethodDeclaration
                (pre ++ "(" ++ parameterList ++ ")" ++ post) typeExtensions
              = mapM (parameterTypeOf typeExtensions) (Js.split "," parameterList)).
  { unfold getParameterTypesFromMethodDeclaration.
    destruct (@parameter_list_found pre parameterList post Hpre H1 H2)
      as (afterParen & -> & ->).
    destruct (String.eqb (hd "" (Js.split "," parameterList)) "") eqn:Q; [|reflexivity].
    apply String.eqb_eq in Q. contradiction. }
  split; [exact E|]. rewrite E. clear.
  generalize (Js.split "," parameterList). intros l.
  induction l as [|x l IH]; intros types H; cbn [mapM] in H.
  - injection H as <-. reflexivity.
  - destruct (parameterTypeOf typeExtensions x); [|discriminate]. cbn [bind] in H.
    destruct (mapM (parameterTypeOf typeExtensions) l) as [ts|]; [|discriminate].
    cbn [bind] in H. injection H as <-. cbn [List.length]. rewrite (IH ts eq_refl).
    reflexivity.
Qed.

Lemma parameter_types_per_comma_witness :
  getParameterTypesFromMethodDeclaration "void put(Map<K, V> m)" [] = Ok ["Map"; "V>"]
  /\ List.length ["Map"; "V>"] = List.length (Js.split "," "Map<K, V> m").
Proof.
  split; [reflexivity|].
  apply (proj2 (@parameter_types_per_comma "void put" "Map<K, V> m" "" []
                  eq_refl eq_refl eq_refl ltac:(discriminate))).
  reflexivity.
Defined.

(** ** Substitution of bounds *)

Lemma prefix_append (s t : string) : String.prefix s (s ++ t) = true.
Proof.
  induction s as [|a s IH]; [destruct t; reflexivity|].
  cbn [append String.prefix]. destruct (ascii_dec a a); [exact IH | congruence].
Qed.

Lemma search_at_start (s t : string) : Js.search s (s ++ t) = Some 0.
Proof.
  destruct (s ++ t)%string eqn:E; cbn [Js.search]; rewrite <- E, prefix_append;
    reflexivity.
Qed.

Lemma substring_none (s : string) : substring 0 0 s = "".
Proof. destruct s; reflexivity. Qed.

Lemma substring_whole (s : string) : substring 0 (String.length s) s = s.
Proof. induction s as [|a s IH]; cbn; [|rewrite IH]; reflexivity. Qed.

Lemma substring_after (s t : string) (n : nat) :
  substring (String.length s) n (s ++ t) = substring 0 n t.
Proof. induction s as [|a s IH]; [reflexivity | exact IH]. Qed.

Lemma length_append (s t : string) :
  String.length (s ++ t) = String.length s + String.length t.
Proof. induction s as [|a s IH]; cbn; [|rewrite IH]; reflexivity. Qed.

(** A replacement text without [$] is put in as it is. *)
Lemma expand_plain (before matched after repl : string) :
  Js.search "$" repl = None -> Js.expand before matched after repl = repl.
Proof.
  induction repl as [|a repl IH]; intros H; [reflexivity|].
  apply search_char_cons in H. destruct H as [Hne H].
  cbn [Js.expand]. destruct (Ascii.eqb a "$") eqn:E.
  - apply Ascii.eqb_eq in E. congruence.
  - rewrite (IH H). reflexivity.
Qed.

Lemma replace_at_start (key bound suffix : string) :
  Js.search "$" bound = None ->
  Js.replace key bound (key ++ suffix) = (bound ++ suffix)%string.
Proof.
  intros H. unfold Js.replace. rewrite search_at_start. cbv zeta.
  rewrite substring_none, expand_plain by exact H. cbn [Nat.add append].
  rewrite substring_after, length_append.
  replace (String.length key + String.length suffix - String.length key)
    with (String.length suffix) by lia.
  rewrite substring_whole. reflexivity.
Qed.

Lemma base_of_type (key suffix : string) :
  Js.search "[" key = None ->
  suffix = "" \/ (exists rest, suffix = String "[" rest) ->
  hd "" (Js.split "[" (key ++ suffix)) = key.
Proof.
  intros H [-> | (rest & ->)]; unfold Js.split.
  - rewrite append_nil_r, (@split_go_none "[" key "" H). cbn [hd Js.rev_string].
    apply rev_string_involutive.
  - rewrite split_go_before by exact H. cbn [hd]. apply rev_string_involutive.
Qed.

(** X20.  A parameter type that is a type variable of the class, alone or
    with an array suffix, is replaced by the bound of the variable and
    keeps the suffix; a type that merely starts with the name of the
    variable is left as it is. *)
Theorem bound_replaces_variable (variable bound suffix : string) :
  Js.search "[" variable = None ->
  Js.search "$" bound = None ->
  (suffix = "" \/ (exists rest, suffix = String "[" rest) ->
   applyTypeExtensions [(variable, bound)] (variable ++ suffix)
   = (bound ++ suffix)%string)
  /\ (Js.search "[" suffix = None -> suffix <> "" ->
      applyTypeExtensions [(variable, bound)] (variable ++ suffix)
      = (variable ++ suffix)%string).
Proof.
  intros Hv Hb. unfold applyTypeExtensions. cbn [fold_left fst snd]. split.
  - intros Hs. rewrite (@base_of_type variable suffix Hv Hs), String.eqb_refl.
    apply replace_at_start, Hb.
  - intros Hs Hne.
    assert (E : hd "" (Js.split "[" (variable ++ suffix)) = (variable ++ suffix)%string).
    { unfold Js.split. rewrite split_go_none by (apply search_char_app; assumption).
      cbn [hd Js.rev_string]. apply rev_string_involutive. }
    rewrite E. destruct (String.eqb (variable ++ suffix) variable) eqn:Q; [|reflexivity].
    apply String.eqb_eq in Q. apply (f_equal String.length) in Q.
    rewrite length_append in Q. destruct suffix; [congruence | cbn in Q; lia].
Qed.

Lemma bound_replaces_variable_witness :
  applyTypeExtensions [("A", "B")] "A[][]" = "B[][]"
  /\ applyTypeExtensions [("A", "B")] "AB" = "AB".
Proof.
  split.
  - apply (proj1 (@bound_replaces_variable "A" "B" "[][]" eq_refl eq_refl)).
    right. eexists. reflexivity.
  - apply (proj2 (@bound_replaces_variable "A" "B" "B" eq_refl eq_refl));
      [reflexivity | discriminate].
Defined.

(** X21.  The bounds are substituted one after the other in the order of
    the class declaration, each on the result of the one before: with
    [A extends B] declared before [B extends C] a parameter of type [A]
    gets the type [C], and with the two declared the other way round it
    gets the type [B]. *)
Theorem bounds_substituted_in_order (a b c : string) :
  Js.search "[" a = None -> Js.search "[" b = None ->
  Js.search "$" b = None -> Js.search "$" c = None ->
  a <> b ->
  applyTypeExtensions [(a, b); (b, c)] a = c
  /\ applyTypeExtensions [(b, c); (a, b)] a = b.
Proof.
  intros Ha Hb Db Dc Hne.
  assert (Base : forall x, Js.search "[" x = None -> hd "" (Js.split "[" x) = x).
  { intros x Hx. rewrite <- (append_nil_r x) at 1. apply base_of_type; auto. }
  assert (Subst : forall x y, Js.search "$" y = None -> Js.replace x y x = y).
  { intros x y Hy. rewrite <- (append_nil_r x) at 2.
    rewrite (@replace_at_start x y "" Hy). apply append_nil_r. }
  unfold applyTypeExtensions. cbn [fold_left fst snd]. split.
  - rewrite (Base a Ha), String.eqb_refl, (Subst a b Db).
    rewrite (Base b Hb), String.eqb_refl. apply Subst, Dc.
  - rewrite (Base a Ha).
    replace (String.eqb a b) with false by (symmetry; apply String.eqb_neq, Hne).
    rewrite (Base a Ha), String.eqb_refl. apply Subst, Db.
Qed.

Lemma bounds_substituted_in_order_witness :
  applyTypeExtensions (getGenericTypeExtensions "class Box<A extends B, B extends C> {")
    "A" = "C"
  /\ applyTypeExtensions (getGenericTypeExtensions "class Box<B extends C, A extends B> {")
       "A" = "B".
Proof.
  apply (@bounds_substituted_in_order "A" "B" "C"); try reflexivity. discriminate.
Defined.

(** ** The registry and the classifier together *)

(** X22.  After [resetNonConstantMethodsForFile] on a registry that holds
    no name twice, a change that only touches calls of methods of the
    current cost list is not significant and records no cause. *)
Theorem file_reset_silences_own_methods
    (diffLines : string -> string -> list LineDiff) (s : State)
    (previous savedText : string) (causes : causeMap) (isSignificant : bool) :
  NoDup (nonConstantMethods s) ->
  (forall part occurrence,
     In part (diffLines previous savedText) -> isChange part = true ->
     In occurrence (occurrences part) ->
     In (methodNameOf occurrence) (costNames s)
     /\ ~ In (methodNameOf occurrence) ["while"; "for"]) ->
  classification diffLines (resetNonConstantMethodsForFile s) previous savedText
  = Ok (causes, isSignificant) ->
  isSignificant = false /\ causes = [].
Proof.
  intros N Hown E. unfold classification in E.
  assert (Hb : isSignificant = false).
  { destruct isSignificant; [|reflexivity]. exfalso.
    destruct (classify_flagged _ _ _ _ E) as [Hflag _].
    destruct (proj1 Hflag eq_refl) as (occ & part & Hp & Hc & Ho & Hq).
    destruct (Hown part occ Hp Hc Ho) as [Hin Hloop].
    unfold isCause in Hq. apply andb_true_iff in Hq. destruct Hq as [_ Hq].
    apply orb_true_iff in Hq. destruct Hq as [Hq | Hq].
    - apply includes_In in Hq.
      apply (count_occ_In string_dec) in Hq, Hin.
      cbn [resetNonConstantMethodsForFile withNonConstantMethods nonConstantMethods] in Hq.
      rewrite forget_all_count in Hq.
      pose proof (proj1 (NoDup_count_occ string_dec (nonConstantMethods s)) N
                    (methodNameOf occ)) as Hone.
      unfold costNames in Hin. lia.
    - apply includes_In in Hq. exact (Hloop Hq). }
  split; [exact Hb|]. subst isSignificant.
  assert (T : tidy (causes, false)).
  { apply (@checkParts_kept _ _ _ tidy tidy_addCause _ _ _ _ E).
    split; cbn [fst snd].
    - split; [discriminate | intros C; exfalso; apply C; reflexivity].
    - intros k l. discriminate. }
  destruct T as [Hflag _]. cbn [fst snd] in Hflag.
  destruct causes as [|entry causes]; [reflexivity|].
  assert (C : false = true) by (apply Hflag; discriminate). discriminate C.
Qed.

Lemma file_reset_silences_own_methods_witness :
  exists causes isSignificant,
    classification Sample.oneLine
      (resetNonConstantMethodsForFile
         (withNonConstantMethods ["baz"; "foo"; "other"] Sample.analysed))
      "void bar() { }" "void bar() { foo(1); }"
    = Ok (causes, isSignificant)
    /\ isSignificant = false /\ causes = [].
Proof.
  exists [], false. split; [vm_compute; reflexivity|].
  apply (@file_reset_silences_own_methods Sample.oneLine
           (withNonConstantMethods ["baz"; "foo"; "other"] Sample.analysed)
           "void bar() { }" "void bar() { foo(1); }").
  - repeat constructor; cbn; intuition discriminate.
  - intros part occurrence [<- | [<- | []]] _ Hocc; vm_compute in Hocc.
    + destruct Hocc.
    + destruct Hocc as [<- | []]. split.
      * left. reflexivity.
      * vm_compute. intuition discriminate.
  - vm_compute. reflexivity.
Defined.

(** ** Segments made of line comments *)

Lemma lineComments_app (l1 l2 : list ascii) :
  forall place,
  lineComments place (l1 ++ l2) = true ->
  exists place', placeAt place l1 = Some place' /\ lineComments place' l2 = true.
Proof.
  induction l1 as [|a l1 IH]; intros place H.
  - exists place. auto.
  - cbn [app lineComments placeAt] in *.
    destruct (placeAfter place a) as [place1|]; [|discriminate]. exact (IH place1 H).
Qed.

Lemma placeAt_snoc (l : list ascii) (a : ascii) :
  forall place,
  placeAt place (l ++ [a])
  = match placeAt place l with
    | Some place' => placeAfter place' a
    | None => None
    end.
Proof.
  induction l as [|b l IH]; intros place; cbn [app placeAt].
  - destruct (placeAfter place a); reflexivity.
  - destruct (placeAfter place b) as [place1|]; [apply IH | reflexivity].
Qed.

(** After a first [/] the text ends with it, and behind [//] the text ends
    with [//] and characters of the same line. *)
Lemma placeAt_shape (l : list ascii) :
  forall place',
  placeAt Indent l = Some place' ->
  match place' with
  | Indent => True
  | Slash => exists front, l = (front ++ ["/"%char])%list
  | Comment =>
      exists front comment,
        l = (front ++ "/"%char :: "/"%char :: comment)%list
        /\ forallb dot comment = true
  end.
Proof.
  induction l as [|a l IH] using rev_ind; intros place' H.
  - injection H as <-. exact I.
  - rewrite placeAt_snoc in H.
    destruct (placeAt Indent l) as [place|] eqn:P; [|discriminate].
    specialize (IH place eq_refl). destruct place; cbn [placeAfter] in H.
    + destruct (isLineTerminator a || isChar " " a || isChar TAB a).
      * injection H as <-. exact I.
      * destruct (isChar "/" a) eqn:E; [|discriminate]. injection H as <-.
        apply Ascii.eqb_eq in E. subst a. exists l. reflexivity.
    + destruct (isChar "/" a) eqn:E; [|discriminate]. injection H as <-.
      apply Ascii.eqb_eq in E. subst a. destruct IH as (front & ->).
      exists front, []. rewrite <- app_assoc. auto.
    + destruct IH as (front & comment & -> & D).
      destruct (isLineTerminator a) eqn:T; injection H as <-; [exact I|].
      exists front, (comment ++ [a])%list. split.
      * rewrite <- app_assoc. reflexivity.
      * rewrite forallb_app, D. cbn [forallb]. unfold dot. rewrite T. reflexivity.
Qed.

(** The start of a line is in its white space. *)
Lemma placeAt_line_start (l : list ascii) (place' : LinePlace) :
  placeAt Indent (rev l) = Some place' ->
  match l with
  | [] => True
  | a :: _ => isLineTerminator a = true
  end ->
  place' = Indent.
Proof.
  destruct l as [|a l]; cbn [rev]; intros H T.
  - injection H as <-. reflexivity.
  - rewrite placeAt_snoc in H. destruct (placeAt Indent (rev l)) as [place|]; [|discriminate].
    destruct place; cbn [placeAfter] in H.
    + rewrite T in H. injection H as <-. reflexivity.
    + destruct (isChar "/" a) eqn:E; [|discriminate].
      apply Ascii.eqb_eq in E. subst a. discriminate T.
    + rewrite T in H. injection H as <-. reflexivity.
Qed.

Lemma identStart_in_comment (a : ascii) :
  identStart a = true -> placeAfter Indent a = None /\ placeAfter Slash a = None.
Proof.
  destruct a as [[] [] [] [] [] [] [] []]; vm_compute; intros H;
    first [split; reflexivity | discriminate].
Qed.

Lemma typeChar_in_comment (a : ascii) :
  typeChar a = true -> placeAfter Indent a = None.
Proof.
  destruct a as [[] [] [] [] [] [] [] []]; vm_compute; intros H;
    first [reflexivity | discriminate].
Qed.

Lemma place_of_position (documentText : string) (p : pos) :
  commentsOnly documentText = true ->
  (rev (before p) ++ after p)%list = list_ascii_of_string documentText ->
  exists place,
    placeAt Indent (rev (before p)) = Some place /\ lineComments place (after p) = true.
Proof.
  unfold commentsOnly. intros H S. rewrite <- S in H.
  exact (@lineComments_app (rev (before p)) (after p) Indent H).
Qed.

Lemma behind_line_comment (p : pos) (c : caps) (front comment : list ascii) :
  before p = rev (front ++ "/"%char :: "/"%char :: comment) ->
  forallb dot comment = true ->
  lookbehind (Seq (Lit "//") (Star true (Chr dot))) p c = true.
Proof.
  intros B D. rewrite rev_app_distr in B.
  apply (@lookbehind_found _ p c ("/"%char :: "/"%char :: comment) (rev front) B).
  cbn [run Lit after before]. cbn [Ascii.eqb Bool.eqb andb].
  rewrite (iterate_chr_all dot) by (auto; cbn; lia). discriminate.
Qed.

Lemma no_occurrence_in_comments (documentText : string) :
  commentsOnly documentText = true ->
  matchAll significantCodeChangeRegex documentText = [].
Proof.
  intros C. destruct (matchAll significantCodeChangeRegex documentText) as [|m l] eqn:E;
    [reflexivity|]. exfalso.
  assert (H : In m (matchAll significantCodeChangeRegex documentText))
    by (rewrite E; left; reflexivity).
  apply matchAll_matches in H. destruct H as (p & q & c & M & _ & S).
  apply matchAt_sound, sem_occurrence in M.
  destruct M as (LB & name & n & inner & pm & M1 & _ & _ & Hname).
  assert (I : isIdentifier name = true)
    by (destruct Hname as [-> | [-> | (_ & I & _)]]; [reflexivity | reflexivity | exact I]).
  destruct name as [|a name]; [discriminate|].
  cbn [isIdentifier] in I. apply andb_true_iff in I. destruct I as [A _].
  destruct M1 as [M1 _]. cbn [list_ascii_of_string app] in M1.
  destruct (@place_of_position documentText p C S) as (place & P & L).
  rewrite M1 in L. cbn [lineComments] in L.
  destruct (identStart_in_comment a A) as [N1 N2].
  destruct place.
  - rewrite N1 in L. discriminate.
  - rewrite N2 in L. discriminate.
  - apply placeAt_shape in P. destruct P as (front & comment & B & D).
    apply (f_equal (@rev ascii)) in B. rewrite rev_involutive in B.
    rewrite (@behind_line_comment p [] front comment B D) in LB. discriminate.
Qed.

Lemma modifier_in_indent (p : pos) (c : caps) (m : pos) (cm : caps) :
  sem (Alts (map Lit modifiers ++ [Chr (isChar TAB); Chr (isChar " ")])) p c m cm ->
  lineComments Indent (after p) = true ->
  lineComments Indent (after m) = true.
Proof.
  cbn [modifiers map app Alts]. intros H L.
  repeat (destruct H as [H | H]);
    first [ apply sem_lit in H; destruct H as [[A _] _]; rewrite A in L;
            discriminate L
          | apply sem_chr in H; destruct H as (a & F & [A _] & _);
            apply Ascii.eqb_eq in F; subst a; rewrite A in L; exact L ].
Qed.

Lemma modifierPrefix_in_indent (p : pos) (c : caps) (q : pos) (c' : caps) :
  sem modifierPrefix p c q c' ->
  lineComments Indent (after p) = true ->
  lineComments Indent (after q) = true.
Proof.
  unfold modifierPrefix. cbn [sem]. intros H.
  induction H as [p c | p c m cm q c' H1 _ _ IH]; intros L; [exact L|].
  apply IH. exact (@modifier_in_indent p c m cm H1 L).
Qed.

Lemma no_declaration_in_comments (documentText : string) :
  commentsOnly documentText = true ->
  matchAll methodDeclarationRegex documentText = [].
Proof.
  intros C. destruct (matchAll methodDeclarationRegex documentText) as [|m l] eqn:E;
    [reflexivity|]. exfalso.
  assert (H : In m (matchAll methodDeclarationRegex documentText))
    by (rewrite E; left; reflexivity).
  apply matchAll_matches in H. destruct H as (p & q & c & M & _ & S).
  apply matchAt_sound in M. unfold methodDeclarationRegex in M. cbn [Seqs] in M.
  destruct M as (p1 & c1 & (-> & -> & BOL) & p2 & c2 & HM & p3 & c3 & HG & p4 & c4 & HT & _).
  destruct (@place_of_position documentText p C S) as (place & P & L).
  rewrite (@placeAt_line_start (before p) place P BOL) in L.
  pose proof (@modifierPrefix_in_indent p [] p2 c2 HM L) as L2. clear L.
  rename L2 into L.
  assert (p3 = p2) as ->.
  { destruct HG as [HG | [HG _]]; [|exact HG].
    destruct HG as (m1 & cm1 & H1 & _). apply sem_chr in H1.
    destruct H1 as (a & F & [A _] & _). apply Ascii.eqb_eq in F. subst a.
    rewrite A in L. discriminate L. }
  apply sem_plus_chr in HT. destruct HT as (t & ts & [A _] & T & _).
  rewrite A in L. cbn [app lineComments] in L.
  rewrite (typeChar_in_comment t T) in L. discriminate.
Qed.

(** X23.  A change that adds or removes lines of line comments only,
    lines of spaces and tabs followed by [//], is not significant and
    records no cause, whatever the comments mention and whatever the
    registry and the whitelist hold. *)
Theorem comment_lines_not_significant
    (typeExtensions : JsMap.t string) (methodWhitelist nonConstantMethods : list string)
    (diffText : list LineDiff) :
  (forall part, In part diffText -> isChange part = true ->
                commentsOnly (value part) = true) ->
  classify typeExtensions methodWhitelist nonConstantMethods diffText
  = Ok (JsMap.empty, false).
Proof.
  unfold classify. generalize (@JsMap.empty (list string), false).
  generalize (@nil LineDiff) as earlier.
  induction diffText as [|part later IH]; intros earlier acc H; [reflexivity|].
  cbn [checkParts].
  assert (E : checkPart typeExtensions methodWhitelist nonConstantMethods earlier part acc
              = Ok acc).
  { unfold checkPart. destruct (isChange part) eqn:Q; [|reflexivity].
    unfold occurrences, removeAll.
    rewrite (@no_declaration_in_comments (value part) (H part (or_introl eq_refl) Q)).
    cbn [cut].
    rewrite (@no_occurrence_in_comments (value part) (H part (or_introl eq_refl) Q)).
    reflexivity. }
  rewrite E. cbn [bind]. apply IH. intros part' Hin. apply H. right. exact Hin.
Qed.

Lemma comment_lines_not_significant_witness :
  classify [] [] ["baz"] Comments.commentDiff = Ok (JsMap.empty, false).
Proof.
  apply (@comment_lines_not_significant [] [] ["baz"] Comments.commentDiff).
  intros part [<- | [<- | [<- | []]]] Q; [discriminate Q | reflexivity | discriminate Q].
Defined.

(** ** When the extractor throws *)

Lemma skipModifiers_throws (parameterParts : list string) :
  skipModifiers parameterParts = Throw <-> forallb modifierLike parameterParts = true.
Proof.
  induction parameterParts as [|part rest IH]; cbn [skipModifiers forallb].
  - split; reflexivity.
  - unfold modifierLike at 1.
    destruct (Js.containsAny modifiers (hd "" (Js.split "<" part))); cbn [andb].
    + exact IH.
    + split; discriminate.
Qed.

Lemma mapM_throws (A B : Type) (f : A -> result B) (l : list A) :
  mapM f l = Throw <-> exists x, In x l /\ f x = Throw.
Proof.
  induction l as [|a l IH]; cbn [mapM].
  - split; [discriminate | intros (x & [] & _)].
  - destruct (f a) as [b|] eqn:E; cbn [bind].
    + destruct (mapM f l) as [bs|]; cbn [bind].
      * split; [discriminate|]. intros (x & [<- | Hx] & Hf); [congruence|].
        assert (C : Ok bs = Throw) by (apply IH; exists x; auto).
        discriminate C.
      * split; [|reflexivity]. intros _.
        destruct (proj1 IH eq_refl) as (x & Hx & Hf). exists x.
        split; [right; exact Hx | exact Hf].
    + split; [|reflexivity]. intros _. exists a.
      split; [left; reflexivity | exact E].
Qed.

(** X24.  The extractor throws on a declaration exactly when one of its
    parameters is made of parts that all read like modifiers, a modifier
    keyword occurring in each of them in front of any ["<"]: the loop of
    line 150 then runs past the last part.  A parameter named
    [finalTask] alone is enough. *)
Theorem extractor_throws_iff
    (pre parameterList post : string) (typeExtensions : JsMap.t string) :
  Js.search "(" pre = None ->
  Js.search "(" parameterList = None ->
  Js.search ")" parameterList = None ->
  hd "" (Js.split "," parameterList) <> "" ->
  getParameterTypesFromMethodDeclaration (pre ++ "(" ++ parameterList ++ ")" ++ post)
    typeExtensions = Throw
  <-> exists parameter,
        In parameter (Js.split "," parameterList)
        /\ forallb modifierLike (Js.split " " (Js.trim parameter)) = true.
Proof.
  intros Hpre H1 H2 Hne.
  assert (E : getParameterTypesFromMethodDeclaration
                (pre ++ "(" ++ parameterList ++ ")" ++ post) typeExtensions
              = mapM (parameterTypeOf typeExtensions) (Js.split "," parameterList)).
  { unfold getParameterTypesFromMethodDeclaration.
    destruct (@parameter_list_found pre parameterList post Hpre H1 H2)
      as (afterParen & -> & ->).
    destruct (String.eqb (hd "" (Js.split "," parameterList)) "") eqn:Q; [|reflexivity].
    apply String.eqb_eq in Q. contradiction. }
  rewrite E, mapM_throws.
  assert (One : forall parameter,
            parameterTypeOf typeExtensions parameter = Throw
            <-> forallb modifierLike (Js.split " " (Js.trim parameter)) = true).
  { intros parameter. rewrite <- skipModifiers_throws. unfold parameterTypeOf.
    destruct (skipModifiers (Js.split " " (Js.trim parameter))); cbn [bind];
      split; first [discriminate | reflexivity]. }
  split; intros (parameter & Hin & H); exists parameter; split; auto; apply One, H.
Qed.

Lemma extractor_throws_iff_witness :
  getParameterTypesFromMethodDeclaration "new Thread(finalTask)" [] = Throw
  <-> exists parameter,
        In parameter (Js.split "," "finalTask")
        /\ forallb modifierLike (Js.split " " (Js.trim parameter)) = true.
Proof.
  apply (@extractor_throws_iff "new Thread" "finalTask" "" []);
    first [reflexivity | discriminate].
Defined.

(** ** Type extensions of a class header *)

Lemma plain_no_space (s : string) : plain s = true -> Js.search " " s = None.
Proof.
  induction s as [|a s IH]; [reflexivity|]. cbn [plain]. intros H.
  apply andb_true_iff in H. destruct H as [Ha Hs].
  apply andb_true_iff in Ha. destruct Ha as [Ha _]. apply negb_true_iff in Ha.
  cbn [Js.search]. rewrite prefix_char.
  destruct (ascii_dec " " a) as [<-|_]; [discriminate Ha|].
  rewrite (IH Hs). reflexivity.
Qed.

Lemma trimStart_word (x y : string) :
  plain x = true -> x <> "" -> Js.trimStart (x ++ y) = (x ++ y)%string.
Proof.
  destruct x as [|a x]; [congruence|]. cbn [plain append Js.trimStart]. intros H _.
  apply andb_true_iff in H. destruct H as [Ha _].
  apply andb_true_iff in Ha. destruct Ha as [Ha _]. apply negb_true_iff in Ha.
  rewrite Ha. reflexivity.
Qed.

Lemma rev_string_nonempty (s : string) : s <> "" -> Js.rev_string "" s <> "".
Proof.
  destruct s as [|a s]; [congruence|]. intros _. cbn [Js.rev_string].
  rewrite (rev_string_acc s (String a "")).
  destruct (Js.rev_string "" s); discriminate.
Qed.

(** [trim] takes the spaces around a text that starts and ends with a
    word. *)
Lemma trim_between (n1 n2 : nat) (first middle last : string) :
  plain first = true -> first <> "" -> plain last = true -> last <> "" ->
  Js.trim (spaces n1 ++ (first ++ middle ++ last) ++ spaces n2)
  = (first ++ middle ++ last)%string.
Proof.
  intros Pf Nf Pl Nl. unfold Js.trim.
  rewrite trimStart_spaces, append_assoc, trimStart_word by assumption.
  rewrite <- append_assoc, rev_string_app, rev_spaces, trimStart_spaces.
  replace (first ++ middle ++ last)%string with ((first ++ middle) ++ last)%string
    by apply append_assoc.
  rewrite rev_string_app, trimStart_word
    by (first [apply plain_rev; assumption | apply rev_string_nonempty; assumption]).
  rewrite <- rev_string_app. apply rev_string_involutive.
Qed.

(** X25.  Of a type parameter of a class header, [V extends B] with spaces
    around it at most, the bound is recorded under the variable; a type
    parameter with more after the bound, as [V extends B & C], is passed
    over and leaves the type extensions as they are. *)
Theorem extension_of_three_parts
    (typeExtensions : JsMap.t string) (variable bound : string) :
  plain variable = true -> variable <> "" ->
  plain bound = true -> bound <> "" ->
  (forall n1 n2,
     addTypeExtension typeExtensions
       (spaces n1 ++ (variable ++ " extends " ++ bound) ++ spaces n2)
     = JsMap.set variable bound typeExtensions)
  /\ (forall more last,
        plain last = true -> last <> "" ->
        addTypeExtension typeExtensions
          (variable ++ (" extends " ++ bound ++ " " ++ more) ++ last)
        = typeExtensions).
Proof.
  intros Pv Nv Pb Nb.
  assert (Head : forall tail,
            Js.split " " (variable ++ " extends " ++ tail)
            = variable :: "extends" :: Js.split_go " " 0 "" tail).
  { intros tail. unfold Js.split.
    change (" extends " ++ tail)%string with (String " " ("extends" ++ String " " tail)).
    rewrite split_go_before by (apply plain_no_space, Pv).
    rewrite split_go_before by reflexivity.
    rewrite !rev_string_involutive. reflexivity. }
  split.
  - intros n1 n2. unfold addTypeExtension.
    rewrite (@trim_between n1 n2 variable " extends " bound Pv Nv Pb Nb), Head.
    rewrite split_go_none by (apply plain_no_space, Pb).
    cbn [Js.rev_string]. rewrite rev_string_involutive. reflexivity.
  - intros more last Pl Nl. unfold addTypeExtension.
    pose proof (@trim_between 0 0 variable (" extends " ++ bound ++ " " ++ more) last
                  Pv Nv Pl Nl) as T.
    cbn [spaces append] in T. rewrite append_nil_r in T. cbn [append]. rewrite T.
    replace (variable ++ String " " (String "e" (String "x" (String "t" (String "e"
              (String "n" (String "d" (String "s" (String " "
              ((bound ++ String " " more) ++ last))))))))))%string
      with (variable ++ " extends " ++ bound ++ String " " (more ++ last))%string
      by (cbn [append]; rewrite !append_assoc; reflexivity).
    rewrite Head, split_go_before by (apply plain_no_space, Pb).
    destruct (split_go_first " " (more ++ last) "") as (piece & rest & E).
    rewrite E. reflexivity.
Qed.

Lemma extension_of_three_parts_witness :
  (forall n1 n2,
     addTypeExtension [] (spaces n1 ++ ("A" ++ " extends " ++ "B") ++ spaces n2)
     = JsMap.set "A" "B" [])
  /\ (forall more last,
        plain last = true -> last <> "" ->
        addTypeExtension [] ("A" ++ (" extends " ++ "B" ++ " " ++ more) ++ last) = []).
Proof.
  apply (@extension_of_three_parts [] "A" "B"); first [reflexivity | discriminate].
Defined.

(* ================================================================== *)
(** * The classifier on loops and calls *)



(** A call of a changed segment passes the condition of line 107 exactly
    when its name is in the registry and not on the whitelist. *)
Lemma call_flagged (methodWhitelist nonConstantMethods : list string)
    (diffText : list LineDiff) (part : LineDiff) (name rest : string) :
  In part diffText ->
  isChange part = true ->
  plain name = true ->
  name <> "while" -> name <> "for" ->
  In (header name 0 rest) (occurrences part) ->
  flagged methodWhitelist nonConstantMethods diffText (header name 0 rest)
  <-> In name nonConstantMethods /\ ~ In name methodWhitelist.
Proof.
  intros Hpart Hchange Hplain Hw Hf Hocc.
  assert (Hname : methodNameOf (header name 0 rest) = name)
    by (apply methodNameOf_header, Hplain).
  assert (Hcall : Js.includes ["while"; "for"] name = false).
  { apply includes_not_In. intros [<- | [<- | []]]; congruence. }
  unfold flagged, isCause. rewrite Hname, Hcall, orb_false_r. split.
  - intros (p & _ & _ & _ & Hq). apply andb_true_iff in Hq. destruct Hq as [Hwl Hr].
    apply negb_true_iff in Hwl.
    split; [apply includes_In, Hr | apply includes_not_In, Hwl].
  - intros [Hr Hwl]. exists part. repeat split; auto.
    apply andb_true_iff. split.
    + apply negb_true_iff, includes_not_In, Hwl.
    + apply includes_In, Hr.
Qed.




(** C2. A call-like occurrence [name(...)] of an added or removed segment
    is listed as a cause, the flag being set with it, exactly when [name]
    is in the registry and not on the whitelist, in every classification
    that returns; the classification returns whenever the extractor throws
    on none of the declarations it scans, and a call that meets such an
    occurrence with a non-empty snapshot and no empty history array then
    returns [true].  In scenario A ([baz] in the registry, [bar] not, empty
    whitelist) the result is significant with the cause map
    [foo(int) -> ["baz()"]]; in scenario B ([baz] whitelisted) it is not
    significant and the cause map is empty.  Where a scanned declaration
    has a parameter whose parts all contain a modifier keyword, nothing is
    marked: in scenario A with the parameter [Semifinal finalRound], and
    with a call of [baz] added after [new Thread(finalTask).start();], the
    extractor throws and the classification and the call throw with it,
    whatever the registry and the whitelist hold. *)
Theorem call_significant_iff :
  (forall (typeExtensions : JsMap.t string) (methodWhitelist nonConstantMethods : list string)
          (diffText : list LineDiff) (part : LineDiff) (name rest : string)
          (causes : causeMap) (b : bool),
     In part diffText ->
     isChange part = true ->
     plain name = true ->
     name <> "while" -> name <> "for" ->
     In (header name 0 rest) (occurrences part) ->
     classify typeExtensions methodWhitelist nonConstantMethods diffText = Ok (causes, b) ->
     (recorded (header name 0 rest) causes
      <-> In name nonConstantMethods /\ ~ In name methodWhitelist)
     /\ (recorded (header name 0 rest) causes -> b = true))
  /\ (forall (typeExtensions : JsMap.t string)
             (methodWhitelist nonConstantMethods : list string)
             (diffText : list LineDiff) (part : LineDiff) (name rest : string),
        In part diffText ->
        isChange part = true ->
        plain name = true ->
        name <> "while" -> name <> "for" ->
        In (header name 0 rest) (occurrences part) ->
        forallb (extractable typeExtensions) (scanned [] diffText) = true ->
        exists causes b,
          classify typeExtensions methodWhitelist nonConstantMethods diffText
          = Ok (causes, b)
          /\ (recorded (header name 0 rest) causes
              <-> In name nonConstantMethods /\ ~ In name methodWhitelist)
          /\ (recorded (header name 0 rest) causes -> b = true))
  /\ (forall (diffLines : string -> string -> list LineDiff) (s : State)
             (previous savedText : string) (part : LineDiff) (name rest : string),
        previousText s = Some previous ->
        previous <> "" ->
        In part (diffLines previous savedText) ->
        isChange part = true ->
        plain name = true ->
        name <> "while" -> name <> "for" ->
        In (header name 0 rest) (occurrences part) ->
        forallb (extractable (getGenericTypeExtensions previous))
          (scanned [] (diffLines previous savedText)) = true ->
        historiesNonEmpty (inferCostHistories s) ->
        In name (nonConstantMethods s) ->
        ~ In name (methodWhitelist s) ->
        exists s', significantCodeChangeCheck diffLines s savedText = Ok (true, s'))
  /\ (forall nonConstantMethods : list string,
        Js.includes nonConstantMethods "baz" = true ->
        Js.includes nonConstantMethods "bar" = false ->
        classify [] [] nonConstantMethods Sample.fooDiff
        = Ok ([("foo(int)", ["baz()"])], true))
  /\ (forall methodWhitelist nonConstantMethods : list string,
        Js.includes methodWhitelist "baz" = true ->
        Js.includes nonConstantMethods "bar" = false ->
        classify [] methodWhitelist nonConstantMethods Sample.fooDiff = Ok ([], false))
  /\ (In (header "baz" 0 ")") (occurrences (Sample.addedPart Unextractable.fooAfter))
      /\ getParameterTypesFromMethodDeclaration "void foo(Semifinal finalRound)" [] = Throw
      /\ (forall methodWhitelist nonConstantMethods : list string,
            classify [] methodWhitelist nonConstantMethods Unextractable.fooDiff = Throw)
      /\ significantCodeChangeCheck Unextractable.diffLines Unextractable.analysed
           Unextractable.fooAfter = Throw)
  /\ (In (header "baz" 0 ")")
         (occurrences (Sample.addedPart ("  baz();" ++ Sample.NL)%string))
      /\ getParameterTypesFromMethodDeclaration "  new Thread(finalTask)" [] = Throw
      /\ (forall methodWhitelist nonConstantMethods : list string,
            classify [] methodWhitelist nonConstantMethods Unextractable.threadDiff = Throw)
      /\ significantCodeChangeCheck Unextractable.diffLines Unextractable.threaded
           Unextractable.threadAfter = Throw).
Proof.
  assert (Returned : forall (typeExtensions : JsMap.t string)
                            (methodWhitelist nonConstantMethods : list string)
                            (diffText : list LineDiff) (part : LineDiff) (name rest : string)
                            (causes : causeMap) (b : bool),
            In part diffText ->
            isChange part = true ->
            plain name = true ->
            name <> "while" -> name <> "for" ->
            In (header name 0 rest) (occurrences part) ->
            classify typeExtensions methodWhitelist nonConstantMethods diffText
            = Ok (causes, b) ->
            (recorded (header name 0 rest) causes
             <-> In name nonConstantMethods /\ ~ In name methodWhitelist)
            /\ (recorded (header name 0 rest) causes -> b = true)).
  { intros ext wl reg diffText part name rest causes b
      Hpart Hchange Hplain Hw Hf Hocc E.
    destruct (classify_flagged _ _ _ _ E) as [Hflag Hrec].
    split.
    - rewrite Hrec. apply (@call_flagged wl reg diffText part name rest); assumption.
    - intros R. apply Hflag. eexists. apply Hrec, R. }
  assert (Returns : forall (typeExtensions : JsMap.t string)
                           (methodWhitelist nonConstantMethods : list string)
                           (diffText : list LineDiff) (part : LineDiff) (name rest : string),
            In part diffText ->
            isChange part = true ->
            plain name = true ->
            name <> "while" -> name <> "for" ->
            In (header name 0 rest) (occurrences part) ->
            forallb (extractable typeExtensions) (scanned [] diffText) = true ->
            exists causes b,
              classify typeExtensions methodWhitelist nonConstantMethods diffText
              = Ok (causes, b)
              /\ (recorded (header name 0 rest) causes
                  <-> In name nonConstantMethods /\ ~ In name methodWhitelist)
              /\ (recorded (header name 0 rest) causes -> b = true)).
  { intros ext wl reg diffText part name rest Hpart Hchange Hplain Hw Hf Hocc Hext.
    destruct (classify_returns ext wl reg diffText Hext) as (causes & b & E).
    exists causes, b. split; [exact E|].
    exact (Returned ext wl reg diffText part name rest causes b
             Hpart Hchange Hplain Hw Hf Hocc E). }
  split; [exact Returned|]. split; [exact Returns|].
  split; [|split; [|split; [|split]]].
  - intros diffLines s previous savedText part name rest
      Hprev Hne Hpart Hchange Hplain Hw Hf Hocc Hext Hhist Hreg Hwl.
    destruct (Returns _ (methodWhitelist s) (nonConstantMethods s) _ _ _ _
                Hpart Hchange Hplain Hw Hf Hocc Hext)
      as (causes & b & E & Hiff & Hb).
    assert (b = true) as -> by (apply Hb, Hiff; auto).
    destruct (check_reports diffLines s savedText Hprev Hne E Hhist) as (s' & E' & _).
    exists s'. exact E'.
  - intros reg Hbaz Hbar.
    rewrite (@classify_agree [] [] reg [] ["baz"]); [vm_compute; reflexivity|].
    intros part occ Hpart _ Hocc. unfold isCause.
    destruct (@fooDiff_occurrences part occ Hpart Hocc) as [-> | ->].
    + rewrite Hbar. reflexivity.
    + rewrite Hbaz. reflexivity.
  - intros wl reg Hbaz Hbar.
    rewrite (@classify_agree [] wl reg ["baz"] ["baz"]); [vm_compute; reflexivity|].
    intros part occ Hpart _ Hocc. unfold isCause.
    destruct (@fooDiff_occurrences part occ Hpart Hocc) as [-> | ->].
    + rewrite Hbar. cbn [orb]. rewrite andb_false_r. reflexivity.
    + rewrite Hbaz. reflexivity.
  - split; [vm_compute; right; left; reflexivity|].
    split; [vm_compute; reflexivity|].
    split; [intros wl reg; vm_compute; reflexivity | vm_compute; reflexivity].
  - split; [vm_compute; left; reflexivity|].
    split; [vm_compute; reflexivity|].
    split; [intros wl reg; vm_compute; reflexivity | vm_compute; reflexivity].
Qed.

Lemma call_significant_iff_witness :
  exists causes b,
    classify [] [] ["baz"] Sample.fooDiff = Ok (causes, b)
    /\ (recorded (header "baz" 0 ")") causes <-> In "baz" ["baz"] /\ ~ In "baz" [])
    /\ (recorded (header "baz" 0 ")") causes -> b = true).
Proof.
  apply (proj1 (proj2 call_significant_iff) [] [] ["baz"] Sample.fooDiff
           (Sample.addedPart Sample.fooAfter) "baz" ")").
  - right. left. reflexivity.
  - reflexivity.
  - reflexivity.
  - discriminate.
  - discriminate.
  - vm_compute. right. left. reflexivity.
  - vm_compute. reflexivity.
Defined.

(* ================================================================== *)
(** * The extractor on a parameter list of white space *)

Lemma blank_without (c : ascii) (s : string) :
  blank s = true -> Js.isSpace c = false -> Js.search (String c "") s = None.
Proof.
  intros H Hc. induction s as [|a s IH]; [reflexivity|].
  unfold blank in H. cbn [list_ascii_of_string forallb] in H.
  apply andb_true_iff in H. destruct H as [Ha H].
  cbn [Js.search]. rewrite prefix_char.
  destruct (ascii_dec c a) as [->|_]; [congruence|].
  rewrite (IH H). reflexivity.
Qed.

Lemma trimStart_blank (s : string) : blank s = true -> Js.trimStart s = "".
Proof.
  induction s as [|a s IH]; intros H; [reflexivity|].
  unfold blank in H. cbn [list_ascii_of_string forallb] in H.
  apply andb_true_iff in H. destruct H as [Ha H].
  cbn [Js.trimStart]. rewrite Ha. apply IH, H.
Qed.

Lemma trim_blank (s : string) : blank s = true -> Js.trim s = "".
Proof.
  intros H. unfold Js.trim. rewrite (trimStart_blank s H). reflexivity.
Qed.

(** No type extension applies to the empty type when none has the empty
    key. *)
Lemma applyTypeExtensions_empty (typeExtensions : JsMap.t string) :
  (forall key bound, In (key, bound) typeExtensions -> key <> "") ->
  applyTypeExtensions typeExtensions "" = "".
Proof.
  unfold applyTypeExtensions.
  induction typeExtensions as [|[key bound] rest IH]; intros H; [reflexivity|].
  cbn [fold_left fst snd]. change (hd "" (Js.split "[" "")) with "".
  destruct (String.eqb "" key) eqn:E.
  - apply String.eqb_eq in E. exfalso. apply (H key bound); [left; reflexivity | auto].
  - apply IH. intros k b Hin. apply (H k b). right. exact Hin.
Qed.

(** C7. A declaration whose parentheses enclose nothing has the empty
    sequence of parameter types, whatever precedes and follows them.  With
    white space between the parentheses the test of line 144 reads the
    untrimmed text, which is not empty, and the extractor returns the
    one-element sequence holding the empty string: [void foo( )] is a
    declaration to [methodDeclarationRegex], as is the one with a line
    break between the parentheses, and both yield [[""]].  The text of the
    containing method made of it is [foo()] all the same. *)
Theorem blank_parameter_list_one_empty_type :
  (forall (pre post : string) (typeExtensions : JsMap.t string),
     Js.search "(" pre = None ->
     getParameterTypesFromMethodDeclaration (pre ++ "()" ++ post) typeExtensions = Ok [])
  /\ (forall (pre space post : string) (typeExtensions : JsMap.t string),
        Js.search "(" pre = None ->
        space <> "" ->
        blank space = true ->
        (forall key bound, In (key, bound) typeExtensions -> key <> "") ->
        getParameterTypesFromMethodDeclaration (pre ++ "(" ++ space ++ ")" ++ post)
          typeExtensions
        = Ok [""])
  /\ map Regex.text (matchAll methodDeclarationRegex "void foo( ) {}") = ["void foo( )"]
  /\ getParameterTypesFromMethodDeclaration "void foo( )" [] = Ok [""]
  /\ map Regex.text
       (matchAll methodDeclarationRegex ("void foo(" ++ Sample.NL ++ ") {}"))
     = [("void foo(" ++ Sample.NL ++ ")")%string]
  /\ getParameterTypesFromMethodDeclaration ("void foo(" ++ Sample.NL ++ ")") [] = Ok [""]
  /\ lastDeclaration [] "void foo( ) {}" "" = Ok "foo()".
Proof.
  split; [|split; [|repeat split; vm_compute; reflexivity]].
  - intros pre post typeExtensions H.
    unfold getParameterTypesFromMethodDeclaration, Js.split.
    change ("()" ++ post)%string with (String "(" (String ")" post)).
    rewrite split_go_before by exact H. cbn [nth_error].
    cbn [Js.split_go]. rewrite prefix_char.
    destruct (ascii_dec "(" ")") as [e|_]; [discriminate e|].
    destruct (split_go_first "(" post ")") as (piece & rest & E). rewrite E.
    cbn [hd Js.rev_string append Js.split_go]. rewrite prefix_char.
    destruct (ascii_dec ")" ")") as [_|n]; [|congruence].
    reflexivity.
  - intros pre space post typeExtensions Hpre Hne Hblank Hkeys.
    unfold getParameterTypesFromMethodDeclaration.
    destruct (@parameter_list_found pre space post Hpre
                (@blank_without "(" space Hblank eq_refl)
                (@blank_without ")" space Hblank eq_refl))
      as (afterParen & -> & ->).
    assert (One : Js.split "," space = [space]).
    { unfold Js.split. rewrite split_go_none by (apply blank_without; auto).
      cbn [Js.rev_string]. rewrite rev_string_involutive. reflexivity. }
    rewrite One. cbn [hd].
    destruct (String.eqb space "") eqn:Q; [apply String.eqb_eq in Q; contradiction|].
    cbn [mapM]. unfold parameterTypeOf. rewrite (trim_blank space Hblank).
    change (Js.split " " "") with [""]. cbn [skipModifiers].
    change (hd "" (Js.split "<" "")) with "".
    change (Js.containsAny modifiers "") with false. cbn [bind].
    rewrite (applyTypeExtensions_empty typeExtensions Hkeys). reflexivity.
Qed.

Lemma blank_parameter_list_one_empty_type_witness :
  getParameterTypesFromMethodDeclaration "  public void foo() {" [("A", "B")] = Ok []
  /\ getParameterTypesFromMethodDeclaration "  public void foo(  ) {" [("A", "B")]
     = Ok [""].
Proof.
  split.
  - apply (proj1 blank_parameter_list_one_empty_type "  public void foo" " {" [("A", "B")]).
    reflexivity.
  - apply (proj1 (proj2 blank_parameter_list_one_empty_type)
             "  public void foo" "  " " {" [("A", "B")]).
    + reflexivity.
    + discriminate.
    + reflexivity.
    + intros key bound [E | []]. injection E as <- _. discriminate.
Defined.

(* ================================================================== *)
(** * Attribution of causes, and a call that throws *)

(** C10. A call that passes the snapshot check, in a state where the
    histories are non-empty and filed under the ids of their entries and
    the entries of the current cost list have distinct ids, on texts on
    none of whose scanned declarations the extractor throws, returns and
    leaves in [changeCauseMethods] of every current entry, and of the head
    of the history of its id, the cause list computed for the identity of
    that entry: an absent one where the cause map has none, whatever was
    stored before.  The cost list and the histories are the same and the
    objects differ in [changeCauseMethods] only.  Where the extractor
    throws on a scanned declaration the call passes the snapshot check and
    throws before the loop of lines 124 to 132, so that nothing is
    overwritten: with the parameter [Semifinal finalRound], and with
    [new Thread(finalTask).start();] in the method, the entry and the head
    of its history keep the attribution [["old()"]] they had. *)
Theorem attribution_overwritten :
  (forall (diffLines : string -> string -> list LineDiff) (s : State)
          (previous savedText : string),
     previousText s = Some previous ->
     previous <> "" ->
     forallb (extractable (getGenericTypeExtensions previous))
       (scanned [] (diffLines previous savedText)) = true ->
     historiesNonEmpty (inferCostHistories s) ->
     historiesFiled (objects s) (inferCostHistories s) ->
     distinctIds (objects s) (currentInferCost s) ->
     exists causes b s',
       classification diffLines s previous savedText = Ok (causes, b)
       /\ significantCodeChangeCheck diffLines s savedText = Ok (b, s')
       /\ currentInferCost s' = currentInferCost s
       /\ inferCostHistories s' = inferCostHistories s
       /\ sameButCauses (objects s) (objects s')
       /\ forall r, In r (currentInferCost s) ->
            changeCauseMethods (objects s' r) = JsMap.get (identityOf (objects s r)) causes
            /\ forall head rest,
                 JsMap.get (id (objects s r)) (inferCostHistories s) = Some (head :: rest) ->
                 changeCauseMethods (objects s' head)
                 = JsMap.get (identityOf (objects s r)) causes)
  /\ (previousText Unextractable.analysed = Some Unextractable.fooBefore
      /\ currentInferCost Unextractable.analysed = [0]
      /\ historyOf (id (objects Unextractable.analysed 0))
           (inferCostHistories Unextractable.analysed) = [1]
      /\ changeCauseMethods (objects Unextractable.analysed 0) = Some ["old()"]
      /\ changeCauseMethods (objects Unextractable.analysed 1) = Some ["old()"]
      /\ significantCodeChangeCheck Unextractable.diffLines Unextractable.analysed
           Unextractable.fooAfter = Throw)
  /\ (previousText Unextractable.threaded = Some Unextractable.threadBefore
      /\ currentInferCost Unextractable.threaded = [0]
      /\ historyOf (id (objects Unextractable.threaded 0))
           (inferCostHistories Unextractable.threaded) = [1]
      /\ changeCauseMethods (objects Unextractable.threaded 0) = Some ["old()"]
      /\ changeCauseMethods (objects Unextractable.threaded 1) = Some ["old()"]
      /\ significantCodeChangeCheck Unextractable.diffLines Unextractable.threaded
           Unextractable.threadAfter = Throw).
Proof.
  split; [|split; repeat split; vm_compute; reflexivity].
  intros diffLines s previous savedText.
  intros Hprev Hne Hext Hnonempty Hfiled Hdist.
  destruct (classify_returns _ (methodWhitelist s) (nonConstantMethods s) _ Hext)
    as (causes & b & Hcls).
  fold (classification diffLines s previous savedText) in Hcls.
  exists causes, b.
  unfold significantCodeChangeCheck. unfold previousText in Hprev. rewrite Hprev.
  destruct previous as [|a previous]; [congruence|].
  rewrite Hcls. cbn [bind fst snd].
  destruct (@attribute_loop causes (objects s) (inferCostHistories s) (currentInferCost s)
              Hfiled (objects s) (fun r => eq_refl))
    as (objs' & E & Hsame & Hc).
  { intros r _ G. exact (Hnonempty _ _ G eq_refl). }
  rewrite E. cbn [bind fst snd]. eexists. split; [reflexivity|]. split; [reflexivity|].
  cbn [currentInferCost inferCostHistories objects].
  split; [reflexivity|]. split; [reflexivity|]. split; [exact Hsame|].
  assert (Hlast : forall x r, In r (currentInferCost s) ->
            touches (objects s) (inferCostHistories s) x r = true ->
            changeCauseMethods (objs' x) = JsMap.get (identityOf (objects s r)) causes).
  { intros x r Hin T. rewrite Hc.
    destruct (find (touches (objects s) (inferCostHistories s) x) (rev (currentInferCost s)))
      as [r'|] eqn:F.
    - apply find_some in F. destruct F as [Hin' T']. apply in_rev in Hin'.
      rewrite (@touches_unique _ _ _ x r r' Hfiled Hdist Hin Hin' T T'). reflexivity.
    - assert (Hin' : In r (rev (currentInferCost s))) by (apply -> in_rev; exact Hin).
      rewrite (find_none _ _ F r Hin') in T. discriminate T. }
  intros r Hin. split.
  - apply Hlast; [exact Hin|]. unfold touches. rewrite Nat.eqb_refl. reflexivity.
  - intros head rest G. apply Hlast; [exact Hin|].
    unfold touches. rewrite G, Nat.eqb_refl. apply orb_true_r.
Qed.

Lemma attribution_overwritten_witness :
  exists causes b s',
    classification Sample.oneLine Sample.analysedQuiet Sample.fooBefore Sample.fooAfter
    = Ok (causes, b)
    /\ significantCodeChangeCheck Sample.oneLine Sample.analysedQuiet Sample.fooAfter
       = Ok (b, s')
    /\ currentInferCost s' = [0]
    /\ inferCostHistories s' = [("A.foo(int)", [1])]
    /\ sameButCauses Sample.heap (objects s')
    /\ forall r, In r [0] ->
         changeCauseMethods (objects s' r) = JsMap.get (identityOf (Sample.heap r)) causes
         /\ forall head rest,
              JsMap.get (id (Sample.heap r)) [("A.foo(int)", [1])] = Some (head :: rest) ->
              changeCauseMethods (objects s' head)
              = JsMap.get (identityOf (Sample.heap r)) causes.
Proof.
  apply (proj1 attribution_overwritten Sample.oneLine Sample.analysedQuiet
           Sample.fooBefore Sample.fooAfter).
  - reflexivity.
  - discriminate.
  - vm_compute. reflexivity.
  - intros k h H.
    unfold Sample.analysedQuiet, Sample.session, inferCostHistories, JsMap.get in H.
    destruct (String.eqb "A.foo(int)" k); [injection H as <-|]; discriminate.
  - intros k head rest H.
    unfold Sample.analysedQuiet, Sample.session, inferCostHistories, JsMap.get in H.
    destruct (String.eqb "A.foo(int)" k) eqn:E; [|discriminate].
    apply String.eqb_eq in E. injection H as <- <-. exact E.
  - intros r r' [<- | []] [<- | []] _. reflexivity.
Defined.

(* ================================================================== *)
(** * The history tracker, entry by entry *)

(** The loop body does to an entry what the claim says. *)
Lemma recordCost_recorded (now : string) (before after : State) (r : ref) :
  (objects after, inferCostHistories after)
  = recordCost now (objects before, inferCostHistories before) r ->
  costRecorded now before after r.
Proof.
  intros E.
  destruct (recordCost_cases now (objects before) (inferCostHistories before) r)
    as [[Same (head & rest & Hh & Hp)] | [Put Why]];
    [rewrite Same in E | rewrite Put in E]; injection E as Eo Eh; split.
  - intros [Hnil | (head' & rest' & Hh' & Hne)]; [congruence|].
    rewrite Hh in Hh'. injection Hh' as <- <-. congruence.
  - intros _. split; assumption.
  - intros _. rewrite Eo, Eh. split; [|split; [|split]].
    + rewrite historyOf_set, String.eqb_refl. reflexivity.
    + unfold write. rewrite Nat.eqb_refl. reflexivity.
    + reflexivity.
    + intros k Hk. rewrite historyOf_set.
      destruct (String.eqb (id (objects before r)) k) eqn:Ek; [|reflexivity].
      apply String.eqb_eq in Ek. congruence.
  - intros (head & rest & Hh & Hp). exfalso.
    destruct Why as [Hnil | (head' & rest' & Hh' & Hne)]; [congruence|].
    rewrite Hh in Hh'. injection Hh' as <- <-. congruence.
Qed.

(** C3. Both revisions of [updateInferCostHistory] process the entries
    they walk one after the other.  With no entry to walk they leave
    histories and objects as they are.  An entry walked after others is
    processed in the state that the update of the others gives: when the
    history of its id is then empty, or headed by an entry with another
    execution polynomial, the entry is put at index 0 of that history and
    stamped with the current time, the other histories and objects staying
    as they are; when the polynomial is that of the head, nothing changes.
    Hence over any number of runs in which the entries of id [M] all carry
    the polynomial [p], the history of [M] gains at most one entry.  In
    the revision that files an entry under the path of the file and the
    procedure name, two overloads share an id: with polynomials [n] and
    [n*n] that do not change, the history of that id has 2, 4 and 6
    entries after one, two and three runs, each run putting both entries
    on it; the ids taken from [procedure_id] in the later revision tell
    the two apart. *)
Theorem history_grows_only_on_change :
  (forall (now : string) (s1 s2 : State) (r : ref),
     oneMoreEntry currentInferCost s1 s2 r ->
     costRecorded now (SingleFile.updateInferCostHistory now s1)
       (SingleFile.updateInferCostHistory now s2) r)
  /\ (forall (now : string) (s1 s2 : State) (r : ref),
        oneMoreEntry allCosts s1 s2 r ->
        costRecorded now (Project.updateInferCostHistory now s1)
          (Project.updateInferCostHistory now s2) r)
  /\ (forall (now : string) (s : State),
        (currentInferCost s = [] ->
         inferCostHistories (SingleFile.updateInferCostHistory now s) = inferCostHistories s
         /\ objects (SingleFile.updateInferCostHistory now s) = objects s)
        /\ (allCosts s = [] ->
            inferCostHistories (Project.updateInferCostHistory now s) = inferCostHistories s
            /\ objects (Project.updateInferCostHistory now s) = objects s))
  /\ (forall (runs : list Run) (s : State) (M p : string),
        (forall run r, In run runs -> In r (costList run) ->
                       id (objects s r) = M -> execPolynomial (objects s) r = p) ->
        List.length (historyOf M (inferCostHistories (analyseSingleFile runs s)))
        <= S (List.length (historyOf M (inferCostHistories s))))
  /\ (forall (runs : list Run) (s : State) (M p : string),
        (forall run r, In run runs -> In r (allEntries run) ->
                       id (objects s r) = M -> execPolynomial (objects s) r = p) ->
        List.length (historyOf M (inferCostHistories (analyseProject runs s)))
        <= S (List.length (historyOf M (inferCostHistories s))))
  /\ (map (fun n => List.length
                      (historyOf "/w/A.java:foo"
                         (inferCostHistories (Overloads.afterRuns n))))
          [0; 1; 2; 3]
      = [0; 2; 4; 6]
      /\ historyOf "/w/A.java:foo" (inferCostHistories (Overloads.afterRuns 3))
         = [15; 14; 13; 12; 11; 10]
      /\ map (fun r => (id (objects (Overloads.afterRuns 3) r),
                        execPolynomial (objects (Overloads.afterRuns 3)) r))
             [10; 11; 12; 13; 14; 15]
         = [ ("/w/A.java:foo", "n"); ("/w/A.java:foo", "n*n");
             ("/w/A.java:foo", "n"); ("/w/A.java:foo", "n*n");
             ("/w/A.java:foo", "n"); ("/w/A.java:foo", "n*n") ]
      /\ map (fun inferCostRawItem => entry_id (entryOfRaw inferCostRawItem))
             Overloads.report
         = ["A.foo(int):void.5a1e"; "A.foo(java.lang.String):void.77c3"]).
Proof.
  split; [|split; [|split; [|split; [|split]]]].
  - intros now s1 s2 r (Ho & Hh & Hc). apply recordCost_recorded.
    rewrite (singleFile_update_state now s2), (singleFile_update_state now s1).
    rewrite Hc, Ho, Hh, fold_left_app. reflexivity.
  - intros now s1 s2 r (Ho & Hh & Hc). apply recordCost_recorded.
    rewrite (project_update_state now s2), (project_update_state now s1).
    rewrite Hc, Ho, Hh, fold_left_app. reflexivity.
  - intros now s. split; intros Hnil.
    + pose proof (singleFile_update_state now s) as E. rewrite Hnil in E.
      cbn [fold_left] in E. injection E as Eo Eh. split; assumption.
    + pose proof (project_update_state now s) as E. rewrite Hnil in E.
      cbn [fold_left] in E. injection E as Eo Eh. split; assumption.
  - intros runs s M p Hall.
    destruct (analyseSingleFile_grownOnce runs s Hall (grownOnce_start s M p))
      as [_ [Hlen | [_ Hlen]]]; cbn [snd] in Hlen; lia.
  - intros runs s M p Hall.
    destruct (analyseProject_grownOnce runs s Hall (grownOnce_start s M p))
      as [_ [Hlen | [_ Hlen]]]; cbn [snd] in Hlen; lia.
  - repeat split; vm_compute; reflexivity.
Qed.

Lemma history_grows_only_on_change_witness :
  historyOf "A.foo(int)"
    (inferCostHistories
       (SingleFile.updateInferCostHistory "11/1/2026, 10:05:00"
          (install {| startedAt := "11/1/2026, 10:05:00"; costList := [1; 2];
                      costLists := [] |}
             (withHistories (Sample.heap, []) Sample.analysed))))
  = [2; 1]
  /\ List.length
       (historyOf "A.foo(int)"
          (inferCostHistories
             (analyseSingleFile
                [ {| startedAt := "11/1/2026, 10:00:00"; costList := [0]; costLists := [] |};
                  {| startedAt := "11/1/2026, 10:05:00"; costList := [1; 3];
                     costLists := [] |} ]
                (withHistories (Sample.heap, []) Sample.analysed))))
     <= 1.
Proof.
  split.
  - destruct (proj1 history_grows_only_on_change "11/1/2026, 10:05:00"
                (install {| startedAt := "11/1/2026, 10:05:00"; costList := [1];
                            costLists := [] |}
                   (withHistories (Sample.heap, []) Sample.analysed))
                (install {| startedAt := "11/1/2026, 10:05:00"; costList := [1; 2];
                            costLists := [] |}
                   (withHistories (Sample.heap, []) Sample.analysed))
                2)
      as [Changed _].
    + repeat split; reflexivity.
    + destruct Changed as [Put _]; [|exact Put].
      right. exists 1, []. split; [reflexivity | discriminate].
  - apply (proj1 (proj2 (proj2 (proj2 history_grows_only_on_change)))
             [ {| startedAt := "11/1/2026, 10:00:00"; costList := [0]; costLists := [] |};
               {| startedAt := "11/1/2026, 10:05:00"; costList := [1; 3]; costLists := [] |} ]
             (withHistories (Sample.heap, []) Sample.analysed) "A.foo(int)" "n").
    intros run r [<- | [<- | []]].
    + intros [<- | []] _. reflexivity.
    + intros [<- | [<- | []]]; [reflexivity | discriminate].
Defined.
